(** * godot-mcp-runtime: the runtime bridge and its session manager

  A shallow embedding of
  - the embedded listener [mcp_bridge.gd] (GDScript, module [Bridge]),
  - the session manager and bridge client of [godot-runner.ts]
    (module [Runner]),
  - the tool handlers that take a path: [manage_scene], [manage_node],
    [launch_editor], [list_projects], [get_project_info] and [run_project]
    (module [Tools]) and [manage_uids] (module [UidTools]),
  - what the runner does with the output of a headless run and with the
    names of the arguments (modules [Output], [Keys]),
  - the tools [get_ui_elements] and [get_debug_output] (modules [UiTool],
    [DebugTool]),
  - [_serialize_value] of the listener and [build_tree_recursive] of
    [godot_operations.gd] (modules [Serialize], [Operations]),
  together with the properties stated about them. *)

From Stdlib Require Import ZArith QArith Qround List String Ascii Bool Lia.
From Stdlib Require Import DecimalString DecimalNat.
From stdpp Require Import base gmap strings list.
Import ListNotations.

Set Warnings "-register-all".

Local Open Scope list_scope.

(** ** Strings of the two languages *)

Module Str.

(** [String.includes] of JavaScript, [in] / [contains] of GDScript. *)
Fixpoint includes (needle hay : string) : bool :=
  if String.prefix needle hay then true
  else match hay with
       | EmptyString => false
       | String _ rest => includes needle rest
       end.

(** [begins_with] of GDScript. *)
Definition begins_with (s p : string) : bool := String.prefix p s.

(** ["%d" % n] for a non-negative counter. *)
Definition of_nat (n : nat) : string :=
  NilEmpty.string_of_uint (Nat.to_uint n).

(** [s] between two double quotes. *)
Definition quoted (s : string) : string :=
  String (Ascii.ascii_of_nat 34) s +:+ String (Ascii.ascii_of_nat 34) "".

End Str.

(** ** The embedded listener, [mcp_bridge.gd] *)

Module Bridge.

(** *** Values of the scripting language

    What [JSON.parse] yields and what the script passes around.  Floats are
    idealised as rationals. *)
Inductive Variant : Type :=
| VNil
| VBool (b : bool)
| VInt (z : Z)
| VFloat (q : Q)
| VString (s : string)
| VArray (items : list Variant)
| VDict (entries : list (string * Variant)).

Definition Dictionary : Type := list (string * Variant).

(** [Dictionary.get(key, default)] *)
Fixpoint dict_get (d : Dictionary) (key : string) (default : Variant) : Variant :=
  match d with
  | [] => default
  | (k, v) :: rest => if String.eqb k key then v else dict_get rest key default
  end.

(** [Dictionary.has(key)] *)
Fixpoint dict_has (d : Dictionary) (key : string) : bool :=
  match d with
  | [] => false
  | (k, _) :: rest => String.eqb k key || dict_has rest key
  end.

(** Truthiness of a value in a condition ([if pressed:]). *)
Definition booleanize (v : Variant) : bool :=
  match v with
  | VNil => false
  | VBool b => b
  | VInt z => negb (z =? 0)%Z
  | VFloat q => negb (Qeq_bool q 0)
  | VString s => negb (String.eqb s "")
  | VArray l => match l with [] => false | _ => true end
  | VDict d => match d with [] => false | _ => true end
  end.

(** *** Script errors

    The virtual machine raises a runtime error when [==] meets a String and a
    value of another type, and when a value is stored in a variable declared
    with another type.  What the engine does after such an error is not part
    of the script; the model stops there. *)
Inductive Outcome (A : Type) : Type :=
| Ok (a : A)
| ScriptError.
Arguments Ok {A} a.
Arguments ScriptError {A}.

#[export] Instance Outcome_bind : MBind Outcome :=
  fun A B k m => match m with Ok a => k a | ScriptError => ScriptError end.

(** [var s: String = v] *)
Definition as_String (v : Variant) : Outcome string :=
  match v with
  | VString s => Ok s
  | _ => ScriptError
  end.

(** [var b: bool = v] *)
Definition as_bool (v : Variant) : Outcome bool :=
  match v with
  | VBool b => Ok b
  | _ => ScriptError
  end.

(** [v == ""]: defined between two Strings, and [false] against [null]. *)
Definition is_empty_String (v : Variant) : Outcome bool :=
  match v with
  | VString s => Ok (String.eqb s "")
  | VNil => Ok false
  | _ => ScriptError
  end.

(** *** The live scene tree *)

Record Rect2 : Type := { position_x : Q; position_y : Q; size_x : Q; size_y : Q }.

(** A node of the running game, with what the listener reads from it:
    [classes] is the inheritance chain, most derived class first
    ([get_class] is its head, [is_class] and [is] test membership);
    [visible_in_tree] is the engine's [is_visible_in_tree()]. *)
Inductive Node : Type :=
  mkNode (name : string) (classes : list string) (visible_in_tree : bool)
         (global_rect : Rect2) (text placeholder_text tooltip_text : string)
         (disabled : bool) (children : list Node).

Definition name (n : Node) : string :=
  match n with mkNode x _ _ _ _ _ _ _ _ => x end.
Definition classes (n : Node) : list string :=
  match n with mkNode _ x _ _ _ _ _ _ _ => x end.
Definition is_visible_in_tree (n : Node) : bool :=
  match n with mkNode _ _ x _ _ _ _ _ _ => x end.
Definition get_global_rect (n : Node) : Rect2 :=
  match n with mkNode _ _ _ x _ _ _ _ _ => x end.
Definition text (n : Node) : string :=
  match n with mkNode _ _ _ _ x _ _ _ _ => x end.
Definition placeholder_text (n : Node) : string :=
  match n with mkNode _ _ _ _ _ x _ _ _ => x end.
Definition tooltip_text (n : Node) : string :=
  match n with mkNode _ _ _ _ _ _ x _ _ => x end.
Definition disabled (n : Node) : bool :=
  match n with mkNode _ _ _ _ _ _ _ x _ => x end.
Definition get_children (n : Node) : list Node :=
  match n with mkNode _ _ _ _ _ _ _ _ x => x end.

Definition is_class (n : Node) (c : string) : bool :=
  existsb (String.eqb c) (classes n).

Definition get_class (n : Node) : string := hd "" (classes n).

(** [node is Control] *)
Definition is_Control (n : Node) : bool := is_class n "Control".

(** *** The engine

    Functions of the engine that the script calls and that are not part of
    the script. *)
Definition KEY_NONE : Z := 0.

Inductive MouseButton : Type :=
| MOUSE_BUTTON_LEFT
| MOUSE_BUTTON_RIGHT
| MOUSE_BUTTON_MIDDLE.

Definition Vector2 : Type := (Variant * Variant)%type.

(** What reaches the engine's input queue: [Input.parse_input_event],
    [Input.action_press] and [Input.action_release]. *)
Inductive InputEvent : Type :=
| InputEventKey (keycode : Z) (pressed : Variant) (echo : bool)
    (shift_pressed ctrl_pressed alt_pressed : Variant)
| InputEventMouseButton (button_index : MouseButton) (pressed : Variant)
    (position : Vector2) (double_click : Variant)
| InputEventMouseMotion (position relative : Vector2)
| ActionPress (action_name : string) (strength : Variant)
| ActionRelease (action_name : string).

Inductive ScreenshotResult : Type :=
| NoViewport
| NoImage
| SaveFailed (err : Z)
| Saved (file_path : string).

(** What a script of [run_script] has done when [execute] returns.  The
    script runs inside the game and nothing confines it: it is handed the
    scene tree, in which the listener is a node, and it reaches the engine's
    singletons.  Besides its result, already passed through
    [_serialize_value], the model keeps what it has made of the scene tree,
    the events it has fed to [Input], and the value it has left in the
    listener's [_is_processing_input]. *)
Inductive ScriptRun : Type :=
| CompileFailed (err : Z)
| NoInstance
| NoExecuteMethod
| Executed (serialized : Variant) (scene' : Node) (events : list InputEvent)
    (processing' : bool).

Record Engine : Type := {
  (** [JSON.parse]: the error message, or the parsed data *)
  json_parse : string -> string + Variant;
  (** [OS.find_keycode_from_string] *)
  find_keycode_from_string : string -> Z;
  (** [Node.get_node_or_null(NodePath(path))] *)
  get_node_or_null : Node -> string -> option Node;
  (** [str(v)], which ["%s" % v] prints for a value that is not a String *)
  str : Variant -> string;
  (** the viewport capture and [save_png] of [_handle_screenshot] *)
  save_screenshot : Node -> ScreenshotResult;
  (** compiling, instantiating and running the source of [run_script] on
      the scene tree, the listener's flag being what it is *)
  run_source : string -> Node -> bool -> ScriptRun;
  (** [String.strip_edges] *)
  strip_edges : string -> string
}.

Definition is_mouse_button_event (e : InputEvent) : bool :=
  match e with
  | InputEventMouseButton _ _ _ _ => true
  | _ => false
  end.

Section Listener.

Variable E : Engine.

(** ["%s" % v] *)
Definition format_s (v : Variant) : string :=
  match v with
  | VString s => s
  | _ => str E v
  end.

(** *** Input simulation *)

Definition _inject_key (action : Dictionary) : Outcome (string * list InputEvent) :=
  let key_name := dict_get action "key" (VString "") in
  missing ← is_empty_String key_name;
  if (missing : bool) then Ok ("key name is required", [])
  else
    key ← as_String key_name;
    let keycode := find_keycode_from_string E key in
    if (keycode =? KEY_NONE)%Z
    then Ok ("unrecognized key name: '" +:+ key +:+ "'", [])
    else
      Ok ("", [InputEventKey keycode
                 (dict_get action "pressed" (VBool true)) false
                 (dict_get action "shift" (VBool false))
                 (dict_get action "ctrl" (VBool false))
                 (dict_get action "alt" (VBool false))]).

Definition unknown_button (shown : string) : string :=
  "unknown button: '" +:+ shown +:+ "' (use 'left', 'right', or 'middle')".

(** [match button_name: "left": .. "right": .. "middle": .. _: ..]; a value
    that is not a String matches no pattern. *)
Definition button_of (button_name : Variant) : option MouseButton :=
  match button_name with
  | VString s =>
      if String.eqb s "left" then Some MOUSE_BUTTON_LEFT
      else if String.eqb s "right" then Some MOUSE_BUTTON_RIGHT
      else if String.eqb s "middle" then Some MOUSE_BUTTON_MIDDLE
      else None
  | _ => None
  end.

Definition _inject_mouse_button (action : Dictionary) : Outcome (string * list InputEvent) :=
  let button_name := dict_get action "button" (VString "left") in
  match button_of button_name with
  | None => Ok (unknown_button (format_s button_name), [])
  | Some button_index =>
      let pos := (dict_get action "x" (VInt 0), dict_get action "y" (VInt 0)) in
      let double_click := dict_get action "double_click" (VBool false) in
      if dict_has action "pressed"
      then Ok ("", [InputEventMouseButton button_index
                      (dict_get action "pressed" VNil) pos double_click])
      else Ok ("", [InputEventMouseButton button_index (VBool true) pos double_click;
                    InputEventMouseButton button_index (VBool false) pos (VBool false)])
  end.

Definition _inject_mouse_motion (action : Dictionary) : list InputEvent :=
  [InputEventMouseMotion
     (dict_get action "x" (VInt 0), dict_get action "y" (VInt 0))
     (dict_get action "relative_x" (VInt 0), dict_get action "relative_y" (VInt 0))].

Definition _inject_action (action : Dictionary) : Outcome (string * list InputEvent) :=
  let action_name := dict_get action "action" (VString "") in
  missing ← is_empty_String action_name;
  if (missing : bool) then Ok ("action name is required", [])
  else
    name ← as_String action_name;
    let pressed := dict_get action "pressed" (VBool true) in
    let strength := dict_get action "strength" (VFloat 1) in
    if booleanize pressed
    then Ok ("", [ActionPress name strength])
    else Ok ("", [ActionRelease name]).

(** The breadth-first search of [_find_control_by_identifier]: [queue] is the
    script's queue, front first.  Every turn of the [while] loop takes one
    node out, so the loop ends after as many turns as the queue holds nodes
    with their descendants; [fuel] counts the turns that are left. *)
Fixpoint bfs_by_name (fuel : nat) (identifier : string) (queue : list Node) : option Node :=
  match fuel with
  | O => None
  | S fuel' =>
      match queue with
      | [] => None
      | current :: rest =>
          if is_Control current && String.eqb (name current) identifier
          then Some current
          else bfs_by_name fuel' identifier (rest ++ get_children current)
      end
  end.

Fixpoint node_count (n : Node) : nat :=
  match n with
  | mkNode _ _ _ _ _ _ _ _ kids =>
      S ((fix forest (l : list Node) : nat :=
            match l with
            | [] => O
            | k :: l' => node_count k + forest l'
            end) kids)
  end.

Definition forest_count (l : list Node) : nat :=
  fold_right (fun n acc => node_count n + acc) O l.

(** [node is Control] after a lookup that may have found nothing. *)
Definition control_or_null (found : option Node) : option Node :=
  match found with
  | Some n => if is_Control n then Some n else None
  | None => None
  end.

Definition _find_control_by_identifier (root : Node) (identifier : string) : option Node :=
  match (if Str.begins_with identifier "/"
         then control_or_null (get_node_or_null E root identifier)
         else None) with
  | Some ctrl => Some ctrl
  | None =>
      match control_or_null (get_node_or_null E root identifier) with
      | Some ctrl => Some ctrl
      | None => bfs_by_name (forest_count [root]) identifier [root]
      end
  end.

(** [rect.get_center()] *)
Definition get_center (r : Rect2) : Vector2 :=
  (VFloat (position_x r + size_x r / 2), VFloat (position_y r + size_y r / 2)).

Definition _inject_click_element (root : Node) (action : Dictionary)
  : Outcome (string * list InputEvent) :=
  identifier ← as_String (dict_get action "element" (VString ""));
  if String.eqb identifier "" then Ok ("element identifier is required", [])
  else
    match _find_control_by_identifier root identifier with
    | None => Ok ("Could not find UI element: " +:+ identifier, [])
    | Some target =>
        if negb (is_visible_in_tree target)
        then Ok ("UI element '" +:+ identifier +:+ "' is not visible", [])
        else
          button_name ← as_String (dict_get action "button" (VString "left"));
          match button_of (VString button_name) with
          | None => Ok (unknown_button button_name, [])
          | Some button_index =>
              double_click ← as_bool (dict_get action "double_click" (VBool false));
              let center := get_center (get_global_rect target) in
              Ok ("", [InputEventMouseButton button_index (VBool true) center
                         (VBool double_click);
                       InputEventMouseButton button_index (VBool false) center
                         (VBool false)])
          end
    end.

(** *** UI element discovery *)

Definition rect_dict (r : Rect2) : Variant :=
  VDict [("x", VFloat (position_x r)); ("y", VFloat (position_y r));
         ("width", VFloat (size_x r)); ("height", VFloat (size_y r))].

(** The dictionary that [_collect_control_nodes] builds for one Control;
    [path] is [str(ctrl.get_path())]. *)
Definition element_of (path : string) (ctrl : Node) : Dictionary :=
  [("name", VString (name ctrl)); ("type", VString (get_class ctrl));
   ("path", VString path); ("rect", rect_dict (get_global_rect ctrl));
   ("visible", VBool (is_visible_in_tree ctrl))]
  ++ (if is_class ctrl "Button" then [("text", VString (text ctrl))]
      else if is_class ctrl "Label" then [("text", VString (text ctrl))]
      else if is_class ctrl "LineEdit"
           then [("text", VString (text ctrl));
                 ("placeholder", VString (placeholder_text ctrl))]
      else if is_class ctrl "TextEdit" then [("text", VString (text ctrl))]
      else if is_class ctrl "RichTextLabel" then [("text", VString (text ctrl))]
      else [])
  ++ (if is_class ctrl "BaseButton" then [("disabled", VBool (disabled ctrl))] else [])
  ++ (if String.eqb (tooltip_text ctrl) "" then []
      else [("tooltip", VString (tooltip_text ctrl))]).

(** [_collect_control_nodes(node, elements, visible_only, type_filter)]; the
    array [elements] is passed in and comes back extended.  [parent_path] is
    the path of the parent of [node], from which [get_path()] of [node] and
    of its descendants follows. *)
Fixpoint _collect_control_nodes (parent_path : string) (node : Node)
    (elements : list Dictionary) (visible_only : bool) (type_filter : string)
    {struct node} : list Dictionary :=
  match node with
  | mkNode nm _ _ _ _ _ _ _ kids =>
      let path := parent_path +:+ "/" +:+ nm in
      let for_children :=
        (fix each (l : list Node) (acc : list Dictionary) : list Dictionary :=
           match l with
           | [] => acc
           | child :: l' =>
               each l' (_collect_control_nodes path child acc visible_only type_filter)
           end) kids in
      if is_Control node then
        if visible_only && negb (is_visible_in_tree node) then elements
        else if negb (String.eqb type_filter "") && negb (is_class node type_filter)
        then for_children elements
        else for_children (elements ++ [element_of path node])
      else for_children elements
  end.

(** *** The listener's state *)

Definition Peer : Type := nat.

Inductive Packet : Type :=
| JsonPacket (data : Dictionary)
| TextPacket (data : string).

(** A call that is suspended at an [await]. *)
Inductive Frame : Type :=
| InputFrame (peer : Peer) (remaining : list Variant) (processed : nat)
| ScreenshotFrame (peer : Peer).

Record Listener : Type := {
  _is_processing_input : bool;
  root : Node;
  input_queue : list InputEvent;
  sent : list (Peer * Packet);
  awaiting : list Frame
}.

Definition set_processing (b : bool) (L : Listener) : Listener :=
  {| _is_processing_input := b; root := root L; input_queue := input_queue L;
     sent := sent L; awaiting := awaiting L |}.

Definition set_root (r : Node) (L : Listener) : Listener :=
  {| _is_processing_input := _is_processing_input L; root := r;
     input_queue := input_queue L; sent := sent L; awaiting := awaiting L |}.

Definition parse_input_events (evs : list InputEvent) (L : Listener) : Listener :=
  {| _is_processing_input := _is_processing_input L; root := root L;
     input_queue := input_queue L ++ evs; sent := sent L; awaiting := awaiting L |}.

Definition put_packet (peer : Peer) (p : Packet) (L : Listener) : Listener :=
  {| _is_processing_input := _is_processing_input L; root := root L;
     input_queue := input_queue L; sent := sent L ++ [(peer, p)];
     awaiting := awaiting L |}.

Definition set_awaiting (fs : list Frame) (L : Listener) : Listener :=
  {| _is_processing_input := _is_processing_input L; root := root L;
     input_queue := input_queue L; sent := sent L; awaiting := fs |}.

Definition suspend (fr : Frame) (L : Listener) : Listener :=
  set_awaiting (awaiting L ++ [fr]) L.

Definition _send_response (peer : Peer) (data : Dictionary) (L : Listener) : Listener :=
  put_packet peer (JsonPacket data) L.

Definition error_reply (msg : string) : Dictionary := [("error", VString msg)].

(** *** One turn of the loop of [_handle_input] *)

Inductive Advance : Type :=
| Next
| Break (error_msg : string)
| AwaitTimer (seconds : Q).

Definition action_prefix (processed : nat) (kind : string) : string :=
  "Action " +:+ Str.of_nat processed +:+ " (" +:+ kind +:+ "): ".

Definition from_result (processed : nat) (kind : string)
    (r : Outcome (string * list InputEvent)) : Outcome (Advance * list InputEvent) :=
  '(result, evs) ← r;
  if String.eqb result "" then Ok (Next, evs)
  else Ok (Break (action_prefix processed kind +:+ result), evs).

(** [typeof(v) == TYPE_FLOAT or typeof(v) == TYPE_INT] *)
Definition is_number (v : Variant) : bool :=
  match v with
  | VFloat _ | VInt _ => true
  | _ => false
  end.

Definition number_value (v : Variant) : Q :=
  match v with
  | VFloat q => q
  | VInt z => inject_Z z
  | _ => 0
  end.

(** The ["wait"] branch. *)
Definition wait_action (action : Dictionary) (processed : nat) : Advance :=
  let ms := dict_get action "ms" (VInt 0) in
  if is_number ms then
    if negb (Qle_bool (number_value ms) 0)
    then AwaitTimer (number_value ms / 1000)
    else Next
  else Break (action_prefix processed "wait" +:+ "ms must be a number").

Definition input_action (tree : Node) (action : Variant) (processed : nat)
  : Outcome (Advance * list InputEvent) :=
  match action with
  | VDict action =>
      match dict_get action "type" (VString "") with
      | VString type =>
          if String.eqb type "key" then from_result processed "key" (_inject_key action)
          else if String.eqb type "mouse_button"
          then from_result processed "mouse_button" (_inject_mouse_button action)
          else if String.eqb type "mouse_motion"
          then Ok (Next, _inject_mouse_motion action)
          else if String.eqb type "action"
          then from_result processed "action" (_inject_action action)
          else if String.eqb type "click_element"
          then from_result processed "click_element" (_inject_click_element tree action)
          else if String.eqb type "wait" then Ok (wait_action action processed, [])
          else Ok (Break ("Action " +:+ Str.of_nat processed +:+ ": unknown type '"
                          +:+ type +:+ "'"), [])
      | other =>
          Ok (Break ("Action " +:+ Str.of_nat processed +:+ ": unknown type '"
                     +:+ format_s other +:+ "'"), [])
      end
  | _ => Ok (Break ("Action at index " +:+ Str.of_nat processed +:+ " is not an object"), [])
  end.

(** The end of [_handle_input]: the flag is cleared and the reply is sent. *)
Definition input_reply (error_msg : string) (processed : nat) : Dictionary :=
  if negb (String.eqb error_msg "")
  then [("error", VString error_msg); ("actions_processed", VInt (Z.of_nat processed))]
  else [("success", VBool true); ("actions_processed", VInt (Z.of_nat processed))].

Definition input_finish (peer : Peer) (error_msg : string) (processed : nat)
    (L : Listener) : Listener :=
  _send_response peer (input_reply error_msg processed) (set_processing false L).

(** How a stretch of the [for] loop of [_handle_input] ends: the loop is left
    (by [break], or at the end of the array) with its two variables, or the
    call is suspended at the timer of a [wait], the actions after the [wait]
    still to run. *)
Inductive LoopExit : Type :=
| LoopLeft (error_msg : string) (processed : nat)
| LoopAwait (remaining : list Variant) (processed : nat).

(** The [for] loop from the action it is about to run: [actions] are the
    actions not yet run, [processed] is the counter.  Between two [await]s the
    scene tree is the same [tree]; the events go to the input queue in the
    order of the list. *)
Fixpoint input_loop (tree : Node) (actions : list Variant) (processed : nat)
  : Outcome (LoopExit * list InputEvent) :=
  match actions with
  | [] => Ok (LoopLeft "" processed, [])
  | action :: rest =>
      '(adv, evs) ← input_action tree action processed;
      match adv with
      | Next =>
          '(exit, evs') ← input_loop tree rest (S processed);
          Ok (exit, evs ++ evs')
      | Break error_msg => Ok (LoopLeft error_msg processed, evs)
      | AwaitTimer _ => Ok (LoopAwait rest processed, evs)
      end
  end.

(** A stretch of [_handle_input] in the listener: up to the reply, or up to
    the next [await]. *)
Definition input_stretch (peer : Peer) (actions : list Variant) (processed : nat)
    (L : Listener) : Outcome Listener :=
  '(exit, evs) ← input_loop (root L) actions processed;
  let L' := parse_input_events evs L in
  match exit with
  | LoopLeft error_msg processed' => Ok (input_finish peer error_msg processed' L')
  | LoopAwait remaining processed' => Ok (suspend (InputFrame peer remaining processed') L')
  end.

Definition _handle_input (peer : Peer) (actions : list Variant) (L : Listener)
  : Outcome Listener :=
  input_stretch peer actions 0 (set_processing true L).

(** After the timer the [wait] is counted ([processed += 1]) and the loop
    goes on. *)
Definition resume_input (peer : Peer) (remaining : list Variant) (processed : nat)
    (L : Listener) : Outcome Listener :=
  input_stretch peer remaining (S processed) L.

(** *** The other commands *)

Definition _handle_get_ui_elements (peer : Peer) (payload : Dictionary) (L : Listener)
  : Outcome Listener :=
  visible_only ← as_bool (dict_get payload "visible_only" (VBool true));
  type_filter ← as_String (dict_get payload "type_filter" (VString ""));
  let elements := _collect_control_nodes "" (root L) [] visible_only type_filter in
  Ok (_send_response peer [("elements", VArray (map VDict elements))] L).

(** [_handle_screenshot] first waits for the frame to be drawn. *)
Definition _handle_screenshot (peer : Peer) (L : Listener) : Listener :=
  suspend (ScreenshotFrame peer) L.

Definition resume_screenshot (peer : Peer) (L : Listener) : Listener :=
  match save_screenshot E (root L) with
  | NoViewport => _send_response peer (error_reply "No viewport available") L
  | NoImage => _send_response peer (error_reply "Failed to capture viewport image") L
  | SaveFailed err =>
      _send_response peer
        (error_reply ("Failed to save screenshot (error "
                      +:+ NilZero.string_of_int (Z.to_int err) +:+ ")")) L
  | Saved safe_path => _send_response peer [("path", VString safe_path)] L
  end.

Definition _handle_run_script (peer : Peer) (payload : Dictionary) (L : Listener)
  : Outcome Listener :=
  source ← as_String (dict_get payload "source" (VString ""));
  if String.eqb (strip_edges E source) ""
  then Ok (_send_response peer (error_reply "No script source provided") L)
  else
    match run_source E source (root L) (_is_processing_input L) with
    | CompileFailed err =>
        Ok (_send_response peer
              (error_reply ("Script compilation failed (error "
                            +:+ NilZero.string_of_int (Z.to_int err)
                            +:+ "). Check syntax.")) L)
    | NoInstance => Ok (_send_response peer (error_reply "Failed to instantiate script") L)
    | NoExecuteMethod =>
        Ok (_send_response peer
              (error_reply "Script must define func execute(scene_tree: SceneTree) -> Variant")
              L)
    | Executed serialized scene' events processing' =>
        Ok (_send_response peer [("success", VBool true); ("result", serialized)]
              (set_processing processing'
                 (parse_input_events events (set_root scene' L))))
    end.

(** The [match command:] of [_handle_json_command], once the datagram is
    parsed. *)
Definition dispatch (peer : Peer) (payload : Dictionary) (L : Listener) : Outcome Listener :=
  let command := dict_get payload "command" (VString "") in
  let unknown :=
    Ok (_send_response peer (error_reply ("Unknown command: " +:+ format_s command)) L) in
  match command with
  | VString c =>
      if String.eqb c "input" then
        match dict_get payload "actions" (VArray []) with
        | VArray actions =>
            match actions with
            | [] => Ok (_send_response peer (error_reply "actions array is empty") L)
            | _ :: _ =>
                if _is_processing_input L
                then Ok (_send_response peer
                           (error_reply "Input sequence already in progress") L)
                else _handle_input peer actions L
            end
        | _ => Ok (_send_response peer (error_reply "actions must be an array") L)
        end
      else if String.eqb c "get_ui_elements" then _handle_get_ui_elements peer payload L
      else if String.eqb c "run_script" then _handle_run_script peer payload L
      else if String.eqb c "screenshot" then Ok (_handle_screenshot peer L)
      else if String.eqb c "ping" then Ok (_send_response peer [("status", VString "pong")] L)
      else unknown
  | _ => unknown
  end.

Definition _handle_json_command (peer : Peer) (data : string) (L : Listener)
  : Outcome Listener :=
  match json_parse E data with
  | inl message => Ok (_send_response peer (error_reply ("Invalid JSON: " +:+ message)) L)
  | inr (VDict payload) => dispatch peer payload L
  | inr _ => Ok (_send_response peer (error_reply "Expected JSON object") L)
  end.

(** [_process], for one datagram; [data] is the packet as a string, its
    edges stripped. *)
Definition _process (peer : Peer) (data : string) (L : Listener) : Outcome Listener :=
  if Str.begins_with data "{" then _handle_json_command peer data L
  else if String.eqb data "screenshot" then Ok (_handle_screenshot peer L)
  else if String.eqb data "ping" then Ok (put_packet peer (TextPacket "pong") L)
  else Ok (_send_response peer (error_reply ("Unknown command: " +:+ data)) L).

(** A suspended call continues. *)
Definition resume (fr : Frame) (L : Listener) : Outcome Listener :=
  match fr with
  | InputFrame peer remaining processed => resume_input peer remaining processed L
  | ScreenshotFrame peer => Ok (resume_screenshot peer L)
  end.

(** *** A batch from its first action to its reply

    The call that a stretch has left suspended: the stretch ran in [before]
    and left [after], and [suspend] has put the call behind the calls that
    were suspended already. *)
Definition suspended_call (before after : Listener) : option Frame :=
  if length (awaiting before) <? length (awaiting after)
  then nth_error (awaiting after) (length (awaiting before))
  else None.

(** The call is followed from one stretch to the next.  [wakes] are the
    states of the listener at the ends of the timers, one after the other:
    whatever the game and the other commands have made of it while the call
    slept, the suspended call taken out.  The result is the state in which
    the last stretch ran and the state it left; a call whose timer has not
    ended when [wakes] runs out stays suspended. *)
Fixpoint input_run (wakes : list Listener) (before after : Listener)
  : Outcome (Listener * Listener) :=
  match suspended_call before after with
  | Some fr =>
      match wakes with
      | woken :: later =>
          after' ← resume fr woken;
          input_run later woken after'
      | [] => Ok (before, after)
      end
  | None => Ok (before, after)
  end.

(** [_handle_input(peer, actions)] called in [L] and followed to its reply. *)
Definition input_batch (peer : Peer) (actions : list Variant) (L : Listener)
    (wakes : list Listener) : Outcome (Listener * Listener) :=
  after ← _handle_input peer actions L;
  input_run wakes L after.

(** *** The listener at work

    A datagram arrives and is handled up to the reply or to the first
    [await]; a suspended call is woken and runs on; the game changes its own
    scene tree between two of these. *)
Inductive step : Listener -> Listener -> Prop :=
| step_datagram peer data L L' :
    _process peer data L = Ok L' -> step L L'
| step_wake i fr L L' :
    awaiting L !! i = Some fr ->
    resume fr (set_awaiting (delete i (awaiting L)) L) = Ok L' ->
    step L L'
| step_game tree L :
    step L (set_root tree L).

Inductive reachable (L0 : Listener) : Listener -> Prop :=
| reach_start : reachable L0 L0
| reach_step L L' : reachable L0 L -> step L L' -> reachable L0 L'.

(** The listener when [_ready] has run. *)
Definition ready (tree : Node) : Listener :=
  {| _is_processing_input := false; root := tree; input_queue := [];
     sent := []; awaiting := [] |}.

Definition is_input_frame (fr : Frame) : bool :=
  match fr with
  | InputFrame _ _ _ => true
  | ScreenshotFrame _ => false
  end.

(** The input batches that are under way: started and not yet answered. *)
Definition batches_in_flight (L : Listener) : nat :=
  length (List.filter is_input_frame (awaiting L)).

(** An action that ran and did not fail, the counter being [processed]. *)
Definition succeeds (action : Variant) (processed : nat) : Prop :=
  exists tree adv evs,
    input_action tree action processed = Ok (adv, evs) /\
    forall error_msg, adv <> Break error_msg.

Inductive all_succeed : nat -> list Variant -> Prop :=
| all_succeed_nil processed : all_succeed processed []
| all_succeed_cons processed action rest :
    succeeds action processed ->
    all_succeed (S processed) rest ->
    all_succeed processed (action :: rest).

(** The reply that ends a batch: sent by the last stretch, which ran in
    [before] and left [final], with the count of the claim. *)
Definition counted_reply (peer : Peer) (batch : list Variant)
    (before final : Listener) : Prop :=
  exists reply,
    sent final = sent before ++ [(peer, JsonPacket reply)]
    /\ _is_processing_input final = false
    /\ awaiting final = awaiting before
    /\ ((reply = [("success", VBool true);
                  ("actions_processed", VInt (Z.of_nat (length batch)))]
         /\ all_succeed 0 batch)
        \/ (exists pre failing post error_msg evs,
              batch = pre ++ failing :: post /\
              all_succeed 0 pre /\
              input_action (root before) failing (length pre)
              = Ok (Break error_msg, evs) /\
              reply = [("error", VString error_msg);
                       ("actions_processed", VInt (Z.of_nat (length pre)))])).

End Listener.

(** Every node of a tree, the node itself first. *)
Fixpoint nodes_of (n : Node) : list Node :=
  match n with
  | mkNode _ _ _ _ _ _ _ _ kids =>
      n :: (fix forest (l : list Node) : list Node :=
              match l with
              | [] => []
              | k :: l' => nodes_of k ++ forest l'
              end) kids
  end.

(** The Controls that the traversal of [_collect_control_nodes] comes to,
    each with its path, in the order of the traversal: a Control that
    [visible_only] hides is left out with everything below it; the type
    filter plays no part. *)
Fixpoint visited_controls (parent_path : string) (node : Node) (visible_only : bool)
  : list (string * Node) :=
  match node with
  | mkNode nm _ _ _ _ _ _ _ kids =>
      let path := parent_path +:+ "/" +:+ nm in
      let below :=
        (fix each (l : list Node) : list (string * Node) :=
           match l with
           | [] => []
           | child :: l' => visited_controls path child visible_only ++ each l'
           end) kids in
      if is_Control node then
        if visible_only && negb (is_visible_in_tree node) then []
        else (path, node) :: below
      else below
  end.

(** A Control that the type filter lets into the result. *)
Definition matches_filter (type_filter : string) (ctrl : string * Node) : bool :=
  String.eqb type_filter "" || is_class (snd ctrl) type_filter.

(** Induction on a scene tree, the children of a node being covered by the
    induction hypothesis. *)
Fixpoint Node_forall_ind (P : Node -> Prop)
    (step : forall nm cls vis rect txt ph tip dis kids,
        Forall P kids -> P (mkNode nm cls vis rect txt ph tip dis kids))
    (n : Node) : P n :=
  match n with
  | mkNode nm cls vis rect txt ph tip dis kids =>
      step nm cls vis rect txt ph tip dis kids
        ((fix all (l : list Node) : Forall P l :=
            match l with
            | [] => @List.Forall_nil Node P
            | k :: l' => @List.Forall_cons Node P k l' (Node_forall_ind P step k) (all l')
            end) kids)
  end.

(** *** A small engine and scene, for examples *)

Fixpoint split_slash (s : string) (current : string) : list string :=
  match s with
  | EmptyString => [current]
  | String c rest =>
      if Ascii.eqb c "/" then current :: split_slash rest ""
      else split_slash rest (current +:+ String c "")
  end.

Fixpoint descend (n : Node) (parts : list string) : option Node :=
  match parts with
  | [] => Some n
  | part :: parts' =>
      if String.eqb part "" then descend n parts'
      else match List.find (fun c => String.eqb (name c) part) (get_children n) with
           | Some c => descend c parts'
           | None => None
           end
  end.

(** Paths by child names; an absolute path starts at the root's own name. *)
Definition demo_get_node (tree : Node) (path : string) : option Node :=
  match path with
  | EmptyString => None
  | String c rest =>
      if Ascii.eqb c "/" then
        match split_slash rest "" with
        | first :: parts => if String.eqb first (name tree) then descend tree parts else None
        | [] => None
        end
      else descend tree (split_slash path "")
  end.

Definition quoted : string -> string := Str.quoted.

(** The text [{"command":"ping"}]. *)
Definition ping_text : string :=
  "{" +:+ quoted "command" +:+ ":" +:+ quoted "ping" +:+ "}".

(** The text
    [{"command":"input","actions":[{"type":"wait","ms":50},{"type":"key","key":"A"}]}]. *)
Definition wait_then_A_text : string :=
  "{" +:+ quoted "command" +:+ ":" +:+ quoted "input" +:+ ","
  +:+ quoted "actions" +:+ ":[{" +:+ quoted "type" +:+ ":" +:+ quoted "wait" +:+ ","
  +:+ quoted "ms" +:+ ":50},{" +:+ quoted "type" +:+ ":" +:+ quoted "key" +:+ ","
  +:+ quoted "key" +:+ ":" +:+ quoted "A" +:+ "}]}".

(** An engine that knows three keys and two JSON texts. *)
Definition demo_engine : Engine :=
  {| json_parse := fun s =>
       if String.eqb s ping_text then inr (VDict [("command", VString "ping")])
       else if String.eqb s wait_then_A_text
       then inr (VDict [("command", VString "input");
                        ("actions",
                         VArray [VDict [("type", VString "wait"); ("ms", VFloat 50)];
                                 VDict [("type", VString "key"); ("key", VString "A")]])])
       else inl "Unexpected character";
     find_keycode_from_string := fun s =>
       if String.eqb s "A" then 65%Z
       else if String.eqb s "Space" then 32%Z
       else if String.eqb s "Escape" then 4194305%Z
       else KEY_NONE;
     get_node_or_null := demo_get_node;
     str := fun _ => "<value>";
     save_screenshot := fun _ => Saved "/tmp/game/.mcp/screenshots/screenshot_0.png";
     run_source := fun _ tree flag => Executed VNil tree [] flag;
     strip_edges := fun s => s |}.

Definition demo_rect : Rect2 :=
  {| position_x := 10; position_y := 20; size_x := 100; size_y := 40 |}.

Definition demo_start : Node :=
  mkNode "Start" ["Button"; "BaseButton"; "Control"; "CanvasItem"; "Node"; "Object"]
    true demo_rect "Start game" "" "" false [].

Definition demo_hidden : Node :=
  mkNode "Secret" ["Button"; "BaseButton"; "Control"; "CanvasItem"; "Node"; "Object"]
    false demo_rect "Cheat" "" "" false [].

Definition demo_score : Node :=
  mkNode "Score" ["Label"; "Control"; "CanvasItem"; "Node"; "Object"]
    true demo_rect "0" "" "points" false [].

Definition demo_menu : Node :=
  mkNode "Menu" ["VBoxContainer"; "BoxContainer"; "Container"; "Control";
                 "CanvasItem"; "Node"; "Object"]
    true demo_rect "" "" "" false [demo_start; demo_hidden; demo_score].

Definition demo_root : Node :=
  mkNode "root" ["Window"; "Viewport"; "Node"; "Object"]
    true demo_rect "" "" "" false [demo_menu].

Definition key_A : Variant := VDict [("type", VString "key"); ("key", VString "A")].
Definition wait_50 : Variant := VDict [("type", VString "wait"); ("ms", VFloat 50)].
Definition bad_button : Variant :=
  VDict [("type", VString "mouse_button"); ("button", VString "thumb")].
Definition motion : Variant :=
  VDict [("type", VString "mouse_motion"); ("x", VFloat 5); ("y", VFloat 6)].

(** The batch [[{type:"wait", ms:100}, {type:"key", key:"BOGUS_KEY"}]]. *)
Definition bogus_key : Variant :=
  VDict [("type", VString "key"); ("key", VString "BOGUS_KEY")].
Definition bogus_batch : list Variant :=
  [VDict [("type", VString "wait"); ("ms", VFloat 100)]; bogus_key].
Definition bogus_error : string :=
  "Action 1 (key): unrecognized key name: 'BOGUS_KEY'".

(** [{type:"wait", ms:-5}] *)
Definition negative_wait : Variant :=
  VDict [("type", VString "wait"); ("ms", VFloat (-5))].

Definition input_command (actions : list Variant) : Dictionary :=
  [("command", VString "input"); ("actions", VArray actions)].

(** ** Vocabulary of the properties *)

(** No script of [run_script] writes the flag of the listener. *)
Definition scripts_leave_flag (E : Engine) : Prop :=
  forall source tree flag serialized scene' events flag',
    run_source E source tree flag = Executed serialized scene' events flag' ->
    flag' = flag.

(** A change of the listener that leaves the flag and the suspended batches
    alone. *)
Definition neutral (L L' : Listener) : Prop :=
  _is_processing_input L' = _is_processing_input L /\
  List.filter is_input_frame (awaiting L') = List.filter is_input_frame (awaiting L).

(** The entry of a control that the walker has reached under [fst ctrl]. *)
Definition element_at (ctrl : string * Node) : Dictionary :=
  element_of (fst ctrl) (snd ctrl).

(** Two [click_element] actions: one names no control of [demo_root], the
    other names nothing. *)
Definition click_quit : Dictionary :=
  [("type", VString "click_element"); ("element", VString "Quit")].

Definition click_nothing : Dictionary :=
  [("type", VString "click_element"); ("element", VString "")].

(** The listener with one batch under way: it has received
    [[{type:"wait", ms:50}, {type:"key", key:"A"}]] and sleeps in the wait. *)
Definition busy : Listener :=
  {| _is_processing_input := true; root := demo_root; input_queue := [];
     sent := []; awaiting := [InputFrame 1 [key_A] 0] |}.

(** A batch of five actions, the fourth of which fails, and the listener as
    it is when the timer of the second ends: the first key is in the queue,
    the call taken out of the suspended ones. *)
Definition demo_batch : list Variant := [key_A; wait_50; motion; bad_button; key_A].

Definition demo_woken : Listener :=
  {| _is_processing_input := true; root := demo_root;
     input_queue := [InputEventKey 65 (VBool true) false (VBool false) (VBool false)
                       (VBool false)];
     sent := []; awaiting := [] |}.

End Bridge.

(** ** The session manager and the bridge client, [godot-runner.ts] *)

Module Runner.

(** *** Text of files

    The content of a file is a list of characters; of the white space of
    JavaScript only the ASCII part is told apart. *)
Definition Text : Type := list ascii.

Definition txt (s : string) : Text := list_ascii_of_string s.

Definition LF : ascii := Ascii.ascii_of_nat 10.
Definition DQUOTE : ascii := Ascii.ascii_of_nat 34.

(** [\s], and the characters that [trimEnd] removes *)
Definition is_space (c : ascii) : bool :=
  let n := Ascii.nat_of_ascii c in
  ((9 <=? n) && (n <=? 13)) || (n =? 32).

(** the line terminators, for [^] and [$] under the flag [m] *)
Definition is_line_terminator (c : ascii) : bool :=
  let n := Ascii.nat_of_ascii c in
  (n =? 10) || (n =? 13).

(** [s.startsWith(p)] *)
Fixpoint starts_with (p s : Text) : bool :=
  match p, s with
  | [], _ => true
  | _ :: _, [] => false
  | a :: p', b :: s' => Ascii.eqb a b && starts_with p' s'
  end.

(** [s.includes(p)] *)
Fixpoint includes (p s : Text) : bool :=
  starts_with p s
  || match s with
     | [] => false
     | _ :: s' => includes p s'
     end.

(** The number of places of [s] where [p] stands. *)
Fixpoint count_matches (p s : Text) : nat :=
  (if starts_with p s then 1 else 0)
  + match s with
    | [] => 0
    | _ :: s' => count_matches p s'
    end.

(** [s.endsWith("\n")] *)
Definition ends_with_LF (s : Text) : bool :=
  match rev s with
  | c :: _ => Ascii.eqb c LF
  | [] => false
  end.

(** [s.trimEnd()] *)
Fixpoint trimEnd (s : Text) : Text :=
  match s with
  | [] => []
  | c :: rest =>
      match trimEnd rest with
      | [] => if is_space c then [] else [c]
      | kept => c :: kept
      end
  end.

(** [\s*] followed by what [look] accepts: the white space is taken
    greedily and given back one character at a time until [look] accepts
    the rest; the result is the number of characters taken. *)
Fixpoint spaces_then (look : Text -> bool) (rest : Text) : option nat :=
  match rest with
  | c :: rest' =>
      if is_space c then
        match spaces_then look rest' with
        | Some k => Some (S k)
        | None => if look rest then Some 0 else None
        end
      else if look rest then Some 0 else None
  | [] => if look [] then Some 0 else None
  end.

(** [s.replace(new RegExp("\\n?" + entry, "g"), "")]: from left to right,
    every [entry], with the line feed before it when there is one, is taken
    out; [skip] characters of a match are still to be dropped. *)
Fixpoint remove_entry (skip : nat) (entry : Text) (s : Text) : Text :=
  match s with
  | [] => []
  | c :: rest =>
      match skip with
      | S k => remove_entry k entry rest
      | O =>
          if Ascii.eqb c LF && starts_with entry rest
          then remove_entry (length entry) entry rest
          else if starts_with entry s
          then remove_entry (pred (length entry)) entry rest
          else c :: remove_entry 0 entry rest
      end
  end.

Definition autoload_header : Text := txt "[autoload]".

(** The lookahead [(?=\n\[|\n*$)]. *)
Definition section_or_end_follows (rest : Text) : bool :=
  starts_with [LF; "["%char] rest || forallb (Ascii.eqb LF) rest.

(** [s.replace(/\[autoload\]\s*(?=\n\[|\n*$)/g, "")] *)
Fixpoint remove_empty_autoload (skip : nat) (s : Text) : Text :=
  match s with
  | [] => []
  | c :: rest =>
      match skip with
      | S k => remove_empty_autoload k rest
      | O =>
          if starts_with autoload_header s then
            match spaces_then section_or_end_follows
                    (skipn (length autoload_header) s) with
            | Some k => remove_empty_autoload (pred (length autoload_header + k)) rest
            | None => c :: remove_empty_autoload 0 rest
            end
          else c :: remove_empty_autoload 0 rest
      end
  end.

(** [$] under the flag [m]. *)
Definition at_line_end (rest : Text) : bool :=
  match rest with
  | [] => true
  | c :: _ => is_line_terminator c
  end.

(** [/^\[autoload\]\s*$/m] at the start of [s], which is the start of a
    line: the length of the match. *)
Definition header_line_here (s : Text) : option nat :=
  if starts_with autoload_header s then
    match spaces_then at_line_end (skipn (length autoload_header) s) with
    | Some k => Some (length autoload_header + k)
    | None => None
    end
  else None.

(** [content.replace(/^\[autoload\]\s*$/m, replacement)]: the first match
    is replaced; [None] when the expression matches nowhere, which is when
    [test] fails.  [line_start] says that [s] starts a line. *)
Fixpoint replace_header_line (line_start : bool) (replacement : Text) (s : Text)
  : option Text :=
  match (if line_start then header_line_here s else None) with
  | Some len => Some (replacement ++ skipn len s)
  | None =>
      match s with
      | [] => None
      | c :: rest =>
          match replace_header_line (is_line_terminator c) replacement rest with
          | Some out => Some (c :: out)
          | None => None
          end
      end
  end.

(** [`${entryName}="*res://${scriptFilename}"`] *)
Definition autoload_entry (entryName scriptFilename : string) : Text :=
  txt entryName ++ txt "=" ++ [DQUOTE] ++ txt "*res://" ++ txt scriptFilename ++ [DQUOTE].

(** The registration of the listener: [McpBridge="*res://mcp_bridge.gd"]. *)
Definition bridge_entry : Text := autoload_entry "McpBridge" "mcp_bridge.gd".

(** The registration of the legacy screenshot server. *)
Definition legacy_entry : Text :=
  autoload_entry "McpScreenshotServer" "mcp_screenshot_server.gd".

(** *** Paths and the disk *)

(** [path.join(dir, name)] of a POSIX system, for a directory name and a
    relative name that are in the normal form of [path.normalize]: there it
    is the two names with a slash between them. *)
Definition join (dir name : string) : string := dir +:+ "/" +:+ name.

(** A name without a slash: the name of a file, not a path. *)
Fixpoint plain_name (s : string) : bool :=
  match s with
  | EmptyString => true
  | String c rest => negb (Ascii.eqb c "/") && plain_name rest
  end.

(** The disk: the regular files with their content, and the directories.
    The process may read and write whatever is there, so that a call of [fs]
    can fail only by the kind of what a path names, a file where a directory
    is needed or a directory where a file is; the functions below are these
    calls where they succeed, and [ordinary_root] at the end of the module
    says where that is for the files of an injection. *)
Record Disk : Type := {
  files : gmap string Text;
  dirs : gset string
}.

Definition existsSync (path : string) (d : Disk) : bool :=
  bool_decide (is_Some (files d !! path)) || bool_decide (path ∈ dirs d).

Definition writeFileSync (path : string) (content : Text) (d : Disk) : Disk :=
  {| files := <[path := content]> (files d); dirs := dirs d |}.

Definition unlinkSync (path : string) (d : Disk) : Disk :=
  {| files := delete path (files d); dirs := dirs d |}.

Definition mkdirSync (path : string) (d : Disk) : Disk :=
  {| files := files d; dirs := {[path]} ∪ dirs d |}.

(** [validatePath] *)
Definition validatePath (path : string) : bool :=
  negb (String.eqb path "" || Str.includes ".." path).

(** *** Arguments of the tools

    The arguments of a tool call are a JSON object, and so is every object
    that the handlers build.  [JsValue] holds the values that [JSON.parse]
    gives; [undefined], the value of a field that an object does not have,
    is the [None] of [get].  An object is the list of its fields in the
    order in which [for (key in object)] meets them: the keys that are array
    indices first, in the order of their numbers, then the other keys in the
    order in which they were set.  A number is kept as the text that
    JavaScript prints for it ([String(n)]: [5], [0.1], [1e+21], [NaN],
    [Infinity]), which tells the numbers apart up to the sign of zero. *)
Inductive JsValue : Type :=
| JNull
| JBool (b : bool)
| JNumber (shown : string)
| JString (s : string)
| JArray (items : list JsValue)
| JObject (fields : list (string * JsValue)).

Definition OperationParams : Type := list (string * JsValue).

(** [obj[key]] for a key of the object's own *)
Fixpoint get (obj : OperationParams) (key : string) : option JsValue :=
  match obj with
  | [] => None
  | (k, v) :: rest => if String.eqb k key then Some v else get rest key
  end.

Definition is_digit_char (c : ascii) : bool :=
  let n := Ascii.nat_of_ascii c in (48 <=? n) && (n <=? 57).

Fixpoint digits_value (s : string) (acc : N) : option N :=
  match s with
  | EmptyString => Some acc
  | String c rest =>
      if is_digit_char c
      then digits_value rest (10 * acc + N.of_nat (Ascii.nat_of_ascii c - 48))%N
      else None
  end.

(** The array index that a key is: the decimal digits of a number below
    [2^32 - 1], without a zero in front. *)
Definition array_index (key : string) : option N :=
  match key with
  | EmptyString => None
  | String c rest =>
      if Ascii.eqb c "0" && negb (String.eqb rest "") then None
      else match digits_value key 0 with
           | Some n => if (n <? 4294967295)%N then Some n else None
           | None => None
           end
  end.

(** Whether a new key [key] comes before the field [k] of an object. *)
Definition goes_before (key k : string) : bool :=
  match array_index key, array_index k with
  | Some i, Some j => (i <? j)%N
  | Some _, None => true
  | None, _ => false
  end.

(** [obj[key] = value]: the field keeps its place when the object has it,
    and a new field takes the place that the order of the keys gives it. *)
Fixpoint set (obj : OperationParams) (key : string) (value : JsValue) : OperationParams :=
  match obj with
  | [] => [(key, value)]
  | (k, v) :: rest =>
      if String.eqb k key then (k, value) :: rest
      else if goes_before key k then (key, value) :: obj
      else (k, v) :: set rest key value
  end.

(** [!v] *)
Definition falsy (v : option JsValue) : bool :=
  match v with
  | None | Some JNull => true
  | Some (JBool b) => negb b
  | Some (JNumber shown) => String.eqb shown "0" || String.eqb shown "NaN"
  | Some (JString s) => String.eqb s ""
  | Some (JArray _) | Some (JObject _) => false
  end.

Definition parameterMappings : list (string * string) :=
  [("project_path", "projectPath"); ("scene_path", "scenePath");
   ("root_node_type", "rootNodeType"); ("parent_node_path", "parentNodePath");
   ("node_type", "nodeType"); ("node_name", "nodeName");
   ("texture_path", "texturePath"); ("node_path", "nodePath");
   ("output_path", "outputPath"); ("mesh_item_names", "meshItemNames");
   ("new_path", "newPath"); ("file_path", "filePath"); ("script_path", "scriptPath")].

Fixpoint mapping (table : list (string * string)) (key : string) : option string :=
  match table with
  | [] => None
  | (k, v) :: rest => if String.eqb k key then Some v else mapping rest key
  end.

(** The two tables of names are plain objects: a key that they do not have
    and that is the name of a member of [Object.prototype] finds that
    member, a function or the prototype of the prototype's accessor
    [__proto__], which is truthy and which, used as a key, becomes its text
    in Node.js.  [Object_prototype] gives that text, and [None] for a key
    that names no member. *)
Definition prototype_functions : list string :=
  ["hasOwnProperty"; "isPrototypeOf"; "propertyIsEnumerable"; "toLocaleString";
   "toString"; "valueOf"; "__defineGetter__"; "__defineSetter__";
   "__lookupGetter__"; "__lookupSetter__"].

Definition Object_prototype (key : string) : option string :=
  if String.eqb key "__proto__" then Some "[object Object]"
  else if String.eqb key "constructor"
  then Some "function Object() { [native code] }"
  else if existsb (String.eqb key) prototype_functions
  then Some ("function " +:+ key +:+ "() { [native code] }")
  else None.

(** [table[key]], which is truthy for every key that finds something *)
Definition table_lookup (table : list (string * string)) (key : string)
  : option string :=
  match mapping table key with
  | Some name => Some name
  | None => Object_prototype key
  end.

(** The key that [normalizeParameters] gives to a field:
    [key.includes('_') && parameterMappings[key] ? parameterMappings[key] : key] *)
Definition normalizedKey (key : string) : string :=
  if Str.includes "_" key then
    match table_lookup parameterMappings key with
    | Some name => name
    | None => key
    end
  else key.

(** [normalizeParameters], for a value and for an object: the keys in snake
    case get their camel case names; an object among the values is
    normalized in the same way, an array is left as it is. *)
Fixpoint normalize_value (value : JsValue) : JsValue :=
  match value with
  | JObject fields =>
      JObject (fold_left
                 (fun result field =>
                    set result (normalizedKey (fst field)) (normalize_value (snd field)))
                 fields [])
  | _ => value
  end.

Definition normalizeParameters (params : OperationParams) : OperationParams :=
  fold_left
    (fun result field =>
       set result (normalizedKey (fst field)) (normalize_value (snd field)))
    params [].

(** [createErrorResponse(message, possibleSolutions)], and a reply with one
    text. *)
Inductive Response : Type :=
| ErrorResponse (message : string) (possibleSolutions : list string)
| Content (text : string).

(** *** The runner and what it acts on

    Reading a file that is not there throws; the other failures of a disk
    (permissions, a full disk) are left out.  The listener script that ships
    with the server, the file at [bridgeScriptPath], is in place and has the
    content [bridgeScript]. *)
Inductive Completion (A : Type) : Type :=
| Returns (value : A)
| Throws (message : string).
Arguments Returns {A} value.
Arguments Throws {A} message.

Record GodotProcess : Type := {
  pid : nat;
  output : list string;
  errors : list string;
  exitCode : option Z;
  hasExited : bool
}.

Record State : Type := {
  godotPath : option string;
  bridgeScript : Text;
  injectedProjects : gset string;
  activeProcess : option GodotProcess;
  activeProjectPath : option string;
  disk : Disk;
  (** the argument lists of the [spawn] calls so far, the latest last *)
  spawned : list (list string);
  (** the processes that [kill()] was called on *)
  killed : list nat
}.

Definition set_disk (d : Disk) (s : State) : State :=
  {| godotPath := godotPath s; bridgeScript := bridgeScript s;
     injectedProjects := injectedProjects s; activeProcess := activeProcess s;
     activeProjectPath := activeProjectPath s; disk := d;
     spawned := spawned s; killed := killed s |}.

Definition set_injected (i : gset string) (s : State) : State :=
  {| godotPath := godotPath s; bridgeScript := bridgeScript s;
     injectedProjects := i; activeProcess := activeProcess s;
     activeProjectPath := activeProjectPath s; disk := disk s;
     spawned := spawned s; killed := killed s |}.

Definition set_active (proc : option GodotProcess) (path : option string) (s : State)
  : State :=
  {| godotPath := godotPath s; bridgeScript := bridgeScript s;
     injectedProjects := injectedProjects s; activeProcess := proc;
     activeProjectPath := path; disk := disk s;
     spawned := spawned s; killed := killed s |}.

Definition kill (proc : GodotProcess) (s : State) : State :=
  {| godotPath := godotPath s; bridgeScript := bridgeScript s;
     injectedProjects := injectedProjects s; activeProcess := activeProcess s;
     activeProjectPath := activeProjectPath s; disk := disk s;
     spawned := spawned s; killed := killed s ++ [pid proc] |}.

(** [spawn(this.godotPath, cmdArgs, ..)] with the record kept of it. *)
Definition spawn (cmdArgs : list string) (s : State) : State * GodotProcess :=
  ({| godotPath := godotPath s; bridgeScript := bridgeScript s;
      injectedProjects := injectedProjects s; activeProcess := activeProcess s;
      activeProjectPath := activeProjectPath s; disk := disk s;
      spawned := spawned s ++ [cmdArgs]; killed := killed s |},
   {| pid := length (spawned s); output := []; errors := [];
      exitCode := None; hasExited := false |}).

(** What [removeAutoloadEntry] leaves of the project file. *)
Definition without_entry (autoloadEntry content : Text) : Text :=
  trimEnd (remove_empty_autoload 0 (remove_entry 0 autoloadEntry content)) ++ [LF].

(** [removeAutoloadEntry]; each of its three parts catches what it throws. *)
Definition removeAutoloadEntry (projectPath entryName scriptFilename : string)
    (d : Disk) : Disk :=
  let projectFile := join projectPath "project.godot" in
  let d1 :=
    if existsSync projectFile d then
      match files d !! projectFile with
      | Some content =>
          let autoloadEntry := autoload_entry entryName scriptFilename in
          if includes autoloadEntry content
          then writeFileSync projectFile (without_entry autoloadEntry content) d
          else d
      | None => d
      end
    else d in
  let scriptFile := join projectPath scriptFilename in
  let d2 := if existsSync scriptFile d1 then unlinkSync scriptFile d1 else d1 in
  let uidFile := join projectPath (scriptFilename +:+ ".uid") in
  if existsSync uidFile d2 then unlinkSync uidFile d2 else d2.

(** The project file with the registration put in. *)
Definition with_entry (autoloadEntry content : Text) : Text :=
  match replace_header_line true (autoload_header ++ [LF] ++ autoloadEntry) content with
  | Some replaced => replaced
  | None => trimEnd content ++ [LF; LF] ++ autoload_header ++ [LF] ++ autoloadEntry ++ [LF]
  end.

Definition mcpGitignoreEntry : Text := txt ".mcp/".

Definition injectBridgeAutoload (projectPath : string) (s : State)
  : State * Completion unit :=
  if bool_decide (projectPath ∈ injectedProjects s) then (s, Returns tt)
  else
    let d := disk s in
    let mcpDir := join projectPath ".mcp" in
    let d := if existsSync mcpDir d then d else mkdirSync mcpDir d in
    let gdignorePath := join mcpDir ".gdignore" in
    let d := if existsSync gdignorePath d then d else writeFileSync gdignorePath [] d in
    let gitignorePath := join projectPath ".gitignore" in
    let ignored : Completion Disk :=
      if existsSync gitignorePath d then
        match files d !! gitignorePath with
        | Some gitignoreContent =>
            if includes mcpGitignoreEntry gitignoreContent then Returns d
            else
              let newline := if ends_with_LF gitignoreContent then [] else [LF] in
              Returns (writeFileSync gitignorePath
                         (gitignoreContent ++ newline ++ mcpGitignoreEntry ++ [LF]) d)
        | None => Throws "EISDIR: illegal operation on a directory, read"
        end
      else Returns (writeFileSync gitignorePath (mcpGitignoreEntry ++ [LF]) d) in
    match ignored with
    | Throws message => (set_disk d s, Throws message)
    | Returns d =>
        let d := removeAutoloadEntry projectPath "McpScreenshotServer"
                   "mcp_screenshot_server.gd" d in
        let destScript := join projectPath "mcp_bridge.gd" in
        let d := writeFileSync destScript (bridgeScript s) d in
        let projectFile := join projectPath "project.godot" in
        match files d !! projectFile with
        | None => (set_disk d s, Throws "ENOENT: no such file or directory, open")
        | Some content =>
            if includes bridge_entry content
            then (set_injected ({[projectPath]} ∪ injectedProjects s) (set_disk d s),
                  Returns tt)
            else
              let d := writeFileSync projectFile (with_entry bridge_entry content) d in
              (set_injected ({[projectPath]} ∪ injectedProjects s) (set_disk d s),
               Returns tt)
        end
    end.

Definition cleanupBridgeAutoload (projectPath : string) (s : State) : State :=
  set_injected (injectedProjects s ∖ {[projectPath]})
    (set_disk (removeAutoloadEntry projectPath "McpBridge" "mcp_bridge.gd" (disk s)) s).

(** [runProject(projectPath, scene?)]; a failed injection is caught and is
    not fatal. *)
Definition runProject (projectPath : string) (scene : option string) (s : State)
  : State * Completion GodotProcess :=
  match godotPath s with
  | None => (s, Throws "Godot path not set. Call detectGodotPath first.")
  | Some _ =>
      let s :=
        match activeProcess s with
        | Some proc =>
            let s := kill proc s in
            match activeProjectPath s with
            | Some old =>
                if negb (String.eqb old "") && bool_decide (old <> projectPath)
                then cleanupBridgeAutoload old s
                else s
            | None => s
            end
        | None => s
        end in
      let s := fst (injectBridgeAutoload projectPath s) in
      let s := set_active (activeProcess s) (Some projectPath) s in
      let cmdArgs :=
        ["-d"; "--path"; projectPath]
        ++ match scene with
           | Some scene =>
               if negb (String.eqb scene "") && validatePath scene then [scene] else []
           | None => []
           end in
      let '(s, godotProcess) := spawn cmdArgs s in
      (set_active (Some godotProcess) (activeProjectPath s) s, Returns godotProcess)
  end.

Definition stopProject (s : State)
  : State * option (list string * list string) :=
  match activeProcess s with
  | None => (s, None)
  | Some proc =>
      let s := kill proc s in
      let result := (output proc, errors proc) in
      let s := set_active None (activeProjectPath s) s in
      let s :=
        match activeProjectPath s with
        | Some path =>
            if negb (String.eqb path "")
            then set_active None None (cleanupBridgeAutoload path s)
            else s
        | None => s
        end in
      (s, Some result)
  end.

(** *** Two projects, for examples *)

Definition lines (l : list string) : Text :=
  concat (map (fun line => txt line ++ [LF]) l).

(** A project file with an [autoload] section ... *)
Definition demo_project_a : Text :=
  lines ["config_version=5"; ""; "[application]"; "config/name=Alpha"; "";
         "[autoload]"; "Game=res://game.gd"; ""; "[rendering]"; "quality=2"].

(** ... and one without. *)
Definition demo_project_b : Text :=
  lines ["config_version=5"; ""; "[application]"; "config/name=Beta"].

Definition demo_disk : Disk :=
  {| files := <["/games/a/project.godot" := demo_project_a]>
                (<["/games/b/project.godot" := demo_project_b]> ∅);
     dirs := {["/games"]} ∪ {["/games/a"]} ∪ {["/games/b"]} |}.

Definition demo_state : State :=
  {| godotPath := Some "/usr/bin/godot"; bridgeScript := txt "extends Node";
     injectedProjects := ∅; activeProcess := None; activeProjectPath := None;
     disk := demo_disk; spawned := []; killed := [] |}.

(** The runner after it has run the first project and then the second. *)
Definition demo_switched : State :=
  fst (runProject "/games/b" (Some "main.tscn")
         (fst (runProject "/games/a" None demo_state))).

(** *** The bridge client, [sendCommand]

    One call: its socket, its timer, its flag and its promise.  The
    callbacks run one at a time, in whatever order their events come. *)
Inductive Settlement : Type :=
| Resolved (reply : string)
| Rejected (message : string).

Record Call : Type := {
  settled : bool;
  (** the calls of [socket.close()] *)
  closes : nat;
  timer_cleared : bool;
  (** the calls of [resolve] and [reject], the first one first *)
  settlements : list Settlement
}.

Inductive SocketEvent : Type :=
| TimerFires
| MessageArrives (msg : string)
| ErrorRaised (message : string)
| SendReturns (err : option string).

Definition sendCommand_start : Call :=
  {| settled := false; closes := 0; timer_cleared := false; settlements := [] |}.

(** [settled = true; clearTimeout(timer)?; socket.close(); resolve/reject(..)] *)
Definition settle (clear : bool) (outcome : Settlement) (c : Call) : Call :=
  {| settled := true; closes := S (closes c);
     timer_cleared := clear || timer_cleared c;
     settlements := settlements c ++ [outcome] |}.

(** The callback of one event. *)
Definition on_event (command : string) (timeoutMs : nat) (ev : SocketEvent) (c : Call)
  : Call :=
  match ev with
  | TimerFires =>
      if negb (settled c)
      then settle false
             (Rejected ("Command '" +:+ command +:+ "' timed out after "
                        +:+ Str.of_nat timeoutMs +:+ "ms. Is the game running?")) c
      else c
  | MessageArrives msg =>
      if negb (settled c) then settle true (Resolved msg) c else c
  | ErrorRaised message =>
      if negb (settled c)
      then settle true
             (Rejected ("UDP error for command '" +:+ command +:+ "': " +:+ message)) c
      else c
  | SendReturns (Some message) =>
      if negb (settled c)
      then settle true
             (Rejected ("Failed to send command '" +:+ command +:+ "': " +:+ message)) c
      else c
  | SendReturns None => c
  end.

Definition run_events (command : string) (timeoutMs : nat) (evs : list SocketEvent)
    (c : Call) : Call :=
  fold_left (fun c ev => on_event command timeoutMs ev c) evs c.

(** An event whose callback settles a call that is not yet settled: the
    reply, an error, the timeout. *)
Definition settles (ev : SocketEvent) : bool :=
  match ev with
  | SendReturns None => false
  | _ => true
  end.

(** ** Vocabulary of the properties *)

(** [if (existsSync(p)) unlinkSync(p)], which leaves other files alone and
    does nothing the second time. *)
Definition remove_if_there (p : string) (d : Disk) : Disk :=
  if existsSync p d then unlinkSync p d else d.

Definition project_file (root : string) : string := join root "project.godot".
Definition gitignore_file (root : string) : string := join root ".gitignore".
Definition mcp_dir (root : string) : string := join root ".mcp".
Definition gdignore_file (root : string) : string := join (mcp_dir root) ".gdignore".
Definition bridge_script_file (root : string) : string := join root "mcp_bridge.gd".
Definition bridge_uid_file (root : string) : string :=
  join root ("mcp_bridge.gd" +:+ ".uid").
Definition legacy_script_file (root : string) : string :=
  join root "mcp_screenshot_server.gd".
Definition legacy_uid_file (root : string) : string :=
  join root ("mcp_screenshot_server.gd" +:+ ".uid").

(** The first part: the directory [.mcp] and its [.gdignore]. *)
Definition ensure_mcp_dir (root : string) (d : Disk) : Disk :=
  let d := if existsSync (mcp_dir root) d then d else mkdirSync (mcp_dir root) d in
  if existsSync (gdignore_file root) d then d
  else writeFileSync (gdignore_file root) [] d.

(** The second part: [.mcp/] in [.gitignore]. *)
Definition ensure_gitignore (root : string) (d : Disk) : Completion Disk :=
  if existsSync (gitignore_file root) d then
    match files d !! gitignore_file root with
    | Some gitignoreContent =>
        if includes mcpGitignoreEntry gitignoreContent then Returns d
        else
          let newline := if ends_with_LF gitignoreContent then [] else [LF] in
          Returns (writeFileSync (gitignore_file root)
                     (gitignoreContent ++ newline ++ mcpGitignoreEntry ++ [LF]) d)
    | None => Throws "EISDIR: illegal operation on a directory, read"
    end
  else Returns (writeFileSync (gitignore_file root) (mcpGitignoreEntry ++ [LF]) d).

(** The third part: the legacy server goes, the listener script comes. *)
Definition place_script (root : string) (script : Text) (d : Disk) : Disk :=
  writeFileSync (bridge_script_file root) script
    (removeAutoloadEntry root "McpScreenshotServer" "mcp_screenshot_server.gd" d).

Definition prepared (root : string) (d : Disk) : Prop :=
  existsSync (mcp_dir root) d = true /\ existsSync (gdignore_file root) d = true.

Definition ignoring (root : string) (d : Disk) : Prop :=
  exists g, files d !! gitignore_file root = Some g /\
            includes mcpGitignoreEntry g = true.

(** The first part of [removeAutoloadEntry]: the project file. *)
Definition clean_project_file (root entryName scriptFilename : string) (d : Disk) : Disk :=
  if existsSync (project_file root) d then
    match files d !! project_file root with
    | Some content =>
        if includes (autoload_entry entryName scriptFilename) content
        then writeFileSync (project_file root)
               (without_entry (autoload_entry entryName scriptFilename) content) d
        else d
    | None => d
    end
  else d.

(** The files that an injection into [root] may write or remove. *)
Definition touched_by_injection (root q : string) : Prop :=
  q = gdignore_file root \/ q = gitignore_file root \/ q = project_file root \/
  q = legacy_script_file root \/ q = legacy_uid_file root \/
  q = bridge_script_file root.

(** A text of ASCII characters: on such a text [is_space] is the white
    space of JavaScript, which beyond ASCII has more characters. *)
Definition ascii_text (s : Text) : bool :=
  forallb (fun c => Ascii.nat_of_ascii c <? 128) s.

(** *** Ordinary project roots

    [join] is [path.join] for a directory whose name is absolute and in the
    normal form of [path.normalize], with no slash at its end: after the
    slash that it begins with, its parts are neither empty, nor [.], nor
    [..].  Two such names that differ name two directories (the disk has no
    links, and names that differ in their case differ). *)
Fixpoint path_parts (current path : string) : list string :=
  match path with
  | EmptyString => [current]
  | String c rest =>
      if Ascii.eqb c "/" then current :: path_parts "" rest
      else path_parts (current +:+ String c "") rest
  end.

Definition proper_part (part : string) : bool :=
  negb (String.eqb part "") && negb (String.eqb part ".")
  && negb (String.eqb part "..").

Definition normal_root (root : string) : bool :=
  match path_parts "" root with
  | first :: part :: rest => String.eqb first "" && forallb proper_part (part :: rest)
  | _ => false
  end.

(** The writes of an injection succeed in a root that is a directory, in
    which [.mcp] is no regular file and neither [.gitignore] nor
    [mcp_bridge.gd] is a directory; elsewhere [writeFileSync], [mkdirSync]
    or [copyFileSync] throws. *)
Definition ordinary_root (root : string) (d : Disk) : bool :=
  normal_root root
  && bool_decide (root ∈ dirs d)
  && negb (bool_decide (is_Some (files d !! join root ".mcp")))
  && negb (bool_decide (join root ".gitignore" ∈ dirs d))
  && negb (bool_decide (join root "mcp_bridge.gd" ∈ dirs d)).

End Runner.

(** * The tool handlers

    The handlers of [scene-tools.ts], [node-tools.ts] and [project-tools.ts]
    that take a path.  The handlers cast their arguments with [as string]
    and do not check the type, so that any JSON value can stand where a
    string is meant; what [validatePath], [path.join] and a template string
    do with such a value is part of the model.  A handler that throws (a
    [TypeError] outside its [try] block) is [None]. *)

Module Tools.
Import Runner.

#[export] Instance Completion_bind : MBind Completion :=
  fun A B k m => match m with Returns a => k a | Throws message => Throws message end.

(** What escapes a handler is lost to it. *)
Definition escape {A : Type} (c : Completion A) : option A :=
  match c with
  | Returns a => Some a
  | Throws _ => None
  end.

(** [v === s] for a string [s] *)
Definition strictly (v : option JsValue) (s : string) : bool :=
  match v with
  | Some (JString x) => String.eqb x s
  | _ => false
  end.

Definition is_dot_dot (v : JsValue) : bool :=
  match v with
  | JString s => String.eqb s ".."
  | _ => false
  end.

Definition not_a_function : string := "path.includes is not a function".

(** [validatePath(path)] for the value that stands in the place of the
    string: a falsy value fails; an array has an [includes] of its own,
    which looks for the element [".."]; a number, [true] and an object have
    none, and the call throws. *)
Definition validatePath_of (path : option JsValue) : Completion bool :=
  if falsy path then Returns false
  else
    match path with
    | Some (JString s) => Returns (validatePath s)
    | Some (JArray items) => Returns (negb (existsb is_dot_dot items))
    | _ => Throws not_a_function
    end.

(** [!validatePath(a) || !validatePath(b)], negated *)
Definition both_valid (a b : option JsValue) : Completion bool :=
  valid ← validatePath_of a;
  if (valid : bool) then validatePath_of b else Returns false.

Definition has_field (fields : OperationParams) (key : string) : bool :=
  match get fields key with
  | Some _ => true
  | None => false
  end.

(** [String(v)], which a template string applies to a value: an array is
    the texts of its elements with commas between them, [null] being the
    empty text; an object is [[object Object]], unless it has a field
    [toString] of its own, which is no function: then the conversion
    throws. *)
Fixpoint String_of (v : JsValue) : Completion string :=
  match v with
  | JNull => Returns "null"
  | JBool b => Returns (if b then "true" else "false")
  | JNumber shown => Returns shown
  | JString s => Returns s
  | JArray items =>
      (fix joined (l : list JsValue) : Completion string :=
         match l with
         | [] => Returns ""
         | x :: rest =>
             first ← match x with
                     | JNull => Returns ""
                     | _ => String_of x
                     end;
             match rest with
             | [] => Returns first
             | _ :: _ => others ← joined rest; Returns (first +:+ "," +:+ others)
             end
         end) items
  | JObject fields =>
      if has_field fields "toString"
      then Throws "Cannot convert object to primitive value"
      else Returns "[object Object]"
  end.

(** [`${v}`] *)
Definition text_of (v : option JsValue) : Completion string :=
  match v with
  | Some x => String_of x
  | None => Returns "undefined"
  end.

(** What [path.join] throws for an argument that is not a string, the
    argument being named as Node.js names it: by its type and its text, or as
    an instance of what made it.  The latter is asked of the object, which
    may have a field [constructor] of its own. *)
Definition invalid_path_argument (named : Completion string) : Completion string :=
  name ← named;
  Throws ("The " +:+ Str.quoted "path" +:+ " argument must be of type string. Received "
          +:+ name).

Definition instance_of (fields : OperationParams) : Completion string :=
  match get fields "constructor" with
  | None => Returns "an instance of Object"
  | Some (JObject made_by) =>
      if falsy (get made_by "name") then Returns "[Object]"
      else name ← text_of (get made_by "name"); Returns ("an instance of " +:+ name)
  | Some _ => Returns "[Object]"
  end.

(** The check that [path.join] makes of each of its arguments. *)
Definition as_path (v : option JsValue) : Completion string :=
  match v with
  | Some (JString s) => Returns s
  | None => invalid_path_argument (Returns "undefined")
  | Some JNull => invalid_path_argument (Returns "null")
  | Some (JBool b) =>
      invalid_path_argument
        (Returns ("type boolean (" +:+ (if b then "true" else "false") +:+ ")"))
  | Some (JNumber shown) =>
      invalid_path_argument (Returns ("type number (" +:+ shown +:+ ")"))
  | Some (JArray _) => invalid_path_argument (Returns "an instance of Array")
  | Some (JObject fields) => invalid_path_argument (instance_of fields)
  end.

(** [v || fallback] *)
Definition or_else (v : option JsValue) (fallback : JsValue) : JsValue :=
  match v with
  | Some x => if falsy v then fallback else x
  | None => fallback
  end.

(** An object literal [{ key: value, ... }]; a field whose value is
    [undefined] is of no effect on what is made of the object, and is left
    out. *)
Fixpoint literal (fields : list (string * option JsValue)) : OperationParams :=
  match fields with
  | [] => []
  | (key, Some value) :: rest => (key, value) :: literal rest
  | (_, None) :: rest => literal rest
  end.

(** [if (args[key]) params[key] = args[key]] *)
Definition copy_if_set (args : OperationParams) (key : string)
    (params : OperationParams) : OperationParams :=
  match get args key with
  | Some v => if falsy (Some v) then params else set params key v
  | None => params
  end.

(** [if (args[key] && Array.isArray(args[key])) params[key] = args[key]] *)
Definition copy_if_array (args : OperationParams) (key : string)
    (params : OperationParams) : OperationParams :=
  match get args key with
  | Some (JArray items) => set params key (JArray items)
  | _ => params
  end.

(** What [runner.executeOperation] hands back: the two streams of the
    headless process, or an exception with its message. *)
Inductive ExecResult : Type :=
| Completed (stdout stderr : string)
| Failed (errorMessage : string).

(** What a handler comes to.  It answers by itself; or it calls
    [runner.executeOperation(operation, params, projectPath)] and answers
    from its result; or it calls [runner.launchEditor(projectPath)], the
    runner having the engine at [godotPath], and then answers; or it
    searches [directory] with [findGodotProjects] and answers with what it
    finds; or it reads the project at [projectPath] and answers with its
    description; or it answers with the JSON text of [data]. *)
Inductive Handled : Type :=
| Responds (r : Response)
| Executes (operation : string) (params : OperationParams)
    (projectPath : string) (after : ExecResult -> Response)
| Launches (godotPath projectPath : string) (r : Response)
| Searches (directory : string) (recursive : bool)
| Describes (projectPath godotVersion : string)
| Tells (data : JsValue).

Definition godot_solutions : list string :=
  ["Ensure Godot is installed correctly";
   "Check if the GODOT_PATH environment variable is set correctly"].

(** The code after [await runner.executeOperation(...)], with the [catch]
    block of the handler; [what] is [scene] or [node]. *)
Definition report_of (what operation failure : string) (solutions : list string)
    (result : ExecResult) : Response :=
  match result with
  | Completed stdout stderr =>
      if negb (String.eqb stderr "") && Str.includes "Failed to" stderr
      then ErrorResponse (failure +:+ stderr) solutions
      else Content stdout
  | Failed errorMessage =>
      ErrorResponse ("Failed to " +:+ operation +:+ " " +:+ what +:+ ": " +:+ errorMessage)
        godot_solutions
  end.

Definition report : string -> string -> list string -> ExecResult -> Response :=
  report_of "scene".

(** The [catch] block for what is thrown before [executeOperation] is
    reached; the template string may throw in its turn. *)
Definition caught (what : string) (operation : option JsValue) (errorMessage : string)
  : Completion Handled :=
  shown ← text_of operation;
  Returns (Responds (ErrorResponse
                       ("Failed to " +:+ shown +:+ " " +:+ what +:+ ": " +:+ errorMessage)
                       godot_solutions)).

Definition try_catch (body : Completion Handled) (handler : string -> Completion Handled)
  : Completion Handled :=
  match body with
  | Returns h => Returns h
  | Throws message => handler message
  end.

Definition invalid_path : Response :=
  ErrorResponse "Invalid path"
    ["Provide valid paths without " +:+ Str.quoted ".."
     +:+ " or other potentially unsafe characters"].

Definition without_dots : list string :=
  ["Provide a valid path without " +:+ Str.quoted ".."].

Definition unsafe_characters : list string :=
  ["Provide a valid path without " +:+ Str.quoted ".."
   +:+ " or other potentially unsafe characters"].

Definition not_a_project (projectPath : string) (solutions : list string) : Response :=
  ErrorResponse ("Not a valid Godot project: " +:+ projectPath) solutions.

Definition containing_project_file : string :=
  "Ensure the path points to a directory containing a project.godot file".

(** *** [manage_scene] *)

Definition scene_operations : string :=
  "create, add_node, load_sprite, save, export_mesh_library".

(** The [switch (operation)] of [handleManageScene], inside its [try]. *)
Definition manage_scene_operation (operation : option JsValue) (projectPath : string)
    (args : OperationParams) (d : Disk) : Completion Handled :=
  if strictly operation "create" then
    let params :=
      literal [("scenePath", get args "scenePath");
               ("rootNodeType",
                Some (or_else (get args "rootNodeType") (JString "Node2D")))] in
    Returns (Executes "create_scene" params projectPath
               (report "create" "Failed to create scene: "
                  ["Check if the root node type is valid"]))
  else if strictly operation "add_node" then
    if falsy (get args "nodeType") || falsy (get args "nodeName") then
      Returns (Responds (ErrorResponse "nodeType and nodeName are required for add_node"
                           ["Provide both nodeType and nodeName"]))
    else
      let params :=
        literal [("scenePath", get args "scenePath");
                 ("nodeType", get args "nodeType");
                 ("nodeName", get args "nodeName")] in
      let params := copy_if_set args "parentNodePath" params in
      let params := copy_if_set args "properties" params in
      Returns (Executes "add_node" params projectPath
                 (report "add_node" "Failed to add node: "
                    ["Check if the node type is valid";
                     "Ensure the parent node path exists"]))
  else if strictly operation "load_sprite" then
    if falsy (get args "nodePath") || falsy (get args "texturePath") then
      Returns (Responds (ErrorResponse
                           "nodePath and texturePath are required for load_sprite"
                           ["Provide both nodePath and texturePath"]))
    else
      valid ← both_valid (get args "nodePath") (get args "texturePath");
      if negb valid then Returns (Responds invalid_path)
      else
        texturePath ← as_path (get args "texturePath");
        if negb (existsSync (join projectPath texturePath) d) then
          Returns (Responds (ErrorResponse
                               ("Texture file does not exist: " +:+ texturePath)
                               ["Ensure the texture path is correct"]))
        else
          let params :=
            literal [("scenePath", get args "scenePath");
                     ("nodePath", get args "nodePath");
                     ("texturePath", get args "texturePath")] in
          Returns (Executes "load_sprite" params projectPath
                     (report "load_sprite" "Failed to load sprite: "
                        ["Check if the node is a Sprite2D, Sprite3D, or TextureRect"]))
  else if strictly operation "save" then
    valid ← (if falsy (get args "newPath") then Returns true
             else validatePath_of (get args "newPath"));
    if negb valid then Returns (Responds (ErrorResponse "Invalid new path" without_dots))
    else
      let params := literal [("scenePath", get args "scenePath")] in
      let params := copy_if_set args "newPath" params in
      Returns (Executes "save_scene" params projectPath
                 (report "save" "Failed to save scene: "
                    ["Check if the scene file is valid"]))
  else if strictly operation "export_mesh_library" then
    if falsy (get args "outputPath") then
      Returns (Responds (ErrorResponse "outputPath is required for export_mesh_library"
                           ["Provide the output path for the .res file"]))
    else
      valid ← validatePath_of (get args "outputPath");
      if negb valid then
        Returns (Responds (ErrorResponse "Invalid output path" without_dots))
      else
        let params :=
          literal [("scenePath", get args "scenePath");
                   ("outputPath", get args "outputPath")] in
        let params := copy_if_array args "meshItemNames" params in
        Returns (Executes "export_mesh_library" params projectPath
                   (report "export_mesh_library" "Failed to export mesh library: "
                      ["Check if the scene contains valid 3D meshes"]))
  else
    shown ← text_of operation;
    Returns (Responds (ErrorResponse ("Unknown operation: " +:+ shown)
                         ["Use one of: " +:+ scene_operations])).

(** The checks that [handleManageScene] and [handleManageNode] begin with,
    up to the project file; [next] goes on with the project path. *)
Definition with_project (args : OperationParams) (d : Disk) (operations : string)
    (next : string -> Completion Handled) : option Handled :=
  if falsy (get args "operation") then
    Some (Responds (ErrorResponse "operation is required"
                      ["Provide one of: " +:+ operations]))
  else if falsy (get args "projectPath") || falsy (get args "scenePath") then
    Some (Responds (ErrorResponse "projectPath and scenePath are required"
                      ["Provide valid paths for both"]))
  else
    escape
      (valid ← both_valid (get args "projectPath") (get args "scenePath");
       if negb valid then Returns (Responds invalid_path)
       else
         projectPath ← as_path (get args "projectPath");
         if negb (existsSync (join projectPath "project.godot") d) then
           Returns (Responds (not_a_project projectPath [containing_project_file]))
         else next projectPath).

(** [handleManageScene(runner, args)] *)
Definition handleManageScene (args : OperationParams) (d : Disk) : option Handled :=
  let args := normalizeParameters args in
  let operation := get args "operation" in
  with_project args d scene_operations
    (fun projectPath =>
       missing ← (if strictly operation "create" then Returns false
                  else
                    scenePath ← as_path (get args "scenePath");
                    Returns (negb (existsSync (join projectPath scenePath) d)));
       if (missing : bool) then
         scenePath ← as_path (get args "scenePath");
         Returns (Responds (ErrorResponse ("Scene file does not exist: " +:+ scenePath)
                              ["Ensure the scene path is correct";
                               "Use manage_scene with operation " +:+ Str.quoted "create"
                               +:+ " to create a new scene first"]))
       else
         try_catch (manage_scene_operation operation projectPath args d)
           (caught "scene" operation)).

(** *** [manage_node] *)

Definition node_operations : string :=
  "delete, update_property, get_properties, attach_script, list, get_tree".

Definition needsNodePath (operation : option JsValue) : bool :=
  strictly operation "delete" || strictly operation "update_property"
  || strictly operation "get_properties" || strictly operation "attach_script".

Definition report_node : string -> string -> list string -> ExecResult -> Response :=
  report_of "node".

(** The [switch (operation)] of [handleManageNode], inside its [try]. *)
Definition manage_node_operation (operation : option JsValue) (projectPath : string)
    (args : OperationParams) (d : Disk) : Completion Handled :=
  if strictly operation "delete" then
    let params :=
      literal [("scenePath", get args "scenePath"); ("nodePath", get args "nodePath")] in
    Returns (Executes "delete_node" params projectPath
               (report_node "delete" "Failed to delete node: "
                  ["Check if the node path is correct"]))
  else if strictly operation "update_property" then
    if falsy (get args "property") || negb (has_field args "value") then
      Returns (Responds (ErrorResponse
                           "property and value are required for update_property"
                           ["Provide both property name and value"]))
    else
      let params :=
        literal [("scenePath", get args "scenePath"); ("nodePath", get args "nodePath");
                 ("property", get args "property"); ("value", get args "value")] in
      Returns (Executes "update_node_property" params projectPath
                 (report_node "update_property" "Failed to update property: "
                    ["Check if the property name is valid for this node type"]))
  else if strictly operation "get_properties" then
    let params :=
      literal [("scenePath", get args "scenePath"); ("nodePath", get args "nodePath")] in
    let params := copy_if_set args "changedOnly" params in
    Returns (Executes "get_node_properties" params projectPath
               (report_node "get_properties" "Failed to get properties: "
                  ["Check if the node path is correct"]))
  else if strictly operation "attach_script" then
    if falsy (get args "scriptPath") then
      Returns (Responds (ErrorResponse "scriptPath is required for attach_script"
                           ["Provide the script path relative to the project"]))
    else
      valid ← validatePath_of (get args "scriptPath");
      if negb valid then
        Returns (Responds (ErrorResponse "Invalid script path" without_dots))
      else
        scriptPath ← as_path (get args "scriptPath");
        if negb (existsSync (join projectPath scriptPath) d) then
          Returns (Responds (ErrorResponse
                               ("Script file does not exist: " +:+ scriptPath)
                               ["Create the script file first"]))
        else
          let params :=
            literal [("scenePath", get args "scenePath");
                     ("nodePath", get args "nodePath");
                     ("scriptPath", get args "scriptPath")] in
          Returns (Executes "attach_script" params projectPath
                     (report_node "attach_script" "Failed to attach script: "
                        ["Ensure the script is valid for this node type"]))
  else if strictly operation "list" then
    valid ← (if falsy (get args "parentPath") then Returns true
             else validatePath_of (get args "parentPath"));
    if negb valid then
      Returns (Responds (ErrorResponse "Invalid parent path" without_dots))
    else
      let params := literal [("scenePath", get args "scenePath")] in
      let params := copy_if_set args "parentPath" params in
      Returns (Executes "list_nodes" params projectPath
                 (report_node "list" "Failed to list nodes: "
                    ["Check if the parent path is correct"]))
  else if strictly operation "get_tree" then
    let params := literal [("scenePath", get args "scenePath")] in
    let params := copy_if_set args "parentPath" params in
    let params :=
      match get args "maxDepth" with
      | Some (JNumber shown) => set params "maxDepth" (JNumber shown)
      | _ => params
      end in
    Returns (Executes "get_scene_tree" params projectPath
               (report_node "get_tree" "Failed to get scene tree: "
                  ["Ensure the scene is valid"]))
  else
    shown ← text_of operation;
    Returns (Responds (ErrorResponse ("Unknown operation: " +:+ shown)
                         ["Use one of: " +:+ node_operations])).

(** [handleManageNode(runner, args)] *)
Definition handleManageNode (args : OperationParams) (d : Disk) : option Handled :=
  let args := normalizeParameters args in
  let operation := get args "operation" in
  with_project args d node_operations
    (fun projectPath =>
       scenePath ← as_path (get args "scenePath");
       if negb (existsSync (join projectPath scenePath) d) then
         Returns (Responds (ErrorResponse ("Scene file does not exist: " +:+ scenePath)
                              ["Ensure the scene path is correct"]))
       else
         required ←
           (if needsNodePath operation then
              if falsy (get args "nodePath") then
                shown ← text_of operation;
                Returns (Some (ErrorResponse ("nodePath is required for " +:+ shown)
                                 ["Provide the node path (e.g. "
                                  +:+ Str.quoted "root/Player" +:+ ")"]))
              else
                valid ← validatePath_of (get args "nodePath");
                if negb valid
                then Returns (Some (ErrorResponse "Invalid node path" without_dots))
                else Returns None
            else Returns None);
         match required with
         | Some refusal => Returns (Responds refusal)
         | None =>
             try_catch (manage_node_operation operation projectPath args d)
               (caught "node" operation)
         end).

(** *** [launch_editor], [list_projects], [get_project_info] *)

Definition project_solutions : list string :=
  [containing_project_file; "Use list_projects to find valid Godot projects"].

(** [handleLaunchEditor(runner, args)]; [godotPath] is what
    [runner.getGodotPath()] gives, and [detected] what it gives after
    [await runner.detectGodotPath()], or what that call throws. *)
Definition handleLaunchEditor (args : OperationParams) (godotPath : option string)
    (detected : Completion (option string)) (d : Disk) : option Handled :=
  let args := normalizeParameters args in
  if falsy (get args "projectPath") then
    Some (Responds (ErrorResponse "Project path is required"
                      ["Provide a valid path to a Godot project directory"]))
  else
    escape
      (valid ← validatePath_of (get args "projectPath");
       if negb valid then
         Returns (Responds (ErrorResponse "Invalid project path" unsafe_characters))
       else
         let failed message :=
           Returns (Responds (ErrorResponse ("Failed to launch Godot editor: " +:+ message)
                                godot_solutions)) in
         let not_empty (path : option string) :=
           match path with
           | Some p => if String.eqb p "" then None else Some p
           | None => None
           end in
         try_catch
           (found ← match not_empty godotPath with
                    | Some path => Returns (Some path)
                    | None => after ← detected; Returns (not_empty after)
                    end;
            match found with
            | None =>
                Returns (Responds (ErrorResponse
                                     "Could not find a valid Godot executable path"
                                     ["Ensure Godot is installed correctly";
                                      "Set GODOT_PATH environment variable"]))
            | Some engine =>
                projectPath ← as_path (get args "projectPath");
                if negb (existsSync (join projectPath "project.godot") d) then
                  Returns (Responds (not_a_project projectPath project_solutions))
                else
                  Returns (Launches engine projectPath
                             (Content ("Godot editor launched successfully for project at "
                                       +:+ projectPath +:+ ".")))
            end)
           failed).

(** [existsSync(v)] for the value that stands in the place of the path: of
    a value that is no string it says [false]. *)
Definition existsSync_of (v : option JsValue) (d : Disk) : bool :=
  match v with
  | Some (JString path) => existsSync path d
  | _ => false
  end.

(** [handleListProjects(args)] *)
Definition handleListProjects (args : OperationParams) (d : Disk) : option Handled :=
  let args := normalizeParameters args in
  if falsy (get args "directory") then
    Some (Responds (ErrorResponse "Directory is required"
                      ["Provide a valid directory path to search for Godot projects"]))
  else
    escape
      (valid ← validatePath_of (get args "directory");
       if negb valid then
         Returns (Responds (ErrorResponse "Invalid directory path" unsafe_characters))
       else
         try_catch
           (if negb (existsSync_of (get args "directory") d) then
              shown ← text_of (get args "directory");
              Returns (Responds (ErrorResponse ("Directory does not exist: " +:+ shown)
                                   ["Provide a valid directory path that exists on the system"]))
            else
              directory ← as_path (get args "directory");
              Returns (Searches directory (match get args "recursive" with
                                           | Some (JBool true) => true
                                           | _ => false
                                           end)))
           (fun message =>
              Returns (Responds (ErrorResponse ("Failed to list projects: " +:+ message)
                                   ["Ensure the directory exists and is accessible";
                                    "Check if you have permission to read the directory"])))).

(** [handleGetProjectInfo(runner, args)]; [version] is what
    [await runner.getVersion()] gives, or what it throws: the handler begins
    with that call. *)
Definition handleGetProjectInfo (args : OperationParams) (version : Completion string)
    (d : Disk) : option Handled :=
  let args := normalizeParameters args in
  escape
    (try_catch
       (version ← version;
        if falsy (get args "projectPath") then
          Returns (Tells (JObject [("godotVersion", JString version)]))
        else
          valid ← validatePath_of (get args "projectPath");
          if negb valid then
            Returns (Responds (ErrorResponse "Invalid project path" unsafe_characters))
          else
            projectPath ← as_path (get args "projectPath");
            if negb (existsSync (join projectPath "project.godot") d) then
              Returns (Responds (not_a_project projectPath project_solutions))
            else Returns (Describes projectPath version))
       (fun message =>
          Returns (Responds (ErrorResponse ("Failed to get project info: " +:+ message)
                               godot_solutions)))).

(** *** [run_project] *)

Definition started : Response :=
  Content "Godot project started in debug mode. Use get_debug_output to see output.".

(** [args.scene as string | undefined], for a value that [runProject], which
    is declared for a string, takes: a string, or a falsy value, which it
    does not look at. *)
Definition as_optional_string (v : option JsValue) : option (option string) :=
  match v with
  | Some (JString s) => Some (Some s)
  | _ => if falsy v then Some None else None
  end.

(** [handleRunProject(runner, args)]; [validatePath] is called before the
    [try] block, [path.join] in it.  [None] is a call in which the handler
    throws, or one whose [scene] is truthy and no string, which is left
    out: what [spawn] makes of such an argument is no part of the model. *)
Definition handleRunProject (args : OperationParams) (s : State)
  : option (State * Response) :=
  let args := normalizeParameters args in
  if falsy (get args "projectPath") then
    Some (s, ErrorResponse "Project path is required"
               ["Provide a valid path to a Godot project directory"])
  else
    match validatePath_of (get args "projectPath") with
    | Throws _ => None
    | Returns false => Some (s, ErrorResponse "Invalid project path" unsafe_characters)
    | Returns true =>
        match as_path (get args "projectPath") with
        | Throws message =>
            Some (s, ErrorResponse ("Failed to run Godot project: " +:+ message)
                       godot_solutions)
        | Returns projectPath =>
            if negb (existsSync (join projectPath "project.godot") (disk s)) then
              Some (s, not_a_project projectPath project_solutions)
            else
              scene ← as_optional_string (get args "scene");
              match runProject projectPath scene s with
              | (s, Returns _) => Some (s, started)
              | (s, Throws errorMessage) =>
                  Some (s, ErrorResponse
                             ("Failed to run Godot project: " +:+ errorMessage)
                             godot_solutions)
              end
        end
    end.

(** The answer of a handler is an error. *)
Definition is_error (r : Response) : bool :=
  match r with
  | ErrorResponse _ _ => true
  | Content _ => false
  end.

(** ** Vocabulary of the properties *)

(** A handler has turned the request down: it has answered by itself, with
    an error, or it has thrown; it has handed nothing to the engine and has
    looked at no project. *)
Definition turned_down (h : option Handled) : bool :=
  match h with
  | None => true
  | Some (Responds r) => is_error r
  | Some _ => false
  end.

(** A course of a handler that ends in a refusal or in an exception. *)
Definition refuses (c : Completion Handled) : Prop := turned_down (escape c) = true.

(** The arguments have the string [path] under the name [key]. *)
Definition carries (args : OperationParams) (key path : string) : Prop :=
  get args key = Some (JString path).

(** The disk of [demo_state] with a scene in its first project. *)
Definition demo_project_disk : Disk :=
  writeFileSync "/games/a/main.tscn" (txt "[gd_scene format=3]") demo_disk.

(** Calls on the projects of [demo_state]. *)
Definition demo_scene_args : OperationParams :=
  [("operation", JString "save"); ("project_path", JString "/games/a");
   ("scene_path", JString "../main.tscn")].

Definition demo_node_args : OperationParams :=
  [("operation", JString "delete"); ("projectPath", JString "/games/a");
   ("scenePath", JString "main.tscn"); ("node_path", JString "root/../..")].

Definition demo_uid_path_args : OperationParams :=
  [("operation", JString "get"); ("projectPath", JString "/games/a");
   ("filePath", JString "../b/project.godot")].

Definition demo_editor_args : OperationParams :=
  [("projectPath", JString "/games/a/..")].

Definition demo_list_args : OperationParams :=
  [("directory", JString "/games/.."); ("recursive", JBool true)].

Definition demo_run_args : OperationParams :=
  [("projectPath", JString "/games/a"); ("scene", JString "../secret.tscn")].

Definition demo_add_node_args : OperationParams :=
  [("operation", JString "add_node"); ("projectPath", JString "/games/a");
   ("scenePath", JString "main.tscn"); ("nodeType", JString "Sprite2D");
   ("nodeName", JString "Hero"); ("parentNodePath", JString "root/../..")].

Definition demo_get_tree_args : OperationParams :=
  [("operation", JString "get_tree"); ("projectPath", JString "/games/a");
   ("scenePath", JString "main.tscn"); ("parentPath", JString "root/../..")].

Definition demo_save_args : OperationParams :=
  [("operation", JString "save"); ("projectPath", JString "/games/a");
   ("scenePath", JString "main.tscn"); ("newPath", JString "")].

Definition demo_info_args : OperationParams :=
  [("projectPath", JString "../a")].

End Tools.

(** * The listener over a session

    The datagrams that the listener has taken, with the peers that sent
    them. *)

Module Session.
Import Bridge.

(** The peer that a suspended call answers when it is done. *)
Definition frame_peer (fr : Frame) : Peer :=
  match fr with
  | InputFrame peer _ _ => peer
  | ScreenshotFrame peer => peer
  end.

(** The listener has taken one datagram from each of [peers], in that
    order; suspended calls have been woken and the game has changed its
    scene tree in between, in any order. *)
Inductive served (E : Engine) (L0 : Listener) : list Peer -> Listener -> Prop :=
| served_start : served E L0 [] L0
| served_datagram peers peer data L L' :
    served E L0 peers L ->
    _process E peer data L = Ok L' ->
    served E L0 (peers ++ [peer]) L'
| served_wake peers i fr L L' :
    served E L0 peers L ->
    awaiting L !! i = Some fr ->
    resume E fr (set_awaiting (delete i (awaiting L)) L) = Ok L' ->
    served E L0 peers L'
| served_game peers tree L :
    served E L0 peers L ->
    served E L0 peers (set_root tree L).

(** The peers that have their reply, and those whose call is suspended. *)
Definition answered (L : Listener) : list Peer := map fst (sent L).
Definition pending (L : Listener) : list Peer := map frame_peer (awaiting L).

(** One more packet, for [peer], and the suspended calls as they were. *)
Definition answers (peer : Peer) (L L' : Listener) : Prop :=
  exists p, sent L' = sent L ++ [(peer, p)] /\ awaiting L' = awaiting L.

(** One more suspended call, of [peer], and no packet. *)
Definition suspends (peer : Peer) (L L' : Listener) : Prop :=
  exists fr, frame_peer fr = peer /\ sent L' = sent L
             /\ awaiting L' = awaiting L ++ [fr].

(** The batch [[key A, mouse_button thumb, mouse_motion]], whose second
    action fails. *)
Definition failing_batch : list Variant := [key_A; bad_button; motion].

(** A click on the button [Start] of [demo_root], by its name. *)
Definition click_start : Dictionary :=
  [("type", VString "click_element"); ("element", VString "Start")].

(** The listener after the command [{command:"input", actions:[key A]}] of
    peer 1. *)
Definition after_key_A : Listener :=
  {| _is_processing_input := false; root := demo_root;
     input_queue := [InputEventKey 65 (VBool true) false (VBool false) (VBool false)
                       (VBool false)];
     sent := [(1, JsonPacket [("success", VBool true); ("actions_processed", VInt 1)])];
     awaiting := [] |}.

End Session.

(** * Sessions of the runner, for examples *)

Module RunnerDemo.
Import Runner.

(** The runner of [demo_state] after it has run the first project ... *)
Definition demo_running : State := fst (runProject "/games/a" None demo_state).

(** ... and after it has stopped it again. *)
Definition demo_stopped : State := fst (stopProject demo_running).

(** ... or run it a second time. *)
Definition demo_rerun : State := fst (runProject "/games/a" (Some "main.tscn") demo_running).

End RunnerDemo.

(** * What comes back from the headless engine, [godot-runner.ts]

    [extractJson], which finds the JSON text in the standard output of a
    headless run, and [isGodot44OrLater], which reads the version that the
    engine prints. *)

Module Output.
Import Runner.

(** [s.trimStart()] and [s.trim()] *)
Fixpoint trimStart (s : Text) : Text :=
  match s with
  | [] => []
  | c :: rest => if is_space c then trimStart rest else s
  end.

Definition trim (s : Text) : Text := trimStart (trimEnd s).

(** [s.indexOf(c)] and [s.lastIndexOf(c)] for one character; [None] is the
    result [-1]. *)
Fixpoint indexOf (c : ascii) (s : Text) : option nat :=
  match s with
  | [] => None
  | x :: rest =>
      if Ascii.eqb x c then Some 0
      else match indexOf c rest with
           | Some i => Some (S i)
           | None => None
           end
  end.

Fixpoint lastIndexOf (c : ascii) (s : Text) : option nat :=
  match s with
  | [] => None
  | x :: rest =>
      match lastIndexOf c rest with
      | Some i => Some (S i)
      | None => if Ascii.eqb x c then Some 0 else None
      end
  end.

(** [Math.max] of two indices of which [None] is [-1]. *)
Definition max_index (a b : option nat) : option nat :=
  match a, b with
  | Some i, Some j => Some (Nat.max i j)
  | Some i, None => Some i
  | None, b => b
  end.

Section Json.

(** Whether [JSON.parse] accepts a text (it throws when it does not). *)
Variable parses : Text -> bool.

Definition extractJson (output : Text) : Text :=
  let jsonStartBrace := indexOf "{" output in
  let jsonStartBracket := indexOf "[" output in
  let found :=
    match jsonStartBrace, jsonStartBracket with
    | None, None => None
    | None, Some k => Some k
    | Some b, None => Some b
    | Some b, Some k => Some (Nat.min b k)
    end in
  match found with
  | None => output
  | Some jsonStart =>
      let jsonPart := skipn jsonStart output in
      if parses (trim jsonPart) then trim jsonPart
      else
        match max_index (lastIndexOf "}" jsonPart) (lastIndexOf "]" jsonPart) with
        | Some (S before_last) =>
            (* lastEnd = S before_last, which is > 0 *)
            let extracted := firstn (S (S before_last)) jsonPart in
            if parses extracted then extracted else output
        | _ => output
        end
  end.

End Json.

(** [\d] *)
Definition is_digit (c : ascii) : bool :=
  let n := Ascii.nat_of_ascii c in (48 <=? n) && (n <=? 57).

(** [\d*] at the start of [s], taken greedily: the digits and the rest. *)
Fixpoint leading_digits (s : Text) : Text * Text :=
  match s with
  | c :: rest =>
      if is_digit c
      then let '(ds, after) := leading_digits rest in (c :: ds, after)
      else ([], s)
  | [] => ([], [])
  end.

(** [version.match(/^(\d+)\.(\d+)/)]: the two groups. *)
Definition version_match (version : Text) : option (Text * Text) :=
  match leading_digits version with
  | ((_ :: _) as major, dot :: rest) =>
      if Ascii.eqb dot "." then
        match leading_digits rest with
        | ((_ :: _) as minor, _) => Some (major, minor)
        | ([], _) => None
        end
      else None
  | _ => None
  end.

(** [parseInt(ds, 10)] for a text of digits.  The number is kept exact; the
    comparisons with 4 below come out the same on the doubles of
    JavaScript, whose rounding of an integer is monotone and leaves the
    small integers as they are. *)
Definition parseInt (ds : Text) : nat :=
  fold_left (fun acc c => 10 * acc + (Ascii.nat_of_ascii c - 48)) ds 0.

Definition isGodot44OrLater (version : Text) : bool :=
  match version_match version with
  | Some (major_text, minor_text) =>
      let major := parseInt major_text in
      let minor := parseInt minor_text in
      (4 <? major) || ((major =? 4) && (4 <=? minor))
  | None => false
  end.

(** The decimal digits of a number, as the engine prints them. *)
Definition decimal (n : nat) : Text := txt (Str.of_nat n).

End Output.

(** * The tool [manage_uids], [scene-tools.ts] *)

Module UidTools.
Import Runner Tools Output.

(** The code after [await runner.executeOperation(...)] in the two branches,
    with the [catch] block of [handleManageUids]. *)
Definition failed_uids (operation errorMessage : string) : Response :=
  ErrorResponse ("Failed to " +:+ operation +:+ " UIDs: " +:+ errorMessage)
    godot_solutions.

Definition report_get_uid (operation filePath : string) (result : ExecResult)
  : Response :=
  match result with
  | Completed stdout stderr =>
      if negb (String.eqb stderr "") && Str.includes "Failed to" stderr
      then ErrorResponse ("Failed to get UID: " +:+ stderr)
             ["Check if the file is a valid Godot resource"]
      else Content ("UID for " +:+ filePath +:+ ": "
                    +:+ string_of_list_ascii (trim (txt stdout)))
  | Failed errorMessage => failed_uids operation errorMessage
  end.

Definition report_update_uids (operation : string) (result : ExecResult) : Response :=
  match result with
  | Completed stdout stderr =>
      if negb (String.eqb stderr "") && Str.includes "Failed to" stderr
      then ErrorResponse ("Failed to update project UIDs: " +:+ stderr)
             ["Check if the project is valid"]
      else Content stdout
  | Failed errorMessage => failed_uids operation errorMessage
  end.

(** [handleManageUids(runner, args)]; [version] is what
    [await runner.getVersion()] gives, the trimmed output of
    [godot --version], or the error it throws.  It is asked for only when
    the checks before it have passed. *)
Definition handleManageUids (args : OperationParams) (version : Completion string)
    (d : Disk) : option Handled :=
  let args := normalizeParameters args in
  let operation := get args "operation" in
  if falsy operation then
    Some (Responds (ErrorResponse "operation is required"
                      ["Provide one of: get, update"]))
  else if falsy (get args "projectPath") then
    Some (Responds (ErrorResponse "projectPath is required"
                      ["Provide a valid path to a Godot project directory"]))
  else
    escape
      (valid ← validatePath_of (get args "projectPath");
       if negb valid then
         Returns (Responds (ErrorResponse "Invalid project path" without_dots))
       else
         projectPath ← as_path (get args "projectPath");
         if negb (existsSync (join projectPath "project.godot") d) then
           Returns (Responds (not_a_project projectPath [containing_project_file]))
         else
           try_catch
             (version ← version;
              if negb (isGodot44OrLater (txt version)) then
                Returns (Responds
                           (ErrorResponse
                              ("UIDs are only supported in Godot 4.4 or later. Current version: "
                               +:+ version)
                              ["Upgrade to Godot 4.4 or later to use UIDs"]))
              else if strictly operation "get" then
                if falsy (get args "filePath") then
                  Returns (Responds (ErrorResponse "filePath is required for get operation"
                                       ["Provide the file path relative to the project"]))
                else
                  valid ← validatePath_of (get args "filePath");
                  if negb valid then
                    Returns (Responds (ErrorResponse "Invalid file path" without_dots))
                  else
                    filePath ← as_path (get args "filePath");
                    if negb (existsSync (join projectPath filePath) d) then
                      Returns (Responds (ErrorResponse
                                           ("File does not exist: " +:+ filePath)
                                           ["Ensure the file path is correct"]))
                    else
                      Returns (Executes "get_uid"
                                 (literal [("filePath", get args "filePath")])
                                 projectPath (report_get_uid "get" filePath))
              else if strictly operation "update" then
                Returns (Executes "resave_resources"
                           (literal [("projectPath", get args "projectPath")])
                           projectPath (report_update_uids "update"))
              else
                shown ← text_of operation;
                Returns (Responds (ErrorResponse ("Unknown operation: " +:+ shown)
                                     ["Use one of: get, update"])))
             (caught "UIDs" operation)).

(** A call of [manage_uids] for the project file of the first project of
    [demo_disk]. *)
Definition demo_uid_args : OperationParams :=
  [("operation", JString "get"); ("project_path", JString "/games/a");
   ("file_path", JString "project.godot")].

End UidTools.

(** * The result of a script, [_serialize_value] of [mcp_bridge.gd] *)

Module Serialize.
Import Bridge.

(** The values that [execute] can return, by what [typeof] says of them.
    An object is a node, a resource or something else; [GOther] stands for
    the values of every other type (a [Rect2], a [StringName], a packed
    array, ...), of which the listener only takes the text. *)
Inductive GdValue : Type :=
| GNil
| GBool (b : bool)
| GInt (z : Z)
| GFloat (q : Q)
| GString (s : string)
| GVector2 (x y : Q)
| GVector2i (x y : Z)
| GVector3 (x y z : Q)
| GVector3i (x y z : Z)
| GColor (r g b a : Q)
| GDictionary (entries : list (GdValue * GdValue))
| GArray (items : list GdValue)
| GNode (class name path : string)
| GResource (class resource_path : string)
| GObject (id : nat)
| GOther (id : nat).

(** [result[key] = value] on a dictionary of the listener: the value of a
    key that is there is replaced where it stands, a new key goes to the
    end. *)
Fixpoint dict_set (d : Dictionary) (key : string) (value : Variant) : Dictionary :=
  match d with
  | [] => [(key, value)]
  | (k, v) :: rest =>
      if String.eqb k key then (k, value) :: rest else (k, v) :: dict_set rest key value
  end.

Section Serializer.

(** [str(value)] of the engine, for a value that is not a String. *)
Variable str : GdValue -> string.

(** [str(key)] *)
Definition str_of (value : GdValue) : string :=
  match value with
  | GString s => s
  | _ => str value
  end.

Fixpoint _serialize_value (value : GdValue) : Variant :=
  match value with
  | GNil => VNil
  | GBool b => VBool b
  | GInt z => VInt z
  | GFloat q => VFloat q
  | GString s => VString s
  | GVector2 x y => VDict [("x", VFloat x); ("y", VFloat y)]
  | GVector2i x y => VDict [("x", VInt x); ("y", VInt y)]
  | GVector3 x y z => VDict [("x", VFloat x); ("y", VFloat y); ("z", VFloat z)]
  | GVector3i x y z => VDict [("x", VInt x); ("y", VInt y); ("z", VInt z)]
  | GColor r g b a =>
      VDict [("r", VFloat r); ("g", VFloat g); ("b", VFloat b); ("a", VFloat a)]
  | GDictionary entries =>
      VDict (fold_left
               (fun result entry =>
                  dict_set result (str_of (fst entry)) (_serialize_value (snd entry)))
               entries [])
  | GArray items => VArray (map _serialize_value items)
  | GNode class name path =>
      VDict [("class", VString class); ("name", VString name); ("path", VString path)]
  | GResource class resource_path =>
      VDict [("class", VString class); ("path", VString resource_path)]
  | GObject _ => VString (str value)
  | GOther _ => VString (str value)
  end.

End Serializer.

(** A value of JSON as a value of the script: a dictionary has its keys as
    Strings. *)
Fixpoint of_json (v : Variant) : GdValue :=
  match v with
  | VNil => GNil
  | VBool b => GBool b
  | VInt z => GInt z
  | VFloat q => GFloat q
  | VString s => GString s
  | VArray items => GArray (map of_json items)
  | VDict entries =>
      GDictionary (map (fun entry => (GString (fst entry), of_json (snd entry))) entries)
  end.

(** No dictionary of the value, at any depth, has a key twice. *)
Inductive keys_distinct : Variant -> Prop :=
| distinct_nil : keys_distinct VNil
| distinct_bool b : keys_distinct (VBool b)
| distinct_int z : keys_distinct (VInt z)
| distinct_float q : keys_distinct (VFloat q)
| distinct_string s : keys_distinct (VString s)
| distinct_array items :
    Forall keys_distinct items -> keys_distinct (VArray items)
| distinct_dict entries :
    List.NoDup (map fst entries) ->
    Forall (fun entry => keys_distinct (snd entry)) entries ->
    keys_distinct (VDict entries).

(** Induction on a value of JSON, the items of an array and the values of a
    dictionary being covered by the induction hypothesis. *)
Fixpoint Variant_forall_ind (P : Variant -> Prop)
    (Hnil : P VNil) (Hbool : forall b, P (VBool b)) (Hint : forall z, P (VInt z))
    (Hfloat : forall q, P (VFloat q)) (Hstring : forall s, P (VString s))
    (Harray : forall items, Forall P items -> P (VArray items))
    (Hdict : forall entries, Forall (fun entry => P (snd entry)) entries ->
                             P (VDict entries))
    (v : Variant) : P v :=
  match v with
  | VNil => Hnil
  | VBool b => Hbool b
  | VInt z => Hint z
  | VFloat q => Hfloat q
  | VString s => Hstring s
  | VArray items =>
      Harray items
        ((fix all (l : list Variant) : Forall P l :=
            match l with
            | [] => @List.Forall_nil Variant P
            | x :: l' =>
                @List.Forall_cons Variant P x l'
                  (Variant_forall_ind P Hnil Hbool Hint Hfloat Hstring Harray Hdict x)
                  (all l')
            end) items)
  | VDict entries =>
      Hdict entries
        ((fix all (l : list (string * Variant))
            : Forall (fun entry => P (snd entry)) l :=
            match l with
            | [] => @List.Forall_nil _ (fun entry => P (snd entry))
            | e :: l' =>
                @List.Forall_cons _ (fun entry => P (snd entry)) e l'
                  (Variant_forall_ind P Hnil Hbool Hint Hfloat Hstring Harray Hdict
                     (snd e))
                  (all l')
            end) entries)
  end.

(** The result [{"score": 3, "tags": ["a", null]}] of a script. *)
Definition demo_result : Variant :=
  VDict [("score", VInt 3); ("tags", VArray [VString "a"; VNil])].

End Serialize.

(** * The tool [get_debug_output], [project-tools.ts] *)

Module DebugTool.
Import Bridge Runner Tools.

(** [ToIntegerOrInfinity] of a number: the fraction is cut off. *)
Definition truncate (q : Q) : Z :=
  if Qle_bool 0 q then Qfloor q else Qceiling q.

(** [array.slice(start)] *)
Definition slice {A : Type} (l : list A) (start : Q) : list A :=
  let relativeStart := truncate start in
  if (relativeStart <? 0)%Z
  then skipn (length l - Z.to_nat (- relativeStart)) l
  else skipn (Z.to_nat relativeStart) l.

Section Handler.

Variable JSON_stringify : Variant -> string.

Definition strings (l : list string) : Variant := VArray (map VString l).

(** [handleGetDebugOutput(runner, args)]: [activeProcess] is the runner's,
    [limit] is [args.limit] when that is a number. *)
Definition handleGetDebugOutput (activeProcess : option GodotProcess)
    (limit : option Q) : Response :=
  match activeProcess with
  | None =>
      ErrorResponse "No active Godot process."
        ["Use run_project to start a Godot project first";
         "Check if the Godot process crashed unexpectedly"]
  | Some proc =>
      let limit := match limit with Some n => n | None => 200%Q end in
      let response :=
        [("output", strings (slice (output proc) (- limit)%Q));
         ("errors", strings (slice (errors proc) (- limit)%Q));
         ("running", VBool (negb (hasExited proc)))]
        ++ (if hasExited proc
            then [("exitCode", match exitCode proc with
                               | Some code => VInt code
                               | None => VNil
                               end)]
            else []) in
      Content (JSON_stringify (VDict response))
  end.

End Handler.

(** The last [n] items of a list, or all of them when there are fewer. *)
Definition last_items {A : Type} (n : nat) (l : list A) : list A :=
  skipn (length l - n) l.

(** A process that has printed four lines. *)
Definition demo_chatty : GodotProcess :=
  {| pid := 0; output := ["one"; "two"; "three"; "four"]; errors := ["oops"];
     exitCode := None; hasExited := false |}.

End DebugTool.

(** * The headless operations, [godot_operations.gd] *)

Module Operations.
Import Bridge.

(** [normalize_scene_path] *)
Definition normalize_scene_path (scene_path : string) : string :=
  if negb (Str.begins_with scene_path "res://")
  then "res://" +:+ scene_path
  else scene_path.

Section Scene.

(** The resource path of the script of a node, and the empty text for a node
    without a script or with a script that has no path. *)
Variable script_path_of : Node -> string.

(** [build_tree_recursive(node, path, depth, max_depth)] *)
Fixpoint build_tree_recursive (node : Node) (path : string) (depth max_depth : Z)
    {struct node} : Dictionary :=
  match node with
  | mkNode nm _ _ _ _ _ _ _ kids =>
      let node_path := if negb (String.eqb path "") then path +:+ "/" +:+ nm else nm in
      let children :=
        if (max_depth <? 0)%Z || (depth <? max_depth)%Z
        then (fix each (l : list Node) : list Variant :=
                match l with
                | [] => []
                | child :: l' =>
                    VDict (build_tree_recursive child node_path (depth + 1) max_depth)
                    :: each l'
                end) kids
        else [] in
      [("name", VString nm); ("type", VString (get_class node));
       ("path", VString node_path); ("script", VString (script_path_of node));
       ("children", VArray children)]
  end.

End Scene.

(** The entries of a tree as [build_tree_recursive] makes it: the
    dictionary itself and the entries below its [children]. *)
Fixpoint tree_entries (v : Variant) : nat :=
  match v with
  | VDict [_; _; _; _; (_, VArray children)] =>
      S ((fix total (l : list Variant) : nat :=
            match l with
            | [] => 0
            | child :: l' => tree_entries child + total l'
            end) children)
  | _ => 0
  end.

(** The nodes of a scene that are at most [levels] steps below its root. *)
Fixpoint nodes_within (levels : nat) (n : Node) : nat :=
  match n with
  | mkNode _ _ _ _ _ _ _ _ kids =>
      match levels with
      | O => 1
      | S below =>
          S ((fix total (l : list Node) : nat :=
                match l with
                | [] => 0
                | k :: l' => nodes_within below k + total l'
                end) kids)
      end
  end.

End Operations.

(** * The names of the parameters, [godot-runner.ts]

    [normalizeParameters] brings the arguments of a tool to camel case;
    [convertCamelToSnakeCase] brings the parameters of a headless operation
    to snake case, in which [godot_operations.gd] reads them. *)

Module Keys.
Import Runner.

(** [reverseParameterMappings], which the loop over [parameterMappings]
    fills: the camel case names are all different. *)
Definition reverseParameterMappings : list (string * string) :=
  map (fun '(snakeCase, camelCase) => (camelCase, snakeCase)) parameterMappings.

(** [/[A-Z]/] and [letter.toLowerCase()] *)
Definition is_upper (c : ascii) : bool :=
  let n := Ascii.nat_of_ascii c in (65 <=? n) && (n <=? 90).

Definition toLowerCase (c : ascii) : ascii :=
  Ascii.ascii_of_nat (Ascii.nat_of_ascii c + 32).

(** [key.replace(/[A-Z]/g, letter => `_${letter.toLowerCase()}`)] *)
Fixpoint underscored (key : string) : string :=
  match key with
  | EmptyString => EmptyString
  | String c rest =>
      if is_upper c then String "_" (String (toLowerCase c) (underscored rest))
      else String c (underscored rest)
  end.

(** [reverseParameterMappings[key] || key.replace(...)] *)
Definition snakeKey (key : string) : string :=
  match table_lookup reverseParameterMappings key with
  | Some name => name
  | None => underscored key
  end.

(** [result[key] = value] for a key that the code has computed.  The key
    [__proto__] is the accessor of [Object.prototype]: the assignment
    makes no field, and of what it does to the object nothing is seen in
    the fields of the object, which are what [JSON.stringify] reads. *)
Definition assign (obj : OperationParams) (key : string) (value : JsValue)
  : OperationParams :=
  if String.eqb key "__proto__" then obj else set obj key value.

(** [convertCamelToSnakeCase], for a value and for an object: an object
    among the values is converted in the same way, an array is left as it
    is. *)
Fixpoint convert_value (value : JsValue) : JsValue :=
  match value with
  | JObject fields =>
      JObject (fold_left
                 (fun result field =>
                    assign result (snakeKey (fst field)) (convert_value (snd field)))
                 fields [])
  | _ => value
  end.

Definition convertCamelToSnakeCase (params : OperationParams) : OperationParams :=
  fold_left
    (fun result field =>
       assign result (snakeKey (fst field)) (convert_value (snd field)))
    params [].

(** ** Vocabulary of the properties *)

(** The value of the last field whose key is [wanted]. *)
Definition last_value (wanted : string -> bool) (params : OperationParams)
  : option JsValue :=
  fold_left (fun found field => if wanted (fst field) then Some (snd field) else found)
    params None.

(** A key in snake case: no letter of it is a capital. *)
Definition lower_case (key : string) : bool :=
  forallb (fun c => negb (is_upper c)) (list_ascii_of_string key).

(** A key in snake case that is not the name of a member of
    [Object.prototype]. *)
Definition snake_key (key : string) : bool :=
  lower_case key
  && match Object_prototype key with
     | Some _ => false
     | None => true
     end.

(** The keys of an object that [JSON.parse] has made: they are all
    different, and they are in the order in which [for (key in object)]
    meets them, no key going before an earlier one. *)
Fixpoint key_order (keys : list string) : bool :=
  match keys with
  | [] => true
  | key :: rest =>
      forallb (fun later => negb (String.eqb key later) && negb (goes_before later key))
        rest
      && key_order rest
  end.

(** A value in which the objects, at every depth outside the arrays, have
    their keys in that order and in snake case. *)
Fixpoint snake_value (value : JsValue) : bool :=
  match value with
  | JObject fields =>
      key_order (map fst fields)
      && forallb (fun field => snake_key (fst field) && snake_value (snd field)) fields
  | _ => true
  end.

(** The arguments of a call in snake case. *)
Definition demo_snake_args : OperationParams :=
  [("operation", JString "add_node"); ("project_path", JString "/games/a");
   ("scene_path", JString "main.tscn"); ("node_type", JString "Sprite2D");
   ("node_name", JString "Hero");
   ("properties", JObject [("position", JArray [JNumber "10"; JNumber "20"])])].

(** An argument that is given in both spellings. *)
Definition demo_two_spellings : OperationParams :=
  [("scene_path", JString "first.tscn"); ("operation", JString "save");
   ("scenePath", JString "second.tscn")].

End Keys.

(** * The tool [get_ui_elements], [project-tools.ts], and what it sends *)

Module UiTool.
Import Bridge Runner Tools Serialize.

(** The values of JavaScript that the tool handles are the JSON values, the
    same that the listener gets after [JSON.parse].

    Truthiness in JavaScript: an array and an object are always truthy. *)
Definition js_truthy (v : Variant) : bool :=
  match v with
  | VNil => false
  | VBool b => b
  | VInt z => negb (z =? 0)%Z
  | VFloat q => negb (Qeq_bool q 0)
  | VString s => negb (String.eqb s "")
  | VArray _ | VDict _ => true
  end.

(** [v.key] for a key that no prototype has: [None] is [undefined]. *)
Definition property (v : Variant) (key : string) : option Variant :=
  match v with
  | VDict d => if dict_has d key then Some (dict_get d key VNil) else None
  | _ => None
  end.

(** What a handler of a runtime tool does: it answers by itself, or it calls
    [runner.sendCommand(command, params, timeoutMs)] and answers from the
    way that call settles. *)
Inductive Handling : Type :=
| Answers (r : Response)
| Sends (command : string) (params : Dictionary) (timeoutMs : Q)
    (after : Settlement -> Response).

Definition bridge_solutions : list string :=
  ["Ensure the project is running (use run_project first)";
   "Wait 2-3 seconds after starting for the bridge to initialize";
   "Check that UDP port 9900 is not blocked"].

(** A process that is running. *)
Definition demo_process : GodotProcess :=
  {| pid := 0; output := []; errors := []; exitCode := None; hasExited := false |}.

(** The object [{ command, ...params }] that [sendCommand] turns into the
    datagram: the fields of [params] are set after [command]. *)
Definition sendCommand_payload (command : string) (params : Dictionary) : Dictionary :=
  fold_left (fun payload '(key, value) => dict_set payload key value) params
    [("command", VString command)].

Section Handler.

(** [JSON.parse] ([None] when it throws), [JSON.stringify], the text of a
    value in a template string, and the message of the [TypeError] that
    reading a property of [null] throws. *)
Variable JSON_parse : string -> option Variant.
Variable JSON_stringify : Variant -> string.
Variable to_text : Variant -> string.
Variable null_property_message : string.

(** The code of [handleGetUiElements] after [await runner.sendCommand(...)],
    with its [catch] block. *)
Definition ui_answer (settlement : Settlement) : Response :=
  match settlement with
  | Rejected errorMessage =>
      ErrorResponse ("Failed to get UI elements: " +:+ errorMessage) bridge_solutions
  | Resolved responseStr =>
      match JSON_parse responseStr with
      | None =>
          ErrorResponse ("Invalid response from bridge: " +:+ responseStr)
            ["The game may not have fully initialized yet";
             "Try again after a few seconds"]
      | Some VNil =>
          ErrorResponse ("Failed to get UI elements: " +:+ null_property_message)
            bridge_solutions
      | Some parsed =>
          match property parsed "error" with
          | Some error =>
              if js_truthy error
              then ErrorResponse ("UI element query error: " +:+ to_text error)
                     ["Ensure the game has a UI with Control nodes"]
              else Content (JSON_stringify parsed)
          | None => Content (JSON_stringify parsed)
          end
      end
  end.

(** [handleGetUiElements(runner, args)]: [visibleOnly] and [filter] are
    [args.visibleOnly] and [args.filter], [None] where the arguments have no
    such field. *)
Definition handleGetUiElements (activeProcess : option GodotProcess)
    (visibleOnly filter : option Variant) : Handling :=
  let no_process :=
    Answers (ErrorResponse
               "No active Godot process. A project must be running to query UI elements."
               ["Use run_project to start a Godot project first";
                "Wait a few seconds after starting for the game to initialize"]) in
  match activeProcess with
  | None => no_process
  | Some proc =>
      if hasExited proc then no_process
      else
        let visibleOnly :=
          match visibleOnly with
          | Some (VBool false) => false
          | _ => true
          end in
        let cmdParams := [("visible_only", VBool visibleOnly)] in
        let cmdParams :=
          match filter with
          | Some value =>
              if js_truthy value then dict_set cmdParams "type_filter" value
              else cmdParams
          | None => cmdParams
          end in
        Sends "get_ui_elements" cmdParams 10000%Q ui_answer
  end.

End Handler.

End UiTool.

(** * Properties of the embedded listener *)

Module BridgeProps.
Import Bridge.

Section Props.

Variable E : Engine.

Lemma bind_Ok {A B : Type} (m : Outcome A) (k : A -> Outcome B) (b : B) :
  m ≫= k = Ok b -> exists a, m = Ok a /\ k a = Ok b.
Proof.
  destruct m as [a|]; simpl; [eauto | discriminate].
Qed.

Lemma string_app_assoc (a b c : string) : (a +:+ b) +:+ c = a +:+ b +:+ c.
Proof.
  induction a as [|x a IH]; [reflexivity |].
  change (String x ((a +:+ b) +:+ c) = String x (a +:+ b +:+ c)). now f_equal.
Qed.

Lemma action_prefix_wait processed :
  action_prefix processed "wait" +:+ "ms must be a number"
  = "Action " +:+ Str.of_nat processed +:+ " (wait): ms must be a number".
Proof.
  unfold action_prefix. now rewrite !string_app_assoc.
Qed.

Lemma action_prefix_nonempty processed kind rest :
  String.eqb (action_prefix processed kind +:+ rest) "" = false.
Proof. reflexivity. Qed.

Lemma from_result_break processed kind r msg evs :
  from_result processed kind r = Ok (Break msg, evs) -> String.eqb msg "" = false.
Proof.
  unfold from_result. intros H.
  apply bind_Ok in H as [[result evs'] [_ H]].
  destruct (String.eqb result ""); inversion H; subst.
  apply action_prefix_nonempty.
Qed.

(** A [break] always carries a message, so the reply after it is an error
    reply. *)
Lemma break_message_nonempty tree action processed msg evs :
  input_action E tree action processed = Ok (Break msg, evs) ->
  String.eqb msg "" = false.
Proof.
  unfold input_action. intros H.
  destruct action as [| | | | |items|d]; try (inversion H; subst; reflexivity).
  destruct (dict_get d "type" (VString "")) as [| | | |type| |];
    try (inversion H; subst; reflexivity).
  repeat match type of H with
         | (if ?c then _ else _) = _ => destruct c
         end;
    try (eapply from_result_break; eassumption);
    try (inversion H; subst; reflexivity).
  unfold wait_action in H.
  destruct (is_number (dict_get d "ms" (VInt 0)));
    [destruct (negb (Qle_bool (number_value (dict_get d "ms" (VInt 0))) 0)) |];
    inversion H; reflexivity.
Qed.

Lemma all_succeed_app n pre post :
  all_succeed E n pre -> all_succeed E (n + length pre) post ->
  all_succeed E n (pre ++ post).
Proof.
  intros Hpre. induction Hpre as [n | n a rest Ha Hrest IH]; simpl; intros Hpost.
  - now rewrite Nat.add_0_r in Hpost.
  - constructor; [assumption |]. apply IH.
    now rewrite Nat.add_succ_r in Hpost.
Qed.

Lemma all_succeed_snoc n pre a :
  all_succeed E n pre -> succeeds E a (n + length pre) ->
  all_succeed E n (pre ++ [a]).
Proof.
  intros Hpre Ha. apply all_succeed_app; [assumption |].
  constructor; [assumption | constructor].
Qed.

(** How a stretch of the loop is left by [break] or at the end of the
    array. *)
Lemma input_loop_left tree actions n msg n' evs :
  input_loop E tree actions n = Ok (LoopLeft msg n', evs) ->
  (msg = "" /\ n' = n + length actions /\ all_succeed E n actions)
  \/ (exists pre a post evs',
        actions = pre ++ a :: post /\ n' = n + length pre /\
        all_succeed E n pre /\
        input_action E tree a n' = Ok (Break msg, evs')).
Proof.
  revert n evs. induction actions as [|a rest IH]; intros n evs H; simpl in H.
  - inversion H; subst. left. repeat split; [simpl; lia | constructor].
  - apply bind_Ok in H as [[adv evs1] [Ha H]].
    destruct adv as [|error_msg|secs].
    + apply bind_Ok in H as [[exit evs2] [Hrest H]]. inversion H; subst.
      assert (Hsucc : succeeds E a n).
      { exists tree, Next, evs1. split; [assumption | discriminate]. }
      destruct (IH _ _ Hrest) as [(-> & -> & Hall) | (pre & b & post & evs' & -> & -> & Hall & Hb)].
      * left. repeat split; [simpl; lia | now constructor].
      * right. exists (a :: pre), b, post, evs'.
        repeat split; [simpl; lia | now constructor |].
        now replace (n + length (a :: pre)) with (S n + length pre) by (simpl; lia).
    + inversion H; subst. right. exists [], a, rest, evs.
      repeat split; [simpl; lia | constructor | assumption].
    + discriminate.
Qed.

(** How a stretch of the loop reaches the timer of a [wait]. *)
Lemma input_loop_await tree actions n remaining n' evs :
  input_loop E tree actions n = Ok (LoopAwait remaining n', evs) ->
  exists pre a secs evs',
    actions = pre ++ a :: remaining /\ n' = n + length pre /\
    all_succeed E n pre /\
    input_action E tree a n' = Ok (AwaitTimer secs, evs').
Proof.
  revert n evs. induction actions as [|a rest IH]; intros n evs H; simpl in H.
  - discriminate.
  - apply bind_Ok in H as [[adv evs1] [Ha H]].
    destruct adv as [|error_msg|secs].
    + apply bind_Ok in H as [[exit evs2] [Hrest H]]. inversion H; subst.
      destruct (IH _ _ Hrest) as (pre & b & secs & evs' & -> & -> & Hall & Hb).
      exists (a :: pre), b, secs, evs'.
      repeat split; [simpl; lia | | ].
      * constructor; [| assumption].
        exists tree, Next, evs1. split; [assumption | discriminate].
      * now replace (n + length (a :: pre)) with (S n + length pre) by (simpl; lia).
    + discriminate.
    + inversion H; subst. exists [], a, secs, evs.
      repeat split; [simpl; lia | constructor | assumption].
Qed.

(** What a stretch does to the listener: the events reach the input queue;
    then the flag is cleared and the reply sent, or the call is suspended. *)
Lemma input_stretch_spec peer actions n L L' :
  input_stretch E peer actions n L = Ok L' ->
  (exists msg n' evs,
      input_loop E (root L) actions n = Ok (LoopLeft msg n', evs) /\
      L' = _send_response peer (input_reply msg n')
             (set_processing false (parse_input_events evs L)))
  \/ (exists remaining n' evs,
        input_loop E (root L) actions n = Ok (LoopAwait remaining n', evs) /\
        L' = suspend (InputFrame peer remaining n') (parse_input_events evs L)).
Proof.
  unfold input_stretch. intros H.
  apply bind_Ok in H as [[exit evs] [Hloop H]].
  destruct exit as [msg n'|remaining n']; inversion H; subst; [left | right]; eauto.
Qed.

Lemma parse_input_events_nil (L : Listener) : parse_input_events [] L = L.
Proof.
  destruct L. unfold parse_input_events. cbn. now rewrite app_nil_r.
Qed.

Lemma suspended_call_none (L L' : Listener) :
  awaiting L' = awaiting L -> suspended_call L L' = None.
Proof.
  intros H. unfold suspended_call. rewrite H.
  now rewrite Nat.ltb_irrefl.
Qed.

Lemma suspended_call_last (L L' : Listener) (fr : Frame) :
  awaiting L' = awaiting L ++ [fr] -> suspended_call L L' = Some fr.
Proof.
  intros H. unfold suspended_call. rewrite H, length_app. simpl.
  replace (length (awaiting L) <? length (awaiting L) + 1) with true
    by (symmetry; apply Nat.ltb_lt; lia).
  rewrite nth_error_app2 by lia. now rewrite Nat.sub_diag.
Qed.

(** A stretch that starts behind the actions [pre], all run without
    failing, and the stretches that follow it: with a timer ended for every
    action that is left, the batch is answered, and with the count of the
    claim. *)
Lemma input_run_counts peer batch :
  forall wakes pre acts started L after before final,
    batch = pre ++ acts ->
    all_succeed E 0 pre ->
    length acts <= length wakes ->
    awaiting L = awaiting started -> sent L = sent started ->
    root L = root started ->
    input_stretch E peer acts (length pre) started = Ok after ->
    input_run E wakes L after = Ok (before, final) ->
    counted_reply E peer batch before final.
Proof.
  induction wakes as [|woken later IH];
    intros pre acts started L after before final Hbatch Hpre Hlen Haw Hsent Hroot
      Hstretch Hrun.
  - destruct acts; [| simpl in Hlen; lia].
    cbn in Hstretch. injection Hstretch as <-.
    cbn [input_run] in Hrun. rewrite suspended_call_none in Hrun by (now symmetry).
    injection Hrun as <- <-.
    exists (input_reply "" (length pre)). rewrite app_nil_r in Hbatch. subst batch.
    repeat split; [cbn; now rewrite Hsent | now symmetry | left; now split].
  - apply input_stretch_spec in Hstretch
      as [(msg & n' & evs & Hloop & ->) | (remaining & n' & evs & Hloop & ->)].
    + cbn [input_run] in Hrun.
      rewrite suspended_call_none in Hrun by (now symmetry).
      injection Hrun as <- <-.
      exists (input_reply msg n').
      split; [cbn; now rewrite Hsent |]. split; [reflexivity |].
      split; [now symmetry |].
      apply input_loop_left in Hloop
        as [(-> & -> & Hall) | (pre' & a & post & evs' & -> & -> & Hall & Ha)].
      * left. subst batch. split.
        -- cbn. now rewrite length_app.
        -- apply all_succeed_app; assumption.
      * right. exists (pre ++ pre'), a, post, msg, evs'. subst batch.
        rewrite length_app. repeat split.
        -- now rewrite <- app_assoc.
        -- apply all_succeed_app; assumption.
        -- now rewrite Hroot.
        -- unfold input_reply.
           now rewrite (break_message_nonempty _ _ _ _ _ Ha).
    + cbn [input_run] in Hrun.
      rewrite (suspended_call_last _ _ (InputFrame peer remaining n')) in Hrun
        by (cbn; now rewrite Haw).
      apply bind_Ok in Hrun as [after' [Hwake Hrun]].
      apply input_loop_await in Hloop
        as (pre' & w & secs & evs' & -> & -> & Hall & Hw).
      cbn [resume] in Hwake. unfold resume_input in Hwake.
      assert (Hcount : S (length pre + length pre') = length (pre ++ pre' ++ [w])).
      { rewrite !length_app. simpl. lia. }
      rewrite Hcount in Hwake.
      eapply (IH (pre ++ pre' ++ [w]) remaining woken woken after' before final);
        try reflexivity; try eassumption.
      * subst batch. now rewrite <- !app_assoc.
      * apply all_succeed_app; [assumption |].
        apply all_succeed_snoc; [assumption |].
        exists (root started), (AwaitTimer secs), evs'.
        split; [assumption | discriminate].
      * rewrite length_app in Hlen. simpl in Hlen. lia.
Qed.

(** C1. A batch is followed from the call of [_handle_input] through all
    its stretches, a timer having ended for each of its waits.  Then the
    last stretch has sent one reply to the peer of the batch and has cleared
    the flag.  When the batch succeeds, [actions_processed] is the length of
    the batch and every action ran without failing; when it fails,
    [actions_processed] is the number of actions before the failing one, all
    of which ran without failing, and the error is the one of the failing
    action.  (A call that stops in a script error sends no reply.) *)
Theorem C1_actions_processed_counts (peer : Peer) (batch : list Variant)
    (L : Listener) (wakes : list Listener) (before final : Listener) :
  length batch <= length wakes ->
  input_batch E peer batch L wakes = Ok (before, final) ->
  exists reply,
    sent final = sent before ++ [(peer, JsonPacket reply)]
    /\ _is_processing_input final = false
    /\ awaiting final = awaiting before
    /\ ((reply = [("success", VBool true);
                  ("actions_processed", VInt (Z.of_nat (length batch)))]
         /\ all_succeed E 0 batch)
        \/ (exists pre failing post error_msg evs,
              batch = pre ++ failing :: post /\
              all_succeed E 0 pre /\
              input_action E (root before) failing (length pre)
              = Ok (Break error_msg, evs) /\
              reply = [("error", VString error_msg);
                       ("actions_processed", VInt (Z.of_nat (length pre)))])).
Proof.
  intros Hlen Hrun. unfold input_batch in Hrun.
  apply bind_Ok in Hrun as [after [Hstart Hrun]].
  unfold _handle_input in Hstart.
  exact (input_run_counts peer batch wakes [] batch (set_processing true L) L
           after before final eq_refl (all_succeed_nil E 0) Hlen eq_refl eq_refl
           eq_refl Hstart Hrun).
Qed.

(** C7, as the code has it. The batch
    [[{type:"wait", ms:100}, {type:"key", key:"BOGUS_KEY"}]], when the engine
    knows no key of that name: the call is suspended in the [wait] and has
    sent nothing; when the timer has ended, the reply is the error of the
    second action, which mentions BOGUS_KEY, with [actions_processed] equal
    to 1: the [wait] before it has run and is counted. *)
Theorem C7_bogus_key_processed_one (peer : Peer) (L woken : Listener)
    (later : list Listener) :
  find_keycode_from_string E "BOGUS_KEY" = KEY_NONE ->
  input_batch E peer bogus_batch L []
  = Ok (L, suspend (InputFrame peer [bogus_key] 0) (set_processing true L))
  /\ input_batch E peer bogus_batch L (woken :: later)
     = Ok (woken,
           _send_response peer
             [("error", VString bogus_error); ("actions_processed", VInt 1)]
             (set_processing false woken))
  /\ Str.includes "BOGUS_KEY" bogus_error = true.
Proof.
  intros Hkey.
  assert (Hwait : forall tree,
             input_loop E tree bogus_batch 0 = Ok (LoopAwait [bogus_key] 0, [])).
  { reflexivity. }
  assert (Hbogus : forall tree,
             input_loop E tree [bogus_key] 1 = Ok (LoopLeft bogus_error 1, [])).
  { intros tree. cbn. rewrite Hkey. reflexivity. }
  assert (Hstart : _handle_input E peer bogus_batch L
                   = Ok (suspend (InputFrame peer [bogus_key] 0)
                           (set_processing true L))).
  { unfold _handle_input, input_stretch. rewrite Hwait.
    cbn [mbind Outcome_bind]. now rewrite parse_input_events_nil. }
  assert (Hsusp : suspended_call L
                    (suspend (InputFrame peer [bogus_key] 0) (set_processing true L))
                  = Some (InputFrame peer [bogus_key] 0)).
  { now apply suspended_call_last. }
  assert (Hwake : resume E (InputFrame peer [bogus_key] 0) woken
                  = Ok (_send_response peer
                          [("error", VString bogus_error);
                           ("actions_processed", VInt 1)]
                          (set_processing false woken))).
  { unfold resume, resume_input, input_stretch. rewrite Hbogus.
    cbn [mbind Outcome_bind]. now rewrite parse_input_events_nil. }
  split; [| split].
  - unfold input_batch. rewrite Hstart. cbn [mbind Outcome_bind input_run].
    now rewrite Hsusp.
  - unfold input_batch. rewrite Hstart. cbn [mbind Outcome_bind input_run].
    rewrite Hsusp, Hwake. cbn [mbind Outcome_bind].
    destruct later; cbn [input_run]; now rewrite suspended_call_none.
  - reflexivity.
Qed.

(** C8, as the code has it. The [ms] of a [wait] must be a number: a [wait]
    whose [ms] is not a number fails and the batch stops at it, the actions
    after it not run; a [wait] whose [ms] is a number succeeds, whatever its
    sign: above zero the batch is suspended for [ms / 1000] seconds, at zero
    or below the batch goes on at once. *)
Theorem C8_wait_needs_a_number (tree : Node) (action : Dictionary)
    (rest : list Variant) (processed : nat) :
  dict_get action "type" (VString "") = VString "wait" ->
  let ms := dict_get action "ms" (VInt 0) in
  (is_number ms = false ->
   input_loop E tree (VDict action :: rest) processed
   = Ok (LoopLeft ("Action " +:+ Str.of_nat processed +:+ " (wait): ms must be a number")
           processed, []))
  /\ (is_number ms = true ->
      succeeds E (VDict action) processed
      /\ (Qle_bool (number_value ms) 0 = false ->
          input_loop E tree (VDict action :: rest) processed
          = Ok (LoopAwait rest processed, []))
      /\ (Qle_bool (number_value ms) 0 = true ->
          input_loop E tree (VDict action :: rest) processed
          = input_loop E tree rest (S processed))).
Proof.
  intros Htype ms.
  assert (Hact : forall t, input_action E t (VDict action) processed
                           = Ok (wait_action action processed, [])).
  { intros t. unfold input_action. rewrite Htype. reflexivity. }
  split.
  - intros Hnum. cbn [input_loop]. rewrite Hact. unfold wait_action.
    fold ms. rewrite Hnum, action_prefix_wait. reflexivity.
  - intros Hnum. repeat split.
    + exists tree, (wait_action action processed), []. split; [apply Hact |].
      unfold wait_action. fold ms. rewrite Hnum.
      destruct (negb (Qle_bool (number_value ms) 0)); discriminate.
    + intros Hpos. cbn [input_loop]. rewrite Hact. unfold wait_action.
      fold ms. rewrite Hnum, Hpos. reflexivity.
    + intros Hneg. cbn [input_loop]. rewrite Hact. unfold wait_action.
      fold ms. rewrite Hnum, Hneg. cbn.
      destruct (input_loop E tree rest (S processed)) as [[exit evs]|]; reflexivity.
Qed.

(** **** The single-flight flag *)

Lemma neutral_refl L : neutral L L.
Proof. now split. Qed.

Lemma neutral_send peer data L : neutral L (_send_response peer data L).
Proof. now split. Qed.

Lemma neutral_screenshot peer L : neutral L (_handle_screenshot peer L).
Proof.
  split; [reflexivity |]. simpl. rewrite List.filter_app. simpl.
  now rewrite app_nil_r.
Qed.

Lemma neutral_get_ui_elements peer payload L L' :
  _handle_get_ui_elements peer payload L = Ok L' -> neutral L L'.
Proof.
  unfold _handle_get_ui_elements. intros H.
  apply bind_Ok in H as [vis [_ H]]. apply bind_Ok in H as [tf [_ H]].
  inversion H. apply neutral_send.
Qed.

Lemma neutral_run_script peer payload L L' :
  scripts_leave_flag E ->
  _handle_run_script E peer payload L = Ok L' -> neutral L L'.
Proof.
  unfold _handle_run_script. intros Hscripts H.
  apply bind_Ok in H as [source [_ H]].
  destruct (String.eqb (strip_edges E source) ""); [inversion H; apply neutral_send |].
  destruct (run_source E source (root L) (_is_processing_input L))
    as [err | | | serialized scene' events flag'] eqn:Hrun;
    inversion H; try now split.
  apply Hscripts in Hrun. subst flag'. now split.
Qed.

Lemma neutral_invariant L L' :
  neutral L L' ->
  batches_in_flight L = (if _is_processing_input L then 1 else 0) ->
  batches_in_flight L' = (if _is_processing_input L' then 1 else 0).
Proof.
  unfold batches_in_flight. intros [-> ->]. trivial.
Qed.

(** A stretch that starts with the flag set and no other batch under way
    ends with the flag cleared and no batch under way, or suspended with the
    flag still set and this one batch under way. *)
Lemma input_stretch_invariant peer actions n L L' :
  input_stretch E peer actions n L = Ok L' ->
  _is_processing_input L = true ->
  batches_in_flight L = 0 ->
  batches_in_flight L' = (if _is_processing_input L' then 1 else 0).
Proof.
  intros H Hflag Hnone.
  apply input_stretch_spec in H
    as [(msg & n' & evs & _ & ->) | (remaining & n' & evs & _ & ->)].
  - exact Hnone.
  - unfold batches_in_flight in *. simpl. rewrite Hflag.
    rewrite List.filter_app, length_app. simpl. lia.
Qed.

Lemma dispatch_invariant peer payload L L' :
  scripts_leave_flag E ->
  dispatch E peer payload L = Ok L' ->
  batches_in_flight L = (if _is_processing_input L then 1 else 0) ->
  batches_in_flight L' = (if _is_processing_input L' then 1 else 0).
Proof.
  unfold dispatch. intros Hscripts H Hinv.
  destruct (dict_get payload "command" (VString "")) as [| | | |c| |];
    try (inversion H; subst; exact Hinv).
  destruct (String.eqb c "input").
  { destruct (dict_get payload "actions" (VArray [])) as [| | | | |actions|];
      try (inversion H; subst; exact Hinv).
    destruct actions as [|a rest]; [inversion H; subst; exact Hinv |].
    destruct (_is_processing_input L) eqn:Hflag; [inversion H; subst; simpl; now rewrite Hflag |].
    unfold _handle_input in H.
    eapply input_stretch_invariant; [exact H | reflexivity | exact Hinv]. }
  destruct (String.eqb c "get_ui_elements").
  { eapply neutral_invariant; [eapply neutral_get_ui_elements; exact H | exact Hinv]. }
  destruct (String.eqb c "run_script").
  { eapply neutral_invariant; [eapply neutral_run_script; [exact Hscripts | exact H] | exact Hinv]. }
  destruct (String.eqb c "screenshot").
  { inversion H. eapply neutral_invariant; [apply neutral_screenshot | exact Hinv]. }
  destruct (String.eqb c "ping"); inversion H; subst; exact Hinv.
Qed.

Lemma process_invariant peer data L L' :
  scripts_leave_flag E ->
  _process E peer data L = Ok L' ->
  batches_in_flight L = (if _is_processing_input L then 1 else 0) ->
  batches_in_flight L' = (if _is_processing_input L' then 1 else 0).
Proof.
  unfold _process, _handle_json_command. intros Hscripts H Hinv.
  destruct (Str.begins_with data "{").
  - destruct (json_parse E data) as [message|payload];
      [inversion H; subst; exact Hinv |].
    destruct payload; try (inversion H; subst; exact Hinv).
    eapply dispatch_invariant; eassumption.
  - destruct (String.eqb data "screenshot").
    { inversion H. eapply neutral_invariant; [apply neutral_screenshot | exact Hinv]. }
    destruct (String.eqb data "ping"); inversion H; subst; exact Hinv.
Qed.

Lemma filter_delete_frame (l : list Frame) i fr :
  l !! i = Some fr ->
  length (List.filter is_input_frame l)
  = (if is_input_frame fr then 1 else 0)
    + length (List.filter is_input_frame (delete i l)).
Proof.
  revert i. induction l as [|x l IH]; intros [|i] H; simpl in *; try discriminate.
  - inversion H; subst. destruct (is_input_frame fr); reflexivity.
  - specialize (IH _ H).
    destruct (is_input_frame x), (is_input_frame fr); simpl in *; lia.
Qed.

Lemma wake_invariant i fr L L' :
  awaiting L !! i = Some fr ->
  resume E fr (set_awaiting (delete i (awaiting L)) L) = Ok L' ->
  batches_in_flight L = (if _is_processing_input L then 1 else 0) ->
  batches_in_flight L' = (if _is_processing_input L' then 1 else 0).
Proof.
  intros Hi H Hinv. unfold batches_in_flight in Hinv.
  rewrite (filter_delete_frame _ _ _ Hi) in Hinv.
  destruct fr as [peer remaining n|peer]; simpl in H, Hinv.
  - destruct (_is_processing_input L) eqn:Hflag; [| discriminate].
    unfold resume_input in H.
    eapply input_stretch_invariant; [exact H | exact Hflag |].
    unfold batches_in_flight. simpl. lia.
  - inversion H; subst. unfold resume_screenshot, batches_in_flight.
    destruct (save_screenshot E _); simpl; exact Hinv.
Qed.

Lemma flag_counts_batches tree L :
  scripts_leave_flag E ->
  reachable E (ready tree) L ->
  batches_in_flight L = (if _is_processing_input L then 1 else 0).
Proof.
  intros Hscripts.
  induction 1 as [|L L' Hreach IH Hstep]; [reflexivity |].
  destruct Hstep as [peer data L L' H | i fr L L' Hi H | tree' L].
  - eapply process_invariant; eassumption.
  - eapply wake_invariant; eassumption.
  - exact IH.
Qed.

(** C2, as the code has it. An [input] command is looked at in this order:
    when its [actions] are not an array it is answered with "actions must be
    an array", when they are an empty array with "actions array is empty",
    and both also while the flag is set; when they are a non-empty array and
    the flag is set, it is answered with "Input sequence already in
    progress".  Each of these answers changes nothing else: no action runs,
    no event is queued, the batch under way is left as it is.  And in every
    state that the listener reaches, as long as no script of [run_script]
    writes the flag, the flag is set exactly when one input batch is under
    way (started, suspended at a [wait], not yet answered), and never more
    than one is. *)
Theorem C2_single_flight (tree : Node) (L : Listener) (peer : Peer)
    (payload : Dictionary) :
  dict_get payload "command" (VString "") = VString "input" ->
  let answer (message : string) :=
    Ok {| _is_processing_input := _is_processing_input L; root := root L;
          input_queue := input_queue L;
          sent := sent L ++ [(peer, JsonPacket [("error", VString message)])];
          awaiting := awaiting L |} in
  ((forall items, dict_get payload "actions" (VArray []) <> VArray items) ->
   dispatch E peer payload L = answer "actions must be an array")
  /\ (dict_get payload "actions" (VArray []) = VArray [] ->
      dispatch E peer payload L = answer "actions array is empty")
  /\ (forall action rest,
        dict_get payload "actions" (VArray []) = VArray (action :: rest) ->
        _is_processing_input L = true ->
        dispatch E peer payload L = answer "Input sequence already in progress")
  /\ (scripts_leave_flag E -> reachable E (ready tree) L ->
      batches_in_flight L = (if _is_processing_input L then 1 else 0)).
Proof.
  intros Hcmd answer. repeat split.
  - intros Hshape. unfold dispatch. rewrite Hcmd. cbn [String.eqb].
    change (String.eqb "input" "input") with true. cbv iota.
    destruct (dict_get payload "actions" (VArray [])) as [| | | | |items|];
      try reflexivity.
    now destruct (Hshape items).
  - intros Hacts. unfold dispatch. now rewrite Hcmd, Hacts.
  - intros action rest Hacts Hflag. unfold dispatch. rewrite Hcmd, Hacts.
    change (String.eqb "input" "input") with true. cbv iota. now rewrite Hflag.
  - intros Hscripts Hreach. eapply flag_counts_batches; eassumption.
Qed.

(** **** The type filter of the UI walker *)

Lemma collect_children_spec path kids vis tf :
  Forall (fun child => forall pp elements,
              _collect_control_nodes pp child elements vis tf
              = elements ++ map element_at
                              (List.filter (matches_filter tf)
                                 (visited_controls pp child vis))) kids ->
  forall elements,
    (fix each (l : list Node) (acc : list Dictionary) : list Dictionary :=
       match l with
       | [] => acc
       | child :: l' => each l' (_collect_control_nodes path child acc vis tf)
       end) kids elements
    = elements ++ map element_at
                    (List.filter (matches_filter tf)
                       ((fix each (l : list Node) : list (string * Node) :=
                           match l with
                           | [] => []
                           | child :: l' => visited_controls path child vis ++ each l'
                           end) kids)).
Proof.
  induction 1 as [|child kids Hchild _ IH]; intros elements.
  - now rewrite app_nil_r.
  - rewrite Hchild, IH, List.filter_app, map_app. now rewrite app_assoc.
Qed.

Lemma visited_child_below path kids vis child :
  In child kids ->
  incl (visited_controls path child vis)
       ((fix each (l : list Node) : list (string * Node) :=
           match l with
           | [] => []
           | c :: l' => visited_controls path c vis ++ each l'
           end) kids).
Proof.
  induction kids as [|k kids IH]; intros Hin x Hx; [contradiction |].
  apply in_or_app. destruct Hin as [-> | Hin]; [now left | right].
  now apply IH.
Qed.

Lemma collect_spec (parent_path : string) (node : Node)
    (elements : list Dictionary) (visible_only : bool) (type_filter : string) :
  _collect_control_nodes parent_path node elements visible_only type_filter
  = elements
    ++ map element_at
         (List.filter (matches_filter type_filter)
            (visited_controls parent_path node visible_only)).
Proof.
  revert parent_path elements.
  induction node as [nm cls vis rect txt ph tip dis kids IH] using Node_forall_ind.
  intros parent_path elements.
  pose proof (collect_children_spec (parent_path +:+ "/" +:+ nm) kids
                visible_only type_filter IH) as Hkids.
  cbn [_collect_control_nodes visited_controls].
  destruct (is_Control (mkNode nm cls vis rect txt ph tip dis kids)); [| apply Hkids].
  destruct (visible_only && negb (is_visible_in_tree (mkNode nm cls vis rect txt ph tip dis kids))).
  { now rewrite app_nil_r. }
  cbn [List.filter]. unfold matches_filter at 1. cbn [snd].
  destruct (String.eqb type_filter ""); cbn [negb andb orb].
  - rewrite Hkids. cbn [map]. unfold element_at at 2. cbn [fst snd].
    now rewrite <- app_assoc.
  - destruct (is_class (mkNode nm cls vis rect txt ph tip dis kids) type_filter);
      cbn [negb].
    + rewrite Hkids. cbn [map]. unfold element_at at 2. cbn [fst snd].
      now rewrite <- app_assoc.
    + apply Hkids.
Qed.

(** C6. With any type filter, the result of the UI walker is the list of
    the Controls its traversal comes to, in order, with those that do not
    match the filter taken out; the traversal itself, [visited_controls],
    does not depend on the filter.  And below a Control that a non-empty
    filter excludes the walk goes on: whatever the walker collects from a
    child of that Control, it collects from the Control.  The filter decides
    what is in the result, not what is reached. *)
Theorem C6_type_filter_does_not_prune (parent_path : string) (node : Node)
    (elements : list Dictionary) (visible_only : bool) (type_filter : string) :
  _collect_control_nodes parent_path node elements visible_only type_filter
  = elements
    ++ map element_at
         (List.filter (matches_filter type_filter)
            (visited_controls parent_path node visible_only))
  /\ (String.eqb type_filter "" = false ->
      is_Control node = true ->
      visible_only && negb (is_visible_in_tree node) = false ->
      is_class node type_filter = false ->
      forall child element,
        In child (get_children node) ->
        In element (_collect_control_nodes (parent_path +:+ "/" +:+ name node)
                      child [] visible_only type_filter) ->
        In element (_collect_control_nodes parent_path node elements
                      visible_only type_filter)).
Proof.
  split; [apply collect_spec |].
  intros Hfilter Hctrl Hvis Hexcluded child element Hchild Hin.
  rewrite collect_spec in Hin. rewrite collect_spec.
  apply in_or_app. right. simpl in Hin.
  apply in_map_iff in Hin as [ctrl [<- Hctrl_in]].
  apply in_map_iff. exists ctrl. split; [reflexivity |].
  apply List.filter_In in Hctrl_in as [Hvisited Hmatch].
  apply List.filter_In. split; [| exact Hmatch].
  destruct node as [nm cls vis rect txt ph tip dis kids].
  cbn [visited_controls]. rewrite Hctrl, Hvis.
  right. eapply visited_child_below; eassumption.
Qed.

(** **** Clicking an element that is not there *)

Lemma nodes_of_child n child :
  In child (get_children n) -> incl (nodes_of child) (nodes_of n).
Proof.
  destruct n as [nm cls vis rect txt ph tip dis kids]. cbn [get_children nodes_of].
  intros Hin x Hx. right.
  induction kids as [|k kids IH]; [contradiction |].
  apply in_or_app. destruct Hin as [-> | Hin]; [now left | right; now apply IH].
Qed.

Lemma nodes_of_self n : In n (nodes_of n).
Proof. destruct n; now left. Qed.

(** The search by name finds nothing where no Control has the name. *)
Lemma bfs_by_name_none fuel identifier queue :
  (forall q n, In q queue -> In n (nodes_of q) ->
               is_Control n = true -> name n <> identifier) ->
  bfs_by_name fuel identifier queue = None.
Proof.
  revert queue. induction fuel as [|fuel IH]; intros queue Hnone; [reflexivity |].
  destruct queue as [|current rest]; [reflexivity |]. cbn [bfs_by_name].
  destruct (is_Control current) eqn:Hc; cbn [andb].
  - destruct (String.eqb_spec (name current) identifier) as [Heq | _].
    + exfalso. eapply (Hnone current current); eauto using nodes_of_self.
      now left.
    + apply IH. intros q n Hq Hn. apply in_app_or in Hq as [Hq | Hq].
      * eapply Hnone; [right; exact Hq | exact Hn].
      * eapply (Hnone current); [now left |].
        eapply nodes_of_child; eassumption.
  - apply IH. intros q n Hq Hn. apply in_app_or in Hq as [Hq | Hq].
    + eapply Hnone; [right; exact Hq | exact Hn].
    + eapply (Hnone current); [now left |].
      eapply nodes_of_child; eassumption.
Qed.

Lemma node_count_children n :
  node_count n = S (forest_count (get_children n)).
Proof.
  destruct n as [nm cls vis rect txt ph tip dis kids]. reflexivity.
Qed.

Lemma forest_count_app l1 l2 :
  forest_count (l1 ++ l2) = forest_count l1 + forest_count l2.
Proof.
  unfold forest_count. induction l1 as [|k l1 IH]; [reflexivity |].
  cbn [fold_right app]. rewrite IH. lia.
Qed.

Lemma nodes_of_inv n x :
  In x (nodes_of n) -> x = n \/ exists child, In child (get_children n) /\ In x (nodes_of child).
Proof.
  destruct n as [nm cls vis rect txt ph tip dis kids]. cbn [nodes_of get_children].
  intros [<- | Hin]; [now left | right].
  induction kids as [|k kids IH]; [contradiction |].
  apply in_app_or in Hin as [Hin | Hin].
  - exists k. split; [now left | exact Hin].
  - destruct (IH Hin) as (child & Hc & Hx). exists child. split; [now right | exact Hx].
Qed.

(** The fuel of the search never runs out before the queue does: where a
    Control has the name, the search finds one. *)
Lemma bfs_by_name_finds fuel identifier queue :
  forest_count queue <= fuel ->
  (exists q n, In q queue /\ In n (nodes_of q) /\
               is_Control n = true /\ name n = identifier) ->
  exists found,
    bfs_by_name fuel identifier queue = Some found /\
    is_Control found = true /\ name found = identifier.
Proof.
  revert queue. induction fuel as [|fuel IH]; intros queue Hfuel (q & n & Hq & Hn & Hc & Hname).
  - destruct queue as [|current rest]; [contradiction |].
    cbn [forest_count fold_right] in Hfuel. rewrite node_count_children in Hfuel. lia.
  - destruct queue as [|current rest]; [contradiction |]. cbn [bfs_by_name].
    destruct (is_Control current && String.eqb (name current) identifier) eqn:Hhit.
    + apply andb_true_iff in Hhit as [Hcc Hcn]. apply String.eqb_eq in Hcn. eauto.
    + apply IH.
      * cbn [forest_count fold_right] in Hfuel. rewrite node_count_children in Hfuel.
        rewrite forest_count_app. unfold forest_count in *. lia.
      * destruct Hq as [<- | Hq].
        -- apply nodes_of_inv in Hn as [-> | (child & Hchild & Hn)].
           ++ rewrite Hc in Hhit. cbn in Hhit.
              apply String.eqb_neq in Hhit. contradiction.
           ++ exists child, n. repeat split; try assumption.
              apply in_or_app. now right.
        -- exists q, n. repeat split; try assumption. apply in_or_app. now left.
Qed.

(** The three lookups of [_find_control_by_identifier] all fail when the
    identifier is no path to a Control and no Control has it as its name. *)
Lemma find_control_none tree identifier :
  control_or_null (get_node_or_null E tree identifier) = None ->
  (forall n, In n (nodes_of tree) -> is_Control n = true -> name n <> identifier) ->
  _find_control_by_identifier E tree identifier = None.
Proof.
  intros Hpath Hname. unfold _find_control_by_identifier. rewrite Hpath.
  destruct (Str.begins_with identifier "/");
    apply bfs_by_name_none; intros q n [<- | []]; apply Hname.
Qed.

(** C5, as the code has it. A [click_element] action whose identifier names
    no Control of the live tree (it is no path to a Control, absolute or
    relative to the root, and no Control has it as its name) fails and queues
    no event, so no mouse press and no release: with the error "Could not
    find UI element: ..." when the identifier is not empty, and with "element
    identifier is required" when it is empty. *)
Theorem C5_click_element_not_found (tree : Node) (action : Dictionary)
    (identifier : string) (processed : nat) :
  dict_get action "type" (VString "") = VString "click_element" ->
  dict_get action "element" (VString "") = VString identifier ->
  control_or_null (get_node_or_null E tree identifier) = None ->
  (forall n, In n (nodes_of tree) -> is_Control n = true -> name n <> identifier) ->
  _inject_click_element E tree action
  = Ok (if String.eqb identifier "" then "element identifier is required"
        else "Could not find UI element: " +:+ identifier, [])
  /\ input_action E tree (VDict action) processed
     = Ok (Break ("Action " +:+ Str.of_nat processed +:+ " (click_element): "
                  +:+ (if String.eqb identifier "" then "element identifier is required"
                       else "Could not find UI element: " +:+ identifier)), []).
Proof.
  intros Htype Helement Hpath Hname.
  assert (Hclick : _inject_click_element E tree action
                   = Ok (if String.eqb identifier "" then "element identifier is required"
                         else "Could not find UI element: " +:+ identifier, [])).
  { unfold _inject_click_element. rewrite Helement. cbn.
    destruct (String.eqb identifier ""); [reflexivity |].
    now rewrite find_control_none. }
  split; [exact Hclick |].
  unfold input_action. rewrite Htype. cbn. rewrite Hclick. cbn.
  unfold action_prefix. rewrite !string_app_assoc.
  destruct (String.eqb identifier ""); reflexivity.
Qed.

End Props.

Lemma demo_no_control_named (identifier : string) :
  List.forallb (fun n => negb (is_Control n && String.eqb (name n) identifier))
    (nodes_of demo_root) = true ->
  forall n, In n (nodes_of demo_root) -> is_Control n = true -> name n <> identifier.
Proof.
  intros Hall n Hin Hc Hname.
  rewrite List.forallb_forall in Hall. specialize (Hall n Hin).
  rewrite Hc in Hall. apply String.eqb_eq in Hname. rewrite Hname in Hall.
  discriminate.
Qed.

Lemma C5_witness :
  dict_get click_quit "element" (VString "") = VString "Quit"
  /\ control_or_null (get_node_or_null demo_engine demo_root "Quit") = None
  /\ input_action demo_engine demo_root (VDict click_quit) 2
     = Ok (Break "Action 2 (click_element): Could not find UI element: Quit", []).
Proof.
  split; [reflexivity |]. split; [reflexivity |].
  apply (C5_click_element_not_found demo_engine demo_root click_quit "Quit" 2);
    try reflexivity.
  apply demo_no_control_named. reflexivity.
Defined.

(** C5, as the spec has it, fails for the empty identifier: it names no
    Control of the tree, and the error is not that the element could not be
    found but that the identifier is required. *)
Lemma C5_counterexample :
  _find_control_by_identifier demo_engine demo_root "" = None
  /\ _inject_click_element demo_engine demo_root click_nothing
     = Ok ("element identifier is required", [])
  /\ input_action demo_engine demo_root (VDict click_nothing) 0
     = Ok (Break "Action 0 (click_element): element identifier is required", []).
Proof. repeat split; reflexivity. Qed.

Lemma C6_witness :
  String.eqb "Button" "" = false
  /\ is_class demo_menu "Button" = false
  /\ (forall element,
        In element (_collect_control_nodes "/root/Menu" demo_start [] true "Button") ->
        In element (_collect_control_nodes "/root" demo_menu [] true "Button"))
  /\ _collect_control_nodes "/root" demo_menu [] true "Button"
     = [element_of "/root/Menu/Start" demo_start].
Proof.
  split; [reflexivity |]. split; [reflexivity |]. split; [| reflexivity].
  intros element.
  apply (proj2 (C6_type_filter_does_not_prune "/root" demo_menu [] true "Button"));
    try reflexivity.
  now left.
Defined.

Lemma busy_reachable : reachable demo_engine (ready demo_root) busy.
Proof.
  eapply reach_step; [apply reach_start |].
  apply (step_datagram demo_engine 1 wait_then_A_text). reflexivity.
Defined.

Lemma demo_scripts_leave_flag : scripts_leave_flag demo_engine.
Proof.
  intros source tree flag serialized scene' events flag' H.
  injection H as _ _ _ <-. reflexivity.
Qed.

Lemma C2_witness :
  dict_get (input_command [motion; key_A]) "command" (VString "") = VString "input"
  /\ _is_processing_input busy = true
  /\ reachable demo_engine (ready demo_root) busy
  /\ dispatch demo_engine 2 (input_command [motion; key_A]) busy
     = Ok {| _is_processing_input := true; root := demo_root; input_queue := [];
             sent := [(2, JsonPacket [("error",
                                       VString "Input sequence already in progress")])];
             awaiting := [InputFrame 1 [key_A] 0] |}
  /\ batches_in_flight busy = 1.
Proof.
  split; [reflexivity |]. split; [reflexivity |]. split; [exact busy_reachable |].
  destruct (C2_single_flight demo_engine demo_root busy 2
              (input_command [motion; key_A]) eq_refl)
    as (_ & _ & Hbusy & Hflag).
  split.
  - exact (Hbusy motion [key_A] eq_refl eq_refl).
  - exact (Hflag demo_scripts_leave_flag busy_reachable).
Defined.

(** C2, as the spec has it, fails for a batch without actions: submitted
    while another batch is under way, it is answered with "actions array is
    empty", not with the error of the flag. *)
Lemma C2_counterexample :
  _process demo_engine 1 wait_then_A_text (ready demo_root) = Ok busy
  /\ _is_processing_input busy = true
  /\ dispatch demo_engine 2 (input_command []) busy
     = Ok {| _is_processing_input := true; root := demo_root; input_queue := [];
             sent := [(2, JsonPacket [("error", VString "actions array is empty")])];
             awaiting := [InputFrame 1 [key_A] 0] |}.
Proof. repeat split; reflexivity. Qed.

Lemma C7_witness :
  find_keycode_from_string demo_engine "BOGUS_KEY" = KEY_NONE
  /\ input_batch demo_engine 1 bogus_batch (ready demo_root) [demo_woken]
     = Ok (demo_woken,
           _send_response 1
             [("error", VString bogus_error); ("actions_processed", VInt 1)]
             (set_processing false demo_woken)).
Proof.
  split; [reflexivity |].
  exact (proj1 (proj2 (C7_bogus_key_processed_one demo_engine 1 (ready demo_root)
                         demo_woken [] eq_refl))).
Defined.

(** C7, as the spec has it, fails: the listener that receives the batch
    suspends at the [wait] and, woken, answers with [actions_processed] 1,
    not 0. *)
Lemma C7_counterexample :
  dispatch demo_engine 1 (input_command bogus_batch) (ready demo_root)
  = Ok {| _is_processing_input := true; root := demo_root; input_queue := [];
          sent := []; awaiting := [InputFrame 1 [bogus_key] 0] |}
  /\ resume demo_engine (InputFrame 1 [bogus_key] 0)
       {| _is_processing_input := true; root := demo_root; input_queue := [];
          sent := []; awaiting := [] |}
     = Ok {| _is_processing_input := false; root := demo_root; input_queue := [];
             sent := [(1, JsonPacket [("error", VString bogus_error);
                                      ("actions_processed", VInt 1)])];
             awaiting := [] |}.
Proof. split; reflexivity. Qed.

Lemma C8_witness :
  dict_get [("type", VString "wait"); ("ms", VString "soon")] "type" (VString "")
  = VString "wait"
  /\ input_loop demo_engine demo_root
       [VDict [("type", VString "wait"); ("ms", VString "soon")]; key_A] 4
     = Ok (LoopLeft "Action 4 (wait): ms must be a number" 4, []).
Proof.
  split; [reflexivity |].
  apply (C8_wait_needs_a_number demo_engine demo_root
           [("type", VString "wait"); ("ms", VString "soon")] [key_A] 4);
    reflexivity.
Defined.

(** C8, as the spec has it, fails: a [wait] with a negative [ms] is no
    failure; the batch of that one action is answered with success and
    [actions_processed] 1. *)
Lemma C8_counterexample :
  input_action demo_engine demo_root negative_wait 0 = Ok (Next, [])
  /\ dispatch demo_engine 1 (input_command [negative_wait]) (ready demo_root)
     = Ok {| _is_processing_input := false; root := demo_root; input_queue := [];
             sent := [(1, JsonPacket [("success", VBool true);
                                      ("actions_processed", VInt 1)])];
             awaiting := [] |}.
Proof. split; reflexivity. Qed.

Lemma C1_witness :
  length demo_batch <= length (repeat demo_woken 5)
  /\ exists before final,
      input_batch demo_engine 1 demo_batch (ready demo_root) (repeat demo_woken 5)
      = Ok (before, final)
      /\ exists reply,
          sent final = sent before ++ [(1, JsonPacket reply)]
          /\ _is_processing_input final = false
          /\ awaiting final = awaiting before
          /\ ((reply = [("success", VBool true);
                        ("actions_processed", VInt (Z.of_nat (length demo_batch)))]
               /\ all_succeed demo_engine 0 demo_batch)
              \/ (exists pre failing post error_msg evs,
                    demo_batch = pre ++ failing :: post /\
                    all_succeed demo_engine 0 pre /\
                    input_action demo_engine (root before) failing (length pre)
                    = Ok (Break error_msg, evs) /\
                    reply = [("error", VString error_msg);
                             ("actions_processed", VInt (Z.of_nat (length pre)))])).
Proof.
  assert (Hlen : length demo_batch <= length (repeat demo_woken 5)).
  { cbn. lia. }
  split; [exact Hlen |].
  eexists. eexists. split; [vm_compute; reflexivity |].
  eapply (C1_actions_processed_counts demo_engine 1 demo_batch (ready demo_root)
            (repeat demo_woken 5)); [exact Hlen |].
  vm_compute. reflexivity.
Defined.

End BridgeProps.

(** * Properties of the session manager and the bridge client *)

Module RunnerProps.
Import Runner.

(** *** Matching in a text *)

Lemma starts_with_app (p s : Text) : starts_with p (p ++ s) = true.
Proof.
  induction p as [|a p IH]; [reflexivity |]. cbn. now rewrite Ascii.eqb_refl.
Qed.

Lemma starts_with_split (p s : Text) :
  starts_with p s = true -> s = p ++ skipn (length p) s.
Proof.
  revert s. induction p as [|a p IH]; intros s H; [reflexivity |].
  destruct s as [|b s]; [discriminate |]. cbn in H.
  apply andb_true_iff in H as [Hab Hp]. apply Ascii.eqb_eq in Hab. subst b.
  cbn. f_equal. now apply IH.
Qed.

(** A text that does not hold the character [c] cannot reach over it. *)
Lemma starts_with_sep (p : Text) (c : ascii) (x y : Text) :
  ~ In c p -> starts_with p (x ++ c :: y) = starts_with p x.
Proof.
  revert x. induction p as [|a p IH]; intros x Hc; [reflexivity |].
  destruct x as [|b x]; cbn.
  - destruct (Ascii.eqb_spec a c) as [-> | _]; [| reflexivity].
    exfalso. apply Hc. now left.
  - rewrite IH; [reflexivity |]. intros Hin. apply Hc. now right.
Qed.

Lemma starts_with_longer (p x y : Text) :
  starts_with p x = true -> starts_with p (x ++ y) = true.
Proof.
  revert x. induction p as [|a p IH]; intros x H; [reflexivity |].
  destruct x as [|b x]; [discriminate |]. cbn in *.
  apply andb_true_iff in H as [-> Hp]. now rewrite IH.
Qed.

Lemma count_matches_sep (p : Text) (c : ascii) (x y : Text) :
  ~ In c p -> count_matches p (x ++ c :: y) = count_matches p x + count_matches p y.
Proof.
  intros Hc. induction x as [|b x IH].
  - pose proof (starts_with_sep p c [] y Hc) as H. cbn [app] in *.
    cbn [count_matches]. rewrite H. lia.
  - pose proof (starts_with_sep p c (b :: x) y Hc) as H. cbn [app] in *.
    cbn [count_matches]. rewrite IH, H. lia.
Qed.

Lemma count_matches_suffix (p x y : Text) :
  count_matches p y <= count_matches p (x ++ y).
Proof.
  induction x as [|b x IH]; [cbn [app]; lia |]. cbn [app count_matches].
  destruct (starts_with p (b :: x ++ y)); lia.
Qed.

Lemma count_matches_prefix (p x y : Text) :
  p <> [] -> count_matches p x <= count_matches p (x ++ y).
Proof.
  intros Hp. induction x as [|b x IH].
  - destruct p; [contradiction |]. cbn. lia.
  - cbn [app count_matches].
    destruct (starts_with p (b :: x)) eqn:Hs.
    + pose proof (starts_with_longer _ _ y Hs) as H. cbn [app] in H.
      rewrite H. lia.
    + destruct (starts_with p (b :: x ++ y)); lia.
Qed.

Lemma count_matches_zero_app (p x y : Text) :
  p <> [] -> count_matches p (x ++ y) = 0 ->
  count_matches p x = 0 /\ count_matches p y = 0.
Proof.
  intros Hp H.
  pose proof (count_matches_prefix p x y Hp). pose proof (count_matches_suffix p x y).
  lia.
Qed.

Lemma includes_count (p s : Text) :
  includes p s = negb (count_matches p s =? 0).
Proof.
  induction s as [|b s IH]; cbn [includes count_matches].
  - destruct (starts_with p []); reflexivity.
  - rewrite IH. destruct (starts_with p (b :: s)); cbn [orb].
    + reflexivity.
    + reflexivity.
Qed.

Lemma includes_false_count (p s : Text) :
  includes p s = false <-> count_matches p s = 0.
Proof.
  rewrite includes_count. destruct (Nat.eqb_spec (count_matches p s) 0); cbn; split;
    congruence.
Qed.

Lemma includes_here (p s : Text) : starts_with p s = true -> includes p s = true.
Proof. intros H. destruct s; cbn [includes]; now rewrite H. Qed.

Lemma includes_mid (p x y : Text) : includes p (x ++ p ++ y) = true.
Proof.
  induction x as [|b x IH]; cbn [app].
  - apply includes_here, starts_with_app.
  - cbn [includes]. rewrite IH. apply orb_true_r.
Qed.

(** *** The end of a text *)

Lemma trimEnd_prefix (s : Text) :
  exists w, s = trimEnd s ++ w /\ forallb is_space w = true.
Proof.
  induction s as [|c s (w & Hs & Hw)]; [now exists [] |].
  cbn [trimEnd]. destruct (trimEnd s) as [|k kept] eqn:Ht.
  - destruct (is_space c) eqn:Hc.
    + exists (c :: s). split; [reflexivity |]. cbn. rewrite Hc.
      cbn in Hs. now rewrite Hs.
    + exists s. split; [reflexivity |]. cbn in Hs. now rewrite Hs.
  - exists w. split; [| exact Hw]. cbn. now rewrite Hs at 1.
Qed.

(** *** The three expressions *)

Lemma spaces_then_spec (look : Text -> bool) (rest : Text) (k : nat) :
  spaces_then look rest = Some k -> look (skipn k rest) = true.
Proof.
  revert k. induction rest as [|c rest IH]; intros k H; cbn [spaces_then] in H.
  - destruct (look []) eqn:Hl; inversion H; subst. exact Hl.
  - destruct (is_space c).
    + destruct (spaces_then look rest) as [k'|].
      * inversion H; subst. cbn [skipn]. now apply IH.
      * destruct (look (c :: rest)) eqn:Hl; inversion H; subst. exact Hl.
    + destruct (look (c :: rest)) eqn:Hl; inversion H; subst. exact Hl.
Qed.

Lemma header_line_here_spec (s : Text) (len : nat) :
  header_line_here s = Some len -> at_line_end (skipn len s) = true.
Proof.
  unfold header_line_here. intros H.
  destruct (starts_with autoload_header s); [| discriminate].
  destruct (spaces_then at_line_end (skipn (length autoload_header) s)) as [k|] eqn:Hk;
    [| discriminate].
  injection H as <-. apply spaces_then_spec in Hk.
  rewrite List.skipn_skipn, Nat.add_comm in Hk. exact Hk.
Qed.

(** Where the header line is replaced: what stands before the match and
    what stands after it stay, and the match ends at the end of a line. *)
Lemma replace_header_line_spec (s : Text) (line_start : bool) (replacement out : Text) :
  replace_header_line line_start replacement s = Some out ->
  exists pre mid post,
    s = pre ++ mid ++ post /\ out = pre ++ replacement ++ post /\
    at_line_end post = true.
Proof.
  revert line_start out. induction s as [|c s IH]; intros line_start out H.
  - cbn [replace_header_line] in H.
    destruct (if line_start then header_line_here [] else None) as [len|] eqn:Hh;
      [| discriminate].
    destruct line_start; [| discriminate]. discriminate Hh.
  - cbn [replace_header_line] in H.
    destruct (if line_start then header_line_here (c :: s) else None) as [len|] eqn:Hh.
    + destruct line_start; [| discriminate].
      inversion H; subst. exists [], (firstn len (c :: s)), (skipn len (c :: s)).
      split; [cbn [app]; now rewrite List.firstn_skipn |].
      split; [reflexivity |]. now apply header_line_here_spec.
    + destruct (replace_header_line (is_line_terminator c) replacement s) as [out'|] eqn:Hr;
        [| discriminate].
      inversion H; subst.
      destruct (IH _ _ Hr) as (pre & mid & post & -> & -> & Hend).
      exists (c :: pre), mid, post. now repeat split.
Qed.

Lemma remove_entry_skip (entry : Text) (n : nat) (s : Text) :
  remove_entry n entry s = remove_entry 0 entry (skipn n s).
Proof.
  revert n. induction s as [|c s IH]; intros [|n]; try reflexivity.
  cbn [remove_entry skipn]. apply IH.
Qed.

Lemma count_matches_here (p s : Text) :
  count_matches p s = 0 -> starts_with p s = false.
Proof.
  destruct s; cbn [count_matches]; destruct (starts_with p _); [lia | easy | lia | easy].
Qed.

Lemma count_matches_tail (p : Text) (c : ascii) (s : Text) :
  count_matches p (c :: s) = 0 -> count_matches p s = 0.
Proof. cbn [count_matches]. lia. Qed.

(** Where the entry does not stand, nothing is taken out. *)
Lemma remove_entry_id (entry s : Text) :
  count_matches entry s = 0 -> remove_entry 0 entry s = s.
Proof.
  induction s as [|c s IH]; intros H; [reflexivity |].
  cbn [remove_entry].
  rewrite (count_matches_here _ _ H).
  pose proof (count_matches_tail _ _ _ H) as Ht.
  rewrite (count_matches_here _ _ Ht), andb_false_r.
  now rewrite IH.
Qed.

Lemma remove_entry_pass (entry x y : Text) :
  ~ In LF entry -> count_matches entry x = 0 ->
  remove_entry 0 entry (x ++ LF :: y) = x ++ remove_entry 0 entry (LF :: y).
Proof.
  intros Hlf. induction x as [|c x IH]; intros H; [reflexivity |].
  pose proof (count_matches_tail _ _ _ H) as Ht.
  pose proof (starts_with_sep entry LF (c :: x) y Hlf) as H1.
  pose proof (starts_with_sep entry LF x y Hlf) as H2.
  cbn [app] in *. cbn [remove_entry].
  rewrite H1, H2, (count_matches_here _ _ H), (count_matches_here _ _ Ht), andb_false_r.
  now rewrite IH.
Qed.

Lemma remove_entry_at (entry post : Text) :
  remove_entry 0 entry (LF :: entry ++ post) = remove_entry 0 entry post.
Proof.
  cbn [remove_entry]. rewrite Ascii.eqb_refl, starts_with_app. cbn [andb].
  rewrite remove_entry_skip. now rewrite List.skipn_app, List.skipn_all, Nat.sub_diag.
Qed.

(** The registration on a line of its own, taken out again. *)
Lemma remove_entry_line (entry x post : Text) :
  ~ In LF entry -> count_matches entry x = 0 -> count_matches entry post = 0 ->
  remove_entry 0 entry (x ++ LF :: entry ++ post) = x ++ post.
Proof.
  intros Hlf Hx Hpost.
  now rewrite remove_entry_pass, remove_entry_at, remove_entry_id.
Qed.

Lemma remove_empty_autoload_skip (n : nat) (s : Text) :
  remove_empty_autoload n s = remove_empty_autoload 0 (skipn n s).
Proof.
  revert n. induction s as [|c s IH]; intros [|n]; try reflexivity.
  cbn [remove_empty_autoload skipn]. apply IH.
Qed.

Lemma remove_empty_autoload_cons (c : ascii) (s : Text) :
  remove_empty_autoload 0 (c :: s)
  = if starts_with autoload_header (c :: s) then
      match spaces_then section_or_end_follows
              (skipn (length autoload_header) (c :: s)) with
      | Some k => remove_empty_autoload 0 (skipn (length autoload_header + k) (c :: s))
      | None => c :: remove_empty_autoload 0 s
      end
    else c :: remove_empty_autoload 0 s.
Proof.
  cbn [remove_empty_autoload].
  destruct (starts_with autoload_header (c :: s)); [| reflexivity].
  destruct (spaces_then section_or_end_follows _) as [k|]; [| reflexivity].
  now rewrite remove_empty_autoload_skip.
Qed.

Lemma section_or_end_follows_shape (rest : Text) :
  section_or_end_follows rest = true -> rest = [] \/ exists rest', rest = LF :: rest'.
Proof.
  destruct rest as [|c rest]; [now left |]. intros H. right. exists rest.
  unfold section_or_end_follows in H. cbn in H.
  apply orb_true_iff in H as [H | H]; apply andb_true_iff in H as [H _].
  - apply Ascii.eqb_eq in H. now subst.
  - apply Ascii.eqb_eq in H. now subst.
Qed.

(** After an empty section is taken out, the text goes on with a line feed
    or is at its end. *)
Lemma remove_empty_autoload_after (s : Text) (k : nat) :
  spaces_then section_or_end_follows (skipn (length autoload_header) s) = Some k ->
  remove_empty_autoload 0 (skipn (length autoload_header + k) s) = []
  \/ exists out, remove_empty_autoload 0 (skipn (length autoload_header + k) s) = LF :: out.
Proof.
  intros H. apply spaces_then_spec in H. rewrite List.skipn_skipn in H.
  rewrite Nat.add_comm in H.
  apply section_or_end_follows_shape in H as [-> | [rest' ->]]; [now left |].
  right. eexists. reflexivity.
Qed.

(** Taking out empty sections brings no text together that does not hold a
    line feed. *)
Lemma starts_with_remove_empty_autoload (p s : Text) :
  ~ In LF p -> starts_with p (remove_empty_autoload 0 s) = true ->
  starts_with p s = true.
Proof.
  revert p. induction s as [|c s IH]; intros p Hlf H; [exact H |].
  destruct p as [|a p]; [reflexivity |].
  rewrite remove_empty_autoload_cons in H.
  assert (Hkeep : starts_with (a :: p) (c :: remove_empty_autoload 0 s) = true ->
                  starts_with (a :: p) (c :: s) = true).
  { cbn [starts_with]. intros Hk. apply andb_true_iff in Hk as [-> Hk].
    cbn [andb]. apply IH; [| exact Hk]. intros Hin. apply Hlf. now right. }
  destruct (starts_with autoload_header (c :: s)); [| now apply Hkeep].
  destruct (spaces_then section_or_end_follows _) as [k|] eqn:Hk; [| now apply Hkeep].
  exfalso. apply remove_empty_autoload_after in Hk as [Hk | [out Hk]];
    rewrite Hk in H; cbn [starts_with] in H; [discriminate |].
  apply andb_true_iff in H as [Ha _]. apply Ascii.eqb_eq in Ha. subst a.
  apply Hlf. now left.
Qed.

Lemma count_matches_skipn (p s : Text) (n : nat) :
  count_matches p s = 0 -> count_matches p (skipn n s) = 0.
Proof.
  intros H. pose proof (count_matches_suffix p (firstn n s) (skipn n s)) as Hle.
  rewrite List.firstn_skipn in Hle. lia.
Qed.

Lemma count_matches_remove_empty_autoload (p s : Text) :
  ~ In LF p -> count_matches p s = 0 ->
  count_matches p (remove_empty_autoload 0 s) = 0.
Proof.
  intros Hlf. induction s as [s IH] using (induction_ltof1 _ (@length ascii)).
  unfold ltof in IH. intros H. destruct s as [|c s]; [exact H |].
  assert (Hkeep : remove_empty_autoload 0 (c :: s) = c :: remove_empty_autoload 0 s ->
                  count_matches p (remove_empty_autoload 0 (c :: s)) = 0).
  { intros Heq.
    destruct (starts_with p (remove_empty_autoload 0 (c :: s))) eqn:Hs.
    - apply starts_with_remove_empty_autoload in Hs; [| exact Hlf].
      now rewrite (count_matches_here _ _ H) in Hs.
    - rewrite Heq in *. cbn [count_matches]. rewrite Hs.
      rewrite IH; [reflexivity | cbn; lia | now apply count_matches_tail in H]. }
  pose proof (remove_empty_autoload_cons c s) as Hcons.
  destruct (starts_with autoload_header (c :: s)); [| now apply Hkeep].
  destruct (spaces_then section_or_end_follows _) as [k|]; [| now apply Hkeep].
  rewrite Hcons. apply IH.
  - rewrite List.length_skipn. cbn. lia.
  - now apply count_matches_skipn.
Qed.

(** What [removeAutoloadEntry] writes holds the entry nowhere, when taking
    out the entries leaves none. *)
Lemma without_entry_none (entry content : Text) :
  entry <> [] -> ~ In LF entry ->
  count_matches entry (remove_entry 0 entry content) = 0 ->
  count_matches entry (without_entry entry content) = 0.
Proof.
  intros Hne Hlf H. unfold without_entry.
  apply (count_matches_remove_empty_autoload _ _ Hlf) in H.
  destruct (trimEnd_prefix (remove_empty_autoload 0 (remove_entry 0 entry content)))
    as (w & Hw & _).
  rewrite Hw in H. apply count_matches_zero_app in H as [H _]; [| exact Hne].
  rewrite (count_matches_sep entry LF _ [] Hlf), H.
  destruct entry; [contradiction | reflexivity].
Qed.

(** *** The registration of the listener in a project file *)

Lemma not_In_forallb (f : ascii -> bool) (l : Text) (c : ascii) :
  forallb (fun x => negb (f x)) l = true -> f c = true -> ~ In c l.
Proof.
  intros Hall Hc Hin. rewrite forallb_forall in Hall.
  specialize (Hall c Hin). now rewrite Hc in Hall.
Qed.

Lemma bridge_entry_no_space (c : ascii) : is_space c = true -> ~ In c bridge_entry.
Proof. intros Hc. eapply (not_In_forallb is_space); [reflexivity | exact Hc]. Qed.

Lemma bridge_entry_no_LF : ~ In LF bridge_entry.
Proof. now apply bridge_entry_no_space. Qed.

Lemma bridge_entry_no_terminator (c : ascii) :
  is_line_terminator c = true -> ~ In c bridge_entry.
Proof.
  intros Hc. eapply (not_In_forallb is_line_terminator); [reflexivity | exact Hc].
Qed.

Lemma bridge_entry_no_bracket : ~ In "["%char bridge_entry.
Proof.
  eapply (not_In_forallb (Ascii.eqb "[")); [reflexivity | apply Ascii.eqb_refl].
Qed.

Lemma bridge_entry_nonempty : bridge_entry <> [].
Proof. discriminate. Qed.

(** After the end of a line no entry reaches back over it. *)
Lemma count_after_line_end (post : Text) :
  at_line_end post = true -> count_matches bridge_entry post = 0 ->
  count_matches bridge_entry (bridge_entry ++ post) = 1.
Proof.
  intros Hend Hpost. destruct post as [|t post].
  - rewrite app_nil_r. reflexivity.
  - rewrite (count_matches_sep _ t _ _ (bridge_entry_no_terminator t Hend)).
    apply count_matches_tail in Hpost. rewrite Hpost. reflexivity.
Qed.

(** The project file with the registration put in, when it had none: the
    registration stands on a line of its own, once. *)
Lemma with_entry_shape (content : Text) :
  count_matches bridge_entry content = 0 ->
  exists x post,
    with_entry bridge_entry content = x ++ LF :: bridge_entry ++ post /\
    count_matches bridge_entry x = 0 /\ count_matches bridge_entry post = 0 /\
    at_line_end post = true.
Proof.
  intros H. unfold with_entry.
  destruct (replace_header_line true (autoload_header ++ [LF] ++ bridge_entry) content)
    as [replaced|] eqn:Hr.
  - apply replace_header_line_spec in Hr as (pre & mid & post & -> & -> & Hend).
    apply count_matches_zero_app in H as [Hpre H]; [| exact bridge_entry_nonempty].
    apply count_matches_zero_app in H as [_ Hpost]; [| exact bridge_entry_nonempty].
    exists (pre ++ autoload_header), post. repeat split; try assumption.
    + now rewrite <- !app_assoc.
    + change autoload_header with ("["%char :: txt "autoload]").
      rewrite (count_matches_sep _ _ _ _ bridge_entry_no_bracket), Hpre. reflexivity.
  - destruct (trimEnd_prefix content) as (w & Hw & _).
    rewrite Hw in H.
    apply count_matches_zero_app in H as [Htrim _]; [| exact bridge_entry_nonempty].
    exists (trimEnd content ++ LF :: LF :: autoload_header), [LF].
    repeat split.
    + now rewrite <- !app_assoc.
    + rewrite (count_matches_sep _ _ _ _ bridge_entry_no_LF), Htrim. reflexivity.
Qed.

(** Registered once. *)
Lemma with_entry_once (content : Text) :
  count_matches bridge_entry content = 0 ->
  count_matches bridge_entry (with_entry bridge_entry content) = 1.
Proof.
  intros H. destruct (with_entry_shape _ H) as (x & post & -> & Hx & Hpost & Hend).
  rewrite (count_matches_sep _ _ _ _ bridge_entry_no_LF), Hx.
  now rewrite count_after_line_end.
Qed.

(** Registered and removed again: no registration is left. *)
Lemma without_entry_with_entry (content : Text) :
  count_matches bridge_entry content = 0 ->
  count_matches bridge_entry
    (without_entry bridge_entry (with_entry bridge_entry content)) = 0.
Proof.
  intros H. destruct (with_entry_shape _ H) as (x & post & -> & Hx & Hpost & Hend).
  apply without_entry_none;
    [exact bridge_entry_nonempty | exact bridge_entry_no_LF |].
  rewrite (remove_entry_line _ _ _ bridge_entry_no_LF Hx Hpost).
  destruct post as [|t post]; [now rewrite app_nil_r |].
  rewrite (count_matches_sep _ t _ _ (bridge_entry_no_terminator t Hend)), Hx.
  now apply count_matches_tail in Hpost.
Qed.

(** *** Paths *)

Lemma append_cons (c : ascii) (a b : string) : String c a +:+ b = String c (a +:+ b).
Proof. reflexivity. Qed.

Lemma plain_name_slash (a b : string) : plain_name (a +:+ String "/" b) = false.
Proof.
  induction a as [|c a IH]; [reflexivity |].
  rewrite append_cons. cbn [plain_name]. rewrite IH. apply andb_false_r.
Qed.

(** Two joined paths are the same only for the same directory and name. *)
Lemma join_inj (a b x y : string) :
  plain_name x = true -> plain_name y = true ->
  join a x = join b y -> a = b /\ x = y.
Proof.
  unfold join. intros Hx Hy. revert b.
  induction a as [|c a IH]; intros [|c' b] H.
  - change (String "/" x = String "/" y) in H. injection H as ->. now split.
  - change (String "/" x = String c' (b +:+ String "/" y)) in H.
    injection H as _ Hrest. rewrite Hrest, plain_name_slash in Hx. discriminate.
  - change (String c (a +:+ String "/" x) = String "/" y) in H.
    injection H as _ Hrest. rewrite <- Hrest, plain_name_slash in Hy. discriminate.
  - change (String c (a +:+ String "/" x) = String c' (b +:+ String "/" y)) in H.
    injection H as -> Hrest. destruct (IH _ Hrest) as [-> ->]. now split.
Qed.

Lemma join_ne_name (a b x y : string) :
  plain_name x = true -> plain_name y = true -> x <> y -> join a x <> join b y.
Proof. intros Hx Hy Hne H. now apply join_inj in H as [_ ?]. Qed.

Lemma join_ne_dir (a b x : string) :
  plain_name x = true -> a <> b -> join a x <> join b x.
Proof. intros Hx Hne H. now apply join_inj in H as [? _]. Qed.

(** *** The disk *)

Lemma existsSync_file p d c : files d !! p = Some c -> existsSync p d = true.
Proof.
  intros H. unfold existsSync. rewrite bool_decide_eq_true_2; [reflexivity |].
  now exists c.
Qed.

Lemma existsSync_write_ne p q c d :
  p <> q -> existsSync q (writeFileSync p c d) = existsSync q d.
Proof. intros H. unfold existsSync, writeFileSync. cbn. now rewrite lookup_insert_ne. Qed.

Lemma existsSync_write_keeps p q c d :
  existsSync q d = true -> existsSync q (writeFileSync p c d) = true.
Proof.
  intros H. destruct (decide (p = q)) as [-> | Hne].
  - apply (existsSync_file _ _ c). cbn. apply lookup_insert_eq.
  - now rewrite existsSync_write_ne.
Qed.

Lemma existsSync_unlink_ne p q d :
  p <> q -> existsSync q (unlinkSync p d) = existsSync q d.
Proof. intros H. unfold existsSync, unlinkSync. cbn. now rewrite lookup_delete_ne. Qed.

Lemma existsSync_mkdir_keeps p q d :
  existsSync q d = true -> existsSync q (mkdirSync p d) = true.
Proof.
  unfold existsSync, mkdirSync. cbn. intros H.
  apply orb_true_iff in H as [H | H]; [now rewrite H |].
  apply orb_true_iff. right. apply bool_decide_eq_true. apply bool_decide_eq_true in H.
  now apply elem_of_union_r.
Qed.

Lemma existsSync_mkdir_same p d : existsSync p (mkdirSync p d) = true.
Proof.
  unfold existsSync, mkdirSync. cbn. apply orb_true_iff. right.
  apply bool_decide_eq_true. apply elem_of_union_l. now apply elem_of_singleton.
Qed.

Lemma remove_if_there_files p d :
  files (remove_if_there p d) = delete p (files d).
Proof.
  unfold remove_if_there. destruct (existsSync p d) eqn:H; [reflexivity |].
  cbn. symmetry. apply delete_id.
  unfold existsSync in H. apply orb_false_iff in H as [H _].
  apply bool_decide_eq_false in H. now apply eq_None_not_Some.
Qed.

Lemma remove_if_there_dirs p d : dirs (remove_if_there p d) = dirs d.
Proof. unfold remove_if_there. now destruct (existsSync p d). Qed.


(** *** Injection, part by part *)

Lemma injectBridgeAutoload_parts root s :
  injectBridgeAutoload root s
  = if bool_decide (root ∈ injectedProjects s) then (s, Returns tt)
    else
      let d1 := ensure_mcp_dir root (disk s) in
      match ensure_gitignore root d1 with
      | Throws message => (set_disk d1 s, Throws message)
      | Returns d2 =>
          let d3 := place_script root (bridgeScript s) d2 in
          match files d3 !! project_file root with
          | None => (set_disk d3 s, Throws "ENOENT: no such file or directory, open")
          | Some content =>
              if includes bridge_entry content
              then (set_injected ({[root]} ∪ injectedProjects s) (set_disk d3 s),
                    Returns tt)
              else (set_injected ({[root]} ∪ injectedProjects s)
                      (set_disk (writeFileSync (project_file root)
                                   (with_entry bridge_entry content) d3) s),
                    Returns tt)
          end
      end.
Proof. reflexivity. Qed.

Ltac names_differ :=
  match goal with
  | |- join (join _ _) _ <> join _ _ =>
      apply join_ne_name; [reflexivity | reflexivity | discriminate]
  | |- join _ _ <> join (join _ _) _ =>
      apply join_ne_name; [reflexivity | reflexivity | discriminate]
  | |- join _ _ <> join _ _ =>
      apply join_ne_name; [reflexivity | reflexivity | discriminate]
  end.

Lemma gdignore_ne root x :
  plain_name x = true -> x <> ".gdignore" -> gdignore_file root <> join root x.
Proof. intros Hx Hne. apply join_ne_name; [reflexivity | exact Hx | congruence]. Qed.

Lemma ensure_mcp_dir_prepared root d : prepared root (ensure_mcp_dir root d).
Proof.
  unfold prepared, ensure_mcp_dir.
  set (d1 := if existsSync (mcp_dir root) d then d else mkdirSync (mcp_dir root) d).
  assert (H1 : existsSync (mcp_dir root) d1 = true).
  { subst d1. destruct (existsSync (mcp_dir root) d) eqn:H;
      [exact H | apply existsSync_mkdir_same]. }
  destruct (existsSync (gdignore_file root) d1) eqn:H2; [now split |].
  split; [now apply existsSync_write_keeps |].
  apply (existsSync_file _ _ []). cbn. apply lookup_insert_eq.
Qed.



Lemma ensure_gitignore_returns root d d' :
  ensure_gitignore root d = Returns d' ->
  ignoring root d' /\ (prepared root d -> prepared root d').
Proof.
  unfold ensure_gitignore. intros H.
  destruct (existsSync (gitignore_file root) d) eqn:Hex.
  - destruct (files d !! gitignore_file root) as [g|] eqn:Hg; [| discriminate].
    destruct (includes mcpGitignoreEntry g) eqn:Hin; injection H as <-.
    + split; [now exists g | trivial].
    + split.
      * eexists. split; [cbn [files writeFileSync]; apply lookup_insert_eq |].
        pose proof (includes_mid mcpGitignoreEntry
                      (g ++ (if ends_with_LF g then [] else [LF])) [LF]) as Hmid.
        rewrite <- app_assoc in Hmid. exact Hmid.
      * intros [H1 H2]. split; now apply existsSync_write_keeps.
  - injection H as <-. split.
    + eexists. split; [cbn [files writeFileSync]; apply lookup_insert_eq |].
      exact (includes_mid mcpGitignoreEntry [] [LF]).
    + intros [H1 H2]. split; now apply existsSync_write_keeps.
Qed.

Lemma ensure_gitignore_throws root d message :
  ensure_gitignore root d = Throws message ->
  existsSync (gitignore_file root) d = true /\ files d !! gitignore_file root = None.
Proof.
  unfold ensure_gitignore. intros H.
  destruct (existsSync (gitignore_file root) d) eqn:Hex; [| discriminate].
  destruct (files d !! gitignore_file root) as [g|] eqn:Hg; [| now split].
  destruct (includes mcpGitignoreEntry g); discriminate.
Qed.

Lemma removeAutoloadEntry_parts root entryName scriptFilename d :
  removeAutoloadEntry root entryName scriptFilename d
  = remove_if_there (join root (scriptFilename +:+ ".uid"))
      (remove_if_there (join root scriptFilename)
         (clean_project_file root entryName scriptFilename d)).
Proof. reflexivity. Qed.

Lemma clean_project_file_files root entryName scriptFilename d :
  files (clean_project_file root entryName scriptFilename d)
  = match files d !! project_file root with
    | Some content =>
        if includes (autoload_entry entryName scriptFilename) content
        then <[project_file root :=
                 without_entry (autoload_entry entryName scriptFilename) content]>
               (files d)
        else files d
    | None => files d
    end.
Proof.
  unfold clean_project_file.
  destruct (files d !! project_file root) as [c|] eqn:Hc.
  - rewrite (existsSync_file _ _ _ Hc).
    now destruct (includes (autoload_entry entryName scriptFilename) c).
  - now destruct (existsSync (project_file root) d).
Qed.

Lemma clean_project_file_dirs root entryName scriptFilename d :
  dirs (clean_project_file root entryName scriptFilename d) = dirs d.
Proof.
  unfold clean_project_file.
  destruct (existsSync (project_file root) d); [| reflexivity].
  destruct (files d !! project_file root) as [c|]; [| reflexivity].
  now destruct (includes (autoload_entry entryName scriptFilename) c).
Qed.

(** [removeAutoloadEntry] on the files of a project. *)
Lemma removeAutoloadEntry_files root entryName scriptFilename d :
  files (removeAutoloadEntry root entryName scriptFilename d)
  = delete (join root (scriptFilename +:+ ".uid"))
      (delete (join root scriptFilename)
         (files (clean_project_file root entryName scriptFilename d))).
Proof.
  rewrite removeAutoloadEntry_parts. now rewrite !remove_if_there_files.
Qed.

Lemma removeAutoloadEntry_dirs root entryName scriptFilename d :
  dirs (removeAutoloadEntry root entryName scriptFilename d) = dirs d.
Proof.
  rewrite removeAutoloadEntry_parts.
  now rewrite !remove_if_there_dirs, clean_project_file_dirs.
Qed.

Lemma place_script_files root script d :
  files (place_script root script d)
  = <[bridge_script_file root := script]>
      (delete (legacy_uid_file root)
         (delete (legacy_script_file root)
            (files (clean_project_file root "McpScreenshotServer"
                      "mcp_screenshot_server.gd" d)))).
Proof.
  unfold place_script. cbn [files writeFileSync].
  now rewrite removeAutoloadEntry_files.
Qed.

Lemma place_script_dirs root script d : dirs (place_script root script d) = dirs d.
Proof. unfold place_script. cbn [dirs writeFileSync]. apply removeAutoloadEntry_dirs. Qed.

(** The third part leaves the files of other names alone. *)
Lemma place_script_other root script d q :
  q <> project_file root -> q <> legacy_script_file root ->
  q <> legacy_uid_file root -> q <> bridge_script_file root ->
  files (place_script root script d) !! q = files d !! q.
Proof.
  intros H1 H2 H3 H4. rewrite place_script_files.
  rewrite lookup_insert_ne by congruence.
  rewrite !lookup_delete_ne by congruence.
  rewrite clean_project_file_files.
  destruct (files d !! project_file root) as [c|]; [| reflexivity].
  destruct (includes _ c); [| reflexivity].
  now rewrite lookup_insert_ne by congruence.
Qed.

Lemma place_script_exists root script d q :
  q <> project_file root -> q <> legacy_script_file root ->
  q <> legacy_uid_file root -> q <> bridge_script_file root ->
  existsSync q (place_script root script d) = existsSync q d.
Proof.
  intros H1 H2 H3 H4. unfold existsSync.
  now rewrite place_script_other, place_script_dirs.
Qed.

Lemma place_script_project root script d :
  files (place_script root script d) !! project_file root
  = match files d !! project_file root with
    | Some content =>
        if includes (autoload_entry "McpScreenshotServer" "mcp_screenshot_server.gd")
             content
        then Some (without_entry
                     (autoload_entry "McpScreenshotServer" "mcp_screenshot_server.gd")
                     content)
        else Some content
    | None => None
    end.
Proof.
  rewrite place_script_files.
  rewrite lookup_insert_ne by (unfold bridge_script_file, project_file; names_differ).
  rewrite !lookup_delete_ne
    by (unfold legacy_uid_file, legacy_script_file, project_file; names_differ).
  rewrite clean_project_file_files.
  destruct (files d !! project_file root) as [c|] eqn:Hc; [| exact Hc].
  destruct (includes _ c); [apply lookup_insert_eq | exact Hc].
Qed.

Lemma place_script_prepared root script d :
  prepared root d -> prepared root (place_script root script d).
Proof.
  intros [H1 H2]. split.
  - rewrite place_script_exists; [exact H1 | ..];
      unfold mcp_dir, project_file, legacy_script_file, legacy_uid_file,
        bridge_script_file; names_differ.
  - rewrite place_script_exists; [exact H2 | ..];
      unfold gdignore_file, mcp_dir, project_file, legacy_script_file, legacy_uid_file,
        bridge_script_file; names_differ.
Qed.

Lemma place_script_ignoring root script d :
  ignoring root d -> ignoring root (place_script root script d).
Proof.
  intros (g & Hg & Hin). exists g. split; [| exact Hin].
  rewrite place_script_other; [exact Hg | ..];
    unfold gitignore_file, project_file, legacy_script_file, legacy_uid_file,
      bridge_script_file; names_differ.
Qed.


Lemma set_disk_twice d d' s : set_disk d (set_disk d' s) = set_disk d s.
Proof. reflexivity. Qed.




Lemma demo_file_a :
  files (disk demo_state) !! join "/games/a" "project.godot" = Some demo_project_a.
Proof. vm_compute. reflexivity. Qed.

Lemma demo_file_b :
  files (disk demo_state) !! join "/games/b" "project.godot" = Some demo_project_b.
Proof. vm_compute. reflexivity. Qed.


(** *** The bridge client *)

Lemma settled_ignores command timeoutMs ev c :
  settled c = true -> on_event command timeoutMs ev c = c.
Proof.
  intros H. destruct ev as [| msg | message | [message|]]; cbn; now rewrite ?H.
Qed.

Lemma run_events_settled command timeoutMs evs c :
  settled c = true -> run_events command timeoutMs evs c = c.
Proof.
  revert c. induction evs as [|ev evs IH]; intros c H; [reflexivity |].
  cbn [run_events fold_left]. rewrite (settled_ignores _ _ _ _ H).
  now apply IH.
Qed.

Lemma on_event_start command timeoutMs ev :
  let c := on_event command timeoutMs ev sendCommand_start in
  if settles ev
  then settled c = true /\ closes c = 1 /\ length (settlements c) = 1
  else c = sendCommand_start.
Proof.
  destruct ev as [| msg | message | [message|]]; cbn; auto.
Qed.

(** C9. Of the events of one call (the reply, an error of the socket or of
    the send, the timer), the first one that can settle the call settles it,
    and with it the call is as if that event had been the only one: the flag
    is set, the socket is closed once, the promise is resolved or rejected
    once.  A settled call ignores every further event; and as long as no
    such event has come the call is open and unsettled. *)
Theorem C9_first_outcome_settles (command : string) (timeoutMs : nat)
    (evs : list SocketEvent) :
  run_events command timeoutMs evs sendCommand_start
  = match List.find settles evs with
    | Some ev => on_event command timeoutMs ev sendCommand_start
    | None => sendCommand_start
    end
  /\ (forall ev,
        let c := on_event command timeoutMs ev sendCommand_start in
        if settles ev
        then settled c = true /\ closes c = 1 /\ length (settlements c) = 1
        else c = sendCommand_start)
  /\ (forall clear outcome c more,
        run_events command timeoutMs more (settle clear outcome c)
        = settle clear outcome c)
  /\ closes (run_events command timeoutMs evs sendCommand_start)
     = length (settlements (run_events command timeoutMs evs sendCommand_start))
  /\ length (settlements (run_events command timeoutMs evs sendCommand_start)) <= 1.
Proof.
  assert (Hrun : run_events command timeoutMs evs sendCommand_start
                 = match List.find settles evs with
                   | Some ev => on_event command timeoutMs ev sendCommand_start
                   | None => sendCommand_start
                   end).
  { induction evs as [|ev evs IH]; [reflexivity |].
    cbn [run_events fold_left List.find].
    pose proof (on_event_start command timeoutMs ev) as Hev. cbv zeta in Hev.
    destruct (settles ev).
    - destruct Hev as (Hs & _ & _). now apply run_events_settled.
    - rewrite Hev. exact IH. }
  split; [exact Hrun |]. split; [apply on_event_start |].
  split; [intros; now apply run_events_settled |].
  rewrite Hrun. destruct (List.find settles evs) as [ev|] eqn:Hfind.
  - apply List.find_some in Hfind as [_ Hs].
    pose proof (on_event_start command timeoutMs ev) as Hev. cbv zeta in Hev.
    rewrite Hs in Hev. destruct Hev as (_ & -> & ->). split; [reflexivity | lia].
  - split; [reflexivity | cbn; lia].
Qed.

(** *** Switching from one root to another *)

Ltac paths_differ :=
  unfold project_file, gitignore_file, gdignore_file, mcp_dir, bridge_script_file,
    bridge_uid_file, legacy_script_file, legacy_uid_file;
  first [ apply join_ne_name; [reflexivity | reflexivity | discriminate]
        | apply join_ne_dir; [reflexivity | congruence] ].

(** A file of one root is none of the files that an injection into another
    root touches. *)
Ltac other_root :=
  unfold touched_by_injection, project_file, gitignore_file, gdignore_file, mcp_dir,
    bridge_script_file, bridge_uid_file, legacy_script_file, legacy_uid_file;
  let H := fresh "H" in
  let Hd := fresh "Hd" in
  let Hn := fresh "Hn" in
  intros [H | [H | [H | [H | [H | H]]]]];
  (apply join_inj in H as [Hd Hn]; [| reflexivity | reflexivity]);
  first [ discriminate Hn | congruence ].

Lemma ensure_mcp_dir_files root d q :
  q <> gdignore_file root -> files (ensure_mcp_dir root d) !! q = files d !! q.
Proof.
  intros Hq. unfold ensure_mcp_dir.
  destruct (existsSync (mcp_dir root) d);
    match goal with
    | |- context [if ?c then _ else _] => destruct c
    end; cbn [files writeFileSync mkdirSync]; try reflexivity;
    now rewrite lookup_insert_ne by congruence.
Qed.

Lemma ensure_mcp_dir_dirs root d q :
  q ∈ dirs (ensure_mcp_dir root d) -> q ∈ dirs d \/ q = mcp_dir root.
Proof.
  unfold ensure_mcp_dir.
  destruct (existsSync (mcp_dir root) d);
    match goal with
    | |- context [if ?c then _ else _] => destruct c
    end; cbn [dirs writeFileSync mkdirSync]; intros H; auto;
    apply elem_of_union in H as [H | H]; auto;
    apply elem_of_singleton in H; auto.
Qed.

Lemma ensure_gitignore_frame root d d' q :
  ensure_gitignore root d = Returns d' ->
  dirs d' = dirs d /\ (q <> gitignore_file root -> files d' !! q = files d !! q).
Proof.
  unfold ensure_gitignore. intros H.
  destruct (existsSync (gitignore_file root) d).
  - destruct (files d !! gitignore_file root) as [g|]; [| discriminate].
    destruct (includes mcpGitignoreEntry g); injection H as <-; split;
      try reflexivity; intros Hq; cbn [files writeFileSync];
      now rewrite lookup_insert_ne by congruence.
  - injection H as <-. split; [reflexivity |]. intros Hq. cbn [files writeFileSync].
    now rewrite lookup_insert_ne by congruence.
Qed.

(** Injection into a root that is a project without any registration, the
    current or the legacy one: the registration is put in, the root is noted
    as injected, and no file of another name is touched. *)
Lemma injectBridgeAutoload_fresh root s content :
  root ∉ injectedProjects s ->
  files (disk s) !! project_file root = Some content ->
  includes bridge_entry content = false ->
  includes (autoload_entry "McpScreenshotServer" "mcp_screenshot_server.gd") content
  = false ->
  gitignore_file root ∉ dirs (disk s) ->
  exists d',
    fst (injectBridgeAutoload root s)
    = set_injected ({[root]} ∪ injectedProjects s) (set_disk d' s) /\
    files d' !! project_file root = Some (with_entry bridge_entry content) /\
    (forall q, ~ touched_by_injection root q -> files d' !! q = files (disk s) !! q) /\
    (forall q, q ∈ dirs d' -> q ∈ dirs (disk s) \/ q = mcp_dir root).
Proof.
  intros Hin Hpf Hentry Hlegacy Hgit.
  rewrite injectBridgeAutoload_parts.
  rewrite bool_decide_eq_false_2 by exact Hin. cbv zeta.
  set (d1 := ensure_mcp_dir root (disk s)).
  destruct (ensure_gitignore root d1) as [d2|message] eqn:Hd2.
  2:{ exfalso. apply ensure_gitignore_throws in Hd2 as [Hex Hnone].
      unfold existsSync in Hex. rewrite Hnone in Hex.
      rewrite bool_decide_eq_false_2 in Hex by (intros [? ?]; discriminate).
      cbn [orb] in Hex. apply bool_decide_eq_true in Hex.
      apply ensure_mcp_dir_dirs in Hex as [Hex | Hex]; [contradiction |].
      revert Hex. paths_differ. }
  pose proof (fun q => ensure_gitignore_frame root d1 d2 q Hd2) as Hframe2.
  assert (Hpf2 : files d2 !! project_file root = Some content).
  { rewrite (proj2 (Hframe2 _)) by paths_differ.
    subst d1. rewrite ensure_mcp_dir_files by paths_differ. exact Hpf. }
  pose proof (place_script_project root (bridgeScript s) d2) as Hpf3.
  rewrite Hpf2, Hlegacy in Hpf3.
  set (d3 := place_script root (bridgeScript s) d2) in *.
  rewrite Hpf3, Hentry. cbn [fst].
  exists (writeFileSync (project_file root) (with_entry bridge_entry content) d3).
  split; [reflexivity |]. split; [cbn [files writeFileSync]; apply lookup_insert_eq |].
  split.
  - intros q Hq. unfold touched_by_injection in Hq.
    assert (Hq' : q <> gdignore_file root /\ q <> gitignore_file root /\
                  q <> project_file root /\ q <> legacy_script_file root /\
                  q <> legacy_uid_file root /\ q <> bridge_script_file root) by tauto.
    destruct Hq' as (N1 & N2 & N3 & N4 & N5 & N6).
    cbn [files writeFileSync]. rewrite lookup_insert_ne by congruence.
    subst d3. rewrite place_script_other by assumption.
    rewrite (proj2 (Hframe2 q)) by assumption.
    subst d1. now rewrite ensure_mcp_dir_files by assumption.
  - intros q Hq. cbn [dirs writeFileSync] in Hq. subst d3.
    rewrite place_script_dirs, (proj1 (Hframe2 q)) in Hq.
    now apply ensure_mcp_dir_dirs.
Qed.

(** Removal from a root whose project file holds the registration. *)
Lemma removeAutoloadEntry_bridge root d content :
  files d !! project_file root = Some content ->
  includes bridge_entry content = true ->
  let d' := removeAutoloadEntry root "McpBridge" "mcp_bridge.gd" d in
  files d' !! project_file root = Some (without_entry bridge_entry content) /\
  files d' !! bridge_script_file root = None /\
  dirs d' = dirs d /\
  (forall q, q <> project_file root -> q <> bridge_script_file root ->
             q <> bridge_uid_file root -> files d' !! q = files d !! q).
Proof.
  intros Hpf Hentry d'. subst d'.
  rewrite removeAutoloadEntry_dirs, removeAutoloadEntry_files, clean_project_file_files.
  rewrite Hpf. fold bridge_entry. rewrite Hentry.
  fold (bridge_uid_file root). fold (bridge_script_file root).
  repeat split.
  - rewrite !lookup_delete_ne by paths_differ. apply lookup_insert_eq.
  - rewrite lookup_delete_ne by paths_differ. apply lookup_delete_eq.
  - intros q H1 H2 H3. rewrite !lookup_delete_ne by congruence.
    now rewrite lookup_insert_ne by congruence.
Qed.

Lemma runProject_idle root scene s g :
  godotPath s = Some g -> activeProcess s = None ->
  let s' := fst (runProject root scene s) in
  disk s' = disk (fst (injectBridgeAutoload root s)) /\
  injectedProjects s' = injectedProjects (fst (injectBridgeAutoload root s)) /\
  godotPath s' = godotPath (fst (injectBridgeAutoload root s)) /\
  activeProjectPath s' = Some root /\
  exists proc, activeProcess s' = Some proc.
Proof.
  intros Hg Hidle. unfold runProject. rewrite Hg, Hidle. cbn.
  repeat split. eexists. reflexivity.
Qed.

Lemma runProject_switch root scene s g proc old :
  godotPath s = Some g -> activeProcess s = Some proc ->
  activeProjectPath s = Some old -> old <> "" -> old <> root ->
  let s' := fst (runProject root scene s) in
  let cleaned := cleanupBridgeAutoload old (kill proc s) in
  disk s' = disk (fst (injectBridgeAutoload root cleaned)) /\
  injectedProjects s' = injectedProjects (fst (injectBridgeAutoload root cleaned)).
Proof.
  intros Hg Hproc Hold Hne Hother. unfold runProject. rewrite Hg, Hproc.
  cbn [activeProjectPath kill]. rewrite Hold.
  apply String.eqb_neq in Hne. rewrite Hne.
  rewrite bool_decide_eq_true_2 by exact Hother. cbn. now split.
Qed.

Lemma injectBridgeAutoload_godotPath root s :
  godotPath (fst (injectBridgeAutoload root s)) = godotPath s.
Proof.
  rewrite injectBridgeAutoload_parts.
  destruct (bool_decide _); [reflexivity |]. cbv zeta.
  destruct (ensure_gitignore _ _); [| reflexivity].
  destruct (files _ !! _) as [c|]; [| reflexivity].
  now destruct (includes bridge_entry c).
Qed.

(** What the proofs use of an ordinary root. *)
Lemma ordinary_root_spec (root : string) (d : Disk) :
  ordinary_root root d = true ->
  root <> "" /\ join root ".gitignore" ∉ dirs d.
Proof.
  unfold ordinary_root. intros H.
  apply andb_true_iff in H as [H _].
  apply andb_true_iff in H as [H Hgit].
  apply andb_true_iff in H as [H _].
  apply andb_true_iff in H as [Hnormal _].
  split.
  - intros ->. discriminate Hnormal.
  - apply negb_true_iff in Hgit. now apply bool_decide_eq_false in Hgit.
Qed.

(** C4. The runner is idle and has its engine; A and B are two different
    ordinary roots (directories with absolute names in normal form, in which [.mcp]
    is no regular file and [.gitignore] and [mcp_bridge.gd] are no
    directories), each with a project file that holds no registration,
    neither of the listener nor of the legacy screenshot server.  After
    run-project on A and then on B, without a stop between them: the project
    file of A holds no registration of the listener, the listener script and
    its uid file are not in A, the project file of B holds the registration
    exactly once, and of the two only B is noted as injected. *)
Theorem C4_switching_roots (s : State) (A B : string) (sceneA sceneB : option string)
    (contentA contentB : Text) :
  A <> B ->
  ordinary_root A (disk s) = true -> ordinary_root B (disk s) = true ->
  is_Some (godotPath s) -> activeProcess s = None ->
  A ∉ injectedProjects s -> B ∉ injectedProjects s ->
  files (disk s) !! join A "project.godot" = Some contentA ->
  files (disk s) !! join B "project.godot" = Some contentB ->
  includes bridge_entry contentA = false -> includes legacy_entry contentA = false ->
  includes bridge_entry contentB = false -> includes legacy_entry contentB = false ->
  let s' := fst (runProject B sceneB (fst (runProject A sceneA s))) in
  (exists fileA, files (disk s') !! join A "project.godot" = Some fileA /\
                 count_matches bridge_entry fileA = 0)
  /\ files (disk s') !! join A "mcp_bridge.gd" = None
  /\ files (disk s') !! join A "mcp_bridge.gd.uid" = None
  /\ (exists fileB, files (disk s') !! join B "project.godot" = Some fileB /\
                    count_matches bridge_entry fileB = 1)
  /\ (A ∉ injectedProjects s') /\ (B ∈ injectedProjects s').
Proof.
  intros HAB HordA HordB [g Hg] Hidle HinA HinB HpfA HpfB HeA HlA HeB HlB.
  destruct (ordinary_root_spec _ _ HordA) as (HA & HgitA).
  destruct (ordinary_root_spec _ _ HordB) as (_ & HgitB).
  (* run-project on A *)
  destruct (runProject_idle A sceneA s g Hg Hidle)
    as (Hdisk1 & Hinj1 & Hgodot1 & Hactive1 & proc & Hproc1).
  destruct (injectBridgeAutoload_fresh A s contentA HinA HpfA HeA HlA HgitA)
    as (dA & HsA & HfileA & HframeA & HdirsA).
  set (s1 := fst (runProject A sceneA s)) in *.
  rewrite HsA in Hdisk1, Hinj1. cbn in Hdisk1, Hinj1.
  rewrite injectBridgeAutoload_godotPath in Hgodot1.
  (* run-project on B: the registration of A is removed *)
  assert (Hg1 : godotPath s1 = Some g) by congruence.
  destruct (runProject_switch B sceneB s1 g proc A Hg1 Hproc1 Hactive1 HA HAB)
    as (Hdisk2 & Hinj2).
  set (cleaned := cleanupBridgeAutoload A (kill proc s1)) in *.
  assert (HonceA : includes bridge_entry (with_entry bridge_entry contentA) = true).
  { rewrite includes_count, with_entry_once; [reflexivity |].
    now apply includes_false_count. }
  destruct (removeAutoloadEntry_bridge A dA _ HfileA HonceA)
    as (HcleanA & HscriptA & HdirsC & HframeC).
  assert (Hcdisk : disk cleaned = removeAutoloadEntry A "McpBridge" "mcp_bridge.gd" dA).
  { subst cleaned. unfold cleanupBridgeAutoload. cbn. now rewrite Hdisk1. }
  assert (Hcinj : injectedProjects cleaned = ({[A]} ∪ injectedProjects s) ∖ {[A]}).
  { subst cleaned. unfold cleanupBridgeAutoload. cbn. now rewrite Hinj1. }
  assert (HuidA : files (disk cleaned) !! bridge_uid_file A = None).
  { rewrite Hcdisk, removeAutoloadEntry_files. apply lookup_delete_eq. }
  (* ... and the listener is injected into B *)
  assert (HinB' : B ∉ injectedProjects cleaned).
  { rewrite Hcinj. intros Hin. apply elem_of_difference in Hin as [Hin _].
    apply elem_of_union in Hin as [Hin | Hin]; [| contradiction].
    apply elem_of_singleton in Hin. congruence. }
  assert (HpfB' : files (disk cleaned) !! project_file B = Some contentB).
  { rewrite Hcdisk, HframeC by paths_differ.
    rewrite HframeA; [exact HpfB |]. now other_root. }
  assert (HgitB' : gitignore_file B ∉ dirs (disk cleaned)).
  { rewrite Hcdisk, HdirsC. intros Hin. apply HdirsA in Hin as [Hin | Hin];
      [contradiction |]. revert Hin. paths_differ. }
  destruct (injectBridgeAutoload_fresh B cleaned contentB HinB' HpfB' HeB HlB HgitB')
    as (dB & HsB & HfileB & HframeB & _).
  rewrite HsB in Hdisk2, Hinj2. cbn in Hdisk2, Hinj2.
  cbv zeta. fold s1. rewrite Hdisk2, Hinj2.
  fold (project_file A) (project_file B) (bridge_script_file A).
  change (join A "mcp_bridge.gd.uid") with (bridge_uid_file A).
  repeat split.
  - exists (without_entry bridge_entry (with_entry bridge_entry contentA)). split.
    + rewrite HframeB by now other_root. now rewrite Hcdisk.
    + apply without_entry_with_entry. now apply includes_false_count.
  - rewrite HframeB by now other_root. now rewrite Hcdisk.
  - rewrite HframeB by now other_root. exact HuidA.
  - exists (with_entry bridge_entry contentB). split; [exact HfileB |].
    apply with_entry_once. now apply includes_false_count.
  - intros Hin. apply elem_of_union in Hin as [Hin | Hin].
    + apply elem_of_singleton in Hin. congruence.
    + apply elem_of_difference in Hin as [_ Hin]. apply Hin.
      now apply elem_of_singleton.
  - apply elem_of_union_l. now apply elem_of_singleton.
Qed.

(** The two projects of [demo_state], run one after the other. *)
Lemma C4_witness :
  (exists fileA,
      files (disk demo_switched) !! join "/games/a" "project.godot" = Some fileA
      /\ count_matches bridge_entry fileA = 0)
  /\ files (disk demo_switched) !! join "/games/a" "mcp_bridge.gd" = None
  /\ files (disk demo_switched) !! join "/games/a" "mcp_bridge.gd.uid" = None
  /\ (exists fileB,
        files (disk demo_switched) !! join "/games/b" "project.godot" = Some fileB
        /\ count_matches bridge_entry fileB = 1)
  /\ ("/games/a" ∉ injectedProjects demo_switched)
  /\ ("/games/b" ∈ injectedProjects demo_switched).
Proof.
  apply (C4_switching_roots demo_state "/games/a" "/games/b" None
           (Some "main.tscn") demo_project_a demo_project_b).
  - discriminate.
  - vm_compute. reflexivity.
  - vm_compute. reflexivity.
  - eexists. reflexivity.
  - reflexivity.
  - apply not_elem_of_empty.
  - apply not_elem_of_empty.
  - exact demo_file_a.
  - exact demo_file_b.
  - vm_compute. reflexivity.
  - vm_compute. reflexivity.
  - vm_compute. reflexivity.
  - vm_compute. reflexivity.
Defined.

End RunnerProps.

(** * Properties of the tool handlers *)

Module ToolsProps.
Import Runner Tools Output UidTools.

Lemma validatePath_spec (path : string) :
  validatePath path = true <-> path <> "" /\ Str.includes ".." path = false.
Proof.
  unfold validatePath. rewrite negb_true_iff, orb_false_iff.
  split; intros [Hempty Hdots]; split; try assumption.
  - now apply String.eqb_neq.
  - now apply String.eqb_neq.
Qed.

Lemma validatePath_empty : validatePath "" = false.
Proof. reflexivity. Qed.

Lemma failing_string (path : string) :
  validatePath path = false -> validatePath_of (Some (JString path)) = Returns false.
Proof.
  intros H. unfold validatePath_of. cbn [falsy].
  destruct (String.eqb path ""); [reflexivity | now rewrite H].
Qed.

Lemma validatePath_of_string (path : string) :
  validatePath_of (Some (JString path)) = Returns true -> validatePath path = true.
Proof.
  unfold validatePath_of. cbn [falsy]. destruct (String.eqb path ""); [discriminate |].
  now intros [= ->].
Qed.

Lemma as_path_inv (v : option JsValue) (path : string) :
  as_path v = Returns path -> v = Some (JString path).
Proof.
  destruct v as [[| b | shown | s | items | fields] |]; cbn; intros H;
    try discriminate; [now injection H as -> |].
  unfold invalid_path_argument in H. now destruct (instance_of fields).
Qed.

Lemma both_valid_left (a b : option JsValue) :
  validatePath_of a = Returns false -> both_valid a b = Returns false.
Proof. intros H. unfold both_valid. now rewrite H. Qed.

Lemma both_valid_right (a b : option JsValue) :
  validatePath_of b = Returns false -> both_valid a b <> Returns true.
Proof.
  intros H. unfold both_valid. rewrite H.
  now destruct (validatePath_of a) as [[|] | message].
Qed.

Lemma with_project_project (a : OperationParams) (d : Disk) (ops : string) next path :
  validatePath path = false -> carries a "projectPath" path ->
  turned_down (with_project a d ops next) = true.
Proof.
  unfold carries. intros Hpath Hget. unfold with_project.
  destruct (falsy (get a "operation")); [reflexivity |].
  destruct (falsy (get a "projectPath") || falsy (get a "scenePath")); [reflexivity |].
  rewrite both_valid_left; [reflexivity |]. rewrite Hget. now apply failing_string.
Qed.

Lemma refuses_caught (what : string) (operation : option JsValue) (body : Completion Handled) :
  refuses body -> refuses (try_catch body (caught what operation)).
Proof.
  unfold refuses. destruct body as [h | message]; cbn [try_catch]; [auto |].
  intros _. unfold caught. now destruct (text_of operation).
Qed.

Lemma with_project_next (a : OperationParams) (d : Disk) (ops : string)
    (next : string -> Completion Handled) :
  (forall projectPath, refuses (next projectPath)) ->
  turned_down (with_project a d ops next) = true.
Proof.
  intros Hnext. unfold with_project.
  destruct (falsy (get a "operation")); [reflexivity |].
  destruct (falsy (get a "projectPath") || falsy (get a "scenePath")); [reflexivity |].
  destruct (both_valid _ _) as [[|] | message]; cbn; try reflexivity.
  destruct (as_path _) as [projectPath | message]; cbn; [| reflexivity].
  destruct (existsSync _ _); cbn; [| reflexivity]. apply Hnext.
Qed.

Lemma with_project_scene (a : OperationParams) (d : Disk) (ops : string) next path :
  validatePath path = false -> carries a "scenePath" path ->
  turned_down (with_project a d ops next) = true.
Proof.
  unfold carries. intros Hpath Hget. unfold with_project.
  destruct (falsy (get a "operation")); [reflexivity |].
  destruct (falsy (get a "projectPath") || falsy (get a "scenePath")); [reflexivity |].
  pose proof (both_valid_right (get a "projectPath") (get a "scenePath")) as Hboth.
  rewrite Hget in Hboth at 1. specialize (Hboth (failing_string _ Hpath)).
  destruct (both_valid _ _) as [[|] | message]; cbn; congruence.
Qed.

Lemma manage_scene_operation_refuses (a : OperationParams) (projectPath path : string) (d : Disk) :
  validatePath path = false ->
  (get a "operation" = Some (JString "load_sprite")
   /\ (carries a "nodePath" path \/ carries a "texturePath" path))
  \/ (get a "operation" = Some (JString "export_mesh_library")
      /\ carries a "outputPath" path)
  \/ (get a "operation" = Some (JString "save")
      /\ carries a "newPath" path /\ path <> "") ->
  refuses (manage_scene_operation (get a "operation") projectPath a d).
Proof.
  unfold carries. intros Hpath Hcarried. unfold refuses, manage_scene_operation.
  destruct Hcarried as [[-> Hload] | [[-> Hout] | (-> & Hnew & Hne)]]; cbn.
  - destruct (falsy (get a "nodePath") || falsy (get a "texturePath")); [reflexivity |].
    assert (Hboth : both_valid (get a "nodePath") (get a "texturePath") <> Returns true).
    { destruct Hload as [Hget | Hget].
      - rewrite both_valid_left; [discriminate |]. rewrite Hget. now apply failing_string.
      - apply both_valid_right. rewrite Hget. now apply failing_string. }
    destruct (both_valid _ _) as [[|] | message]; cbn; congruence.
  - destruct (falsy (get a "outputPath")); [reflexivity |].
    rewrite Hout, (failing_string _ Hpath). reflexivity.
  - rewrite Hnew. cbn [falsy]. apply String.eqb_neq in Hne. rewrite Hne.
    rewrite (failing_string _ Hpath). reflexivity.
Qed.

Lemma handleManageScene_refuses (args : OperationParams) (d : Disk) (path : string) :
  let a := normalizeParameters args in
  validatePath path = false ->
  carries a "projectPath" path \/ carries a "scenePath" path
  \/ (get a "operation" = Some (JString "load_sprite")
      /\ (carries a "nodePath" path \/ carries a "texturePath" path))
  \/ (get a "operation" = Some (JString "export_mesh_library")
      /\ carries a "outputPath" path)
  \/ (get a "operation" = Some (JString "save")
      /\ carries a "newPath" path /\ path <> "") ->
  turned_down (handleManageScene args d) = true.
Proof.
  intros a Hpath Hcarried. unfold handleManageScene. cbv zeta. fold a.
  destruct Hcarried as [Hget | [Hget | Hrest]].
  - now apply (with_project_project a d _ _ path).
  - now apply (with_project_scene a d _ _ path).
  - apply with_project_next. intros projectPath. unfold refuses.
    destruct (if strictly _ _ then _ else _) as [[|] | message]; cbn; try reflexivity.
    + now destruct (as_path _).
    + apply refuses_caught. now apply (manage_scene_operation_refuses a projectPath path).
Qed.

Lemma manage_node_operation_refuses (a : OperationParams) (projectPath path : string) (d : Disk) :
  validatePath path = false ->
  (get a "operation" = Some (JString "attach_script") /\ carries a "scriptPath" path)
  \/ (get a "operation" = Some (JString "list")
      /\ carries a "parentPath" path /\ path <> "") ->
  refuses (manage_node_operation (get a "operation") projectPath a d).
Proof.
  unfold carries. intros Hpath Hcarried. unfold refuses, manage_node_operation.
  destruct Hcarried as [[-> Hscript] | (-> & Hparent & Hne)]; cbn.
  - destruct (falsy (get a "scriptPath")); [reflexivity |].
    rewrite Hscript, (failing_string _ Hpath). reflexivity.
  - rewrite Hparent. cbn [falsy]. apply String.eqb_neq in Hne. rewrite Hne.
    rewrite (failing_string _ Hpath). reflexivity.
Qed.

Lemma handleManageNode_refuses (args : OperationParams) (d : Disk) (path : string) :
  let a := normalizeParameters args in
  validatePath path = false ->
  carries a "projectPath" path \/ carries a "scenePath" path
  \/ (needsNodePath (get a "operation") = true /\ carries a "nodePath" path)
  \/ (get a "operation" = Some (JString "attach_script") /\ carries a "scriptPath" path)
  \/ (get a "operation" = Some (JString "list")
      /\ carries a "parentPath" path /\ path <> "") ->
  turned_down (handleManageNode args d) = true.
Proof.
  intros a Hpath Hcarried. unfold handleManageNode. cbv zeta. fold a.
  destruct Hcarried as [Hget | [Hget | Hrest]].
  - now apply (with_project_project a d _ _ path).
  - now apply (with_project_scene a d _ _ path).
  - apply with_project_next. intros projectPath. unfold refuses.
    destruct (as_path _) as [scenePath | message]; cbn; [| reflexivity].
    destruct (existsSync _ _); cbn; [| reflexivity].
    destruct Hrest as [[Hneeds Hnode] | Hrest].
    + rewrite Hneeds. unfold carries in Hnode. rewrite Hnode.
      destruct (falsy _); cbn; [now destruct (text_of _) |].
      now rewrite (failing_string _ Hpath).
    + assert (Hgoes : refuses (try_catch (manage_node_operation (get a "operation")
                                            projectPath a d)
                                 (caught "node" (get a "operation")))).
      { apply refuses_caught.
        now apply (manage_node_operation_refuses a projectPath path). }
      destruct (needsNodePath _); cbn; [| exact Hgoes].
      destruct (falsy _); cbn; [now destruct (text_of _) |].
      destruct (validatePath_of _) as [[|] | message]; cbn; try reflexivity.
      exact Hgoes.
Qed.

Lemma handleLaunchEditor_refuses (args : OperationParams) (godotPath : option string)
    (detected : Completion (option string)) (d : Disk) (path : string) :
  validatePath path = false ->
  carries (normalizeParameters args) "projectPath" path ->
  turned_down (handleLaunchEditor args godotPath detected d) = true
  /\ forall godotPath' detected',
      handleLaunchEditor args godotPath' detected' d
      = handleLaunchEditor args godotPath detected d.
Proof.
  unfold carries. intros Hpath Hget. unfold handleLaunchEditor. cbv zeta.
  rewrite Hget. destruct (falsy _); [now split |].
  rewrite (failing_string _ Hpath). now split.
Qed.

Lemma handleListProjects_refuses (args : OperationParams) (d : Disk) (path : string) :
  validatePath path = false ->
  carries (normalizeParameters args) "directory" path ->
  turned_down (handleListProjects args d) = true.
Proof.
  unfold carries. intros Hpath Hget. unfold handleListProjects. cbv zeta.
  rewrite Hget. destruct (falsy _); [reflexivity |].
  now rewrite (failing_string _ Hpath).
Qed.

Lemma handleGetProjectInfo_refuses (args : OperationParams) (version : Completion string)
    (d : Disk) (path : string) :
  validatePath path = false ->
  carries (normalizeParameters args) "projectPath" path -> path <> "" ->
  turned_down (handleGetProjectInfo args version d) = true.
Proof.
  unfold carries. intros Hpath Hget Hne. unfold handleGetProjectInfo. cbv zeta.
  rewrite Hget. cbn [falsy]. apply String.eqb_neq in Hne. rewrite Hne.
  rewrite (failing_string _ Hpath). now destruct version.
Qed.

Lemma handleRunProject_rejects (args : OperationParams) (s : State) (path : string) :
  validatePath path = false ->
  carries (normalizeParameters args) "projectPath" path ->
  exists message solutions,
    handleRunProject args s = Some (s, ErrorResponse message solutions).
Proof.
  unfold carries. intros Hpath Hget. unfold handleRunProject. cbv zeta. rewrite Hget.
  destruct (falsy _); [eauto |]. rewrite (failing_string _ Hpath). eauto.
Qed.

Lemma handleManageUids_project (args : OperationParams) (version : Completion string)
    (d : Disk) (path : string) :
  validatePath path = false ->
  carries (normalizeParameters args) "projectPath" path ->
  turned_down (handleManageUids args version d) = true
  /\ forall version', handleManageUids args version' d = handleManageUids args version d.
Proof.
  unfold carries. intros Hpath Hget. unfold handleManageUids. cbv zeta. rewrite Hget.
  destruct (falsy (get _ "operation")); [now split |].
  destruct (falsy _); [now split |].
  rewrite (failing_string _ Hpath). now split.
Qed.

Lemma handleManageUids_file (args : OperationParams) (version : Completion string)
    (d : Disk) (path : string) :
  validatePath path = false ->
  get (normalizeParameters args) "operation" = Some (JString "get") ->
  carries (normalizeParameters args) "filePath" path ->
  turned_down (handleManageUids args version d) = true.
Proof.
  unfold carries. intros Hpath Hop Hget. unfold handleManageUids. cbv zeta.
  rewrite Hop, Hget. cbn [falsy String.eqb Ascii.eqb Bool.eqb].
  set (a := normalizeParameters args) in *.
  destruct (falsy (get a "projectPath")); [reflexivity |].
  destruct (validatePath_of (get a "projectPath")) as [[|] | message]; cbn;
    try reflexivity.
  destruct (as_path (get a "projectPath")) as [projectPath | message]; cbn;
    [| reflexivity].
  destruct (existsSync _ _); cbn; [| reflexivity].
  destruct version as [v | message]; cbn; [| reflexivity].
  destruct (isGodot44OrLater _); cbn; [| reflexivity].
  destruct (String.eqb path ""); cbn; [reflexivity |].
  now rewrite (failing_string _ Hpath).
Qed.

(** C10.  [validatePath] accepts a string exactly when it is not empty and
    does not contain [..].  A call that has a string failing this check in
    one of the places that a handler checks is turned down, whatever is on
    the disk and whatever the other arguments are: the handler answers with
    an error or throws, and hands nothing to the engine.  The places are the
    project path of [manage_scene], [manage_node], [manage_uids],
    [launch_editor], [get_project_info] (when it is not empty) and
    [run_project], which leaves the runner as it was; the directory of
    [list_projects]; the scene path of [manage_scene] and [manage_node]; the
    node path and the texture path of [load_sprite], the output path of
    [export_mesh_library] and the non-empty new path of [save]; the node
    path of [delete], [update_property], [get_properties] and
    [attach_script], the script path of [attach_script] and the non-empty
    parent path of [list]; the file path of [get] of [manage_uids].  With a
    failing project path the answers of [manage_uids] and of [launch_editor]
    depend neither on what the engine says of its version nor on where the
    engine is found: they are given before the engine is looked for. *)
Theorem C10_failing_paths (path : string) (args : OperationParams) (d : Disk)
    (s : State) (godotPath : option string) (detected : Completion (option string))
    (version : Completion string) :
  let a := normalizeParameters args in
  (validatePath path = true <-> path <> "" /\ Str.includes ".." path = false)
  /\ (validatePath path = false ->
      (carries a "projectPath" path \/ carries a "scenePath" path
       \/ (get a "operation" = Some (JString "load_sprite")
           /\ (carries a "nodePath" path \/ carries a "texturePath" path))
       \/ (get a "operation" = Some (JString "export_mesh_library")
           /\ carries a "outputPath" path)
       \/ (get a "operation" = Some (JString "save")
           /\ carries a "newPath" path /\ path <> "") ->
       turned_down (handleManageScene args d) = true)
      /\ (carries a "projectPath" path \/ carries a "scenePath" path
          \/ (needsNodePath (get a "operation") = true /\ carries a "nodePath" path)
          \/ (get a "operation" = Some (JString "attach_script")
              /\ carries a "scriptPath" path)
          \/ (get a "operation" = Some (JString "list")
              /\ carries a "parentPath" path /\ path <> "") ->
          turned_down (handleManageNode args d) = true)
      /\ (carries a "projectPath" path
          \/ (get a "operation" = Some (JString "get") /\ carries a "filePath" path) ->
          turned_down (handleManageUids args version d) = true)
      /\ (carries a "projectPath" path ->
          (forall version', handleManageUids args version' d
                            = handleManageUids args version d)
          /\ (forall godotPath' detected',
                handleLaunchEditor args godotPath' detected' d
                = handleLaunchEditor args godotPath detected d)
          /\ turned_down (handleLaunchEditor args godotPath detected d) = true
          /\ (path <> "" -> turned_down (handleGetProjectInfo args version d) = true)
          /\ exists message solutions,
              handleRunProject args s = Some (s, ErrorResponse message solutions))
      /\ (carries a "directory" path ->
          turned_down (handleListProjects args d) = true)).
Proof.
  intros a. split; [apply validatePath_spec |]. intros Hpath.
  split; [now apply (handleManageScene_refuses args d path) |].
  split; [now apply (handleManageNode_refuses args d path) |].
  split; [| split].
  - intros [Hget | [Hop Hget]].
    + now apply (handleManageUids_project args version d path).
    + now apply (handleManageUids_file args version d path).
  - intros Hget. split; [| split; [| split; [| split]]].
    + now apply (handleManageUids_project args version d path).
    + now apply (handleLaunchEditor_refuses args godotPath detected d path).
    + now apply (handleLaunchEditor_refuses args godotPath detected d path).
    + now apply (handleGetProjectInfo_refuses args version d path).
    + now apply (handleRunProject_rejects args s path).
  - now apply (handleListProjects_refuses args d path).
Qed.

(** Calls that are turned down, one for each handler that takes a path. *)
Lemma C10_witness :
  turned_down (handleManageScene demo_scene_args demo_disk) = true
  /\ turned_down (handleManageNode demo_node_args demo_project_disk) = true
  /\ turned_down (handleManageUids demo_uid_path_args (Returns "4.4.1.stable") demo_disk)
     = true
  /\ turned_down (handleLaunchEditor demo_editor_args (Some "/usr/bin/godot")
                    (Returns None) demo_disk) = true
  /\ turned_down (handleGetProjectInfo demo_info_args (Returns "4.4.1.stable") demo_disk)
     = true
  /\ (exists message solutions,
        handleRunProject demo_info_args demo_state
        = Some (demo_state, ErrorResponse message solutions))
  /\ turned_down (handleListProjects demo_list_args demo_disk) = true.
Proof.
  pose (version := Returns "4.4.1.stable" : Completion string).
  pose (engine := Some "/usr/bin/godot" : option string).
  pose (detected := Returns None : Completion (option string)).
  split.
  { destruct (C10_failing_paths "../main.tscn" demo_scene_args demo_disk demo_state
                engine detected version) as (_ & H).
    destruct (H eq_refl) as (Hscene & _). apply Hscene. right. left. reflexivity. }
  split.
  { destruct (C10_failing_paths "root/../.." demo_node_args demo_project_disk demo_state
                engine detected version) as (_ & H).
    destruct (H eq_refl) as (_ & Hnode & _). apply Hnode. right. right. left.
    split; reflexivity. }
  split.
  { destruct (C10_failing_paths "../b/project.godot" demo_uid_path_args demo_disk
                demo_state engine detected version) as (_ & H).
    destruct (H eq_refl) as (_ & _ & Huid & _). apply Huid. right. split; reflexivity. }
  split.
  { destruct (C10_failing_paths "/games/a/.." demo_editor_args demo_disk demo_state
                engine detected version) as (_ & H).
    destruct (H eq_refl) as (_ & _ & _ & Hproject & _).
    destruct (Hproject eq_refl) as (_ & _ & Heditor & _). exact Heditor. }
  destruct (C10_failing_paths "../a" demo_info_args demo_disk demo_state
              engine detected version) as (_ & H).
  destruct (H eq_refl) as (_ & _ & _ & Hproject & _).
  destruct (Hproject eq_refl) as (_ & _ & _ & Hinfo & Hrun).
  split; [apply Hinfo; discriminate |]. split; [exact Hrun |].
  destruct (C10_failing_paths "/games/.." demo_list_args demo_disk demo_state
              engine detected version) as (_ & H').
  destruct (H' eq_refl) as (_ & _ & _ & _ & Hlist). apply Hlist. reflexivity.
Defined.

(** Calls with a failing path that are not turned down before the engine is
    at work: the [scene] of [run_project] is dropped and the project is
    started; the parent of [add_node] and of [get_tree] goes to the headless
    engine as it is; an empty new path and an empty project path of
    [get_project_info] count as not given; [get_project_info] and the file
    path of [manage_uids] are checked after the engine has been asked for
    its version, on which the answer depends. *)
Lemma C10_counterexample :
  (validatePath "../secret.tscn" = false
   /\ carries (normalizeParameters demo_run_args) "scene" "../secret.tscn"
   /\ exists s',
       handleRunProject demo_run_args demo_state = Some (s', started)
       /\ spawned s' = [["-d"; "--path"; "/games/a"]])
  /\ (validatePath "root/../.." = false
      /\ (exists params after,
             handleManageScene demo_add_node_args demo_project_disk
             = Some (Executes "add_node" params "/games/a" after)
             /\ carries params "parentNodePath" "root/../..")
      /\ (exists params after,
             handleManageNode demo_get_tree_args demo_project_disk
             = Some (Executes "get_scene_tree" params "/games/a" after)
             /\ carries params "parentPath" "root/../.."))
  /\ (validatePath "" = false
      /\ (exists after,
             handleManageScene demo_save_args demo_project_disk
             = Some (Executes "save_scene" [("scenePath", JString "main.tscn")]
                       "/games/a" after))
      /\ handleGetProjectInfo [("projectPath", JString "")] (Returns "4.4.1.stable")
           demo_disk
         = Some (Tells (JObject [("godotVersion", JString "4.4.1.stable")])))
  /\ (validatePath "../a" = false
      /\ handleGetProjectInfo demo_info_args (Throws "spawn godot ENOENT") demo_disk
         = Some (Responds (ErrorResponse "Failed to get project info: spawn godot ENOENT"
                             godot_solutions))
      /\ handleGetProjectInfo demo_info_args (Returns "4.4.1.stable") demo_disk
         = Some (Responds (ErrorResponse "Invalid project path" unsafe_characters)))
  /\ (validatePath "../b/project.godot" = false
      /\ handleManageUids demo_uid_path_args (Returns "4.3.stable") demo_disk
         = Some (Responds
                   (ErrorResponse
                      "UIDs are only supported in Godot 4.4 or later. Current version: 4.3.stable"
                      ["Upgrade to Godot 4.4 or later to use UIDs"]))
      /\ handleManageUids demo_uid_path_args (Returns "4.4.1.stable") demo_disk
         = Some (Responds (ErrorResponse "Invalid file path" without_dots))).
Proof.
  repeat split; try (vm_compute; reflexivity).
  - exists (fst (runProject "/games/a" None demo_state)). split; vm_compute; reflexivity.
  - do 2 eexists. split; vm_compute; reflexivity.
  - do 2 eexists. split; vm_compute; reflexivity.
  - eexists. vm_compute. reflexivity.
Qed.

End ToolsProps.


(** * More properties of the embedded listener *)

Module BridgeMore.
Import Bridge BridgeProps Session.

Section More.

Variable E : Engine.

(** **** An action that fails has injected nothing *)

Lemma inject_key_failure action result evs :
  _inject_key E action = Ok (result, evs) ->
  String.eqb result "" = false -> evs = [].
Proof.
  unfold _inject_key. intros H Hres.
  apply bind_Ok in H as [missing [_ H]].
  destruct missing; [now inversion H |].
  apply bind_Ok in H as [key [_ H]].
  destruct (_ =? _)%Z; inversion H; subst; [reflexivity | discriminate].
Qed.

Lemma inject_mouse_button_failure action result evs :
  _inject_mouse_button E action = Ok (result, evs) ->
  String.eqb result "" = false -> evs = [].
Proof.
  unfold _inject_mouse_button. intros H Hres.
  destruct (button_of _); [| now inversion H].
  destruct (dict_has action "pressed"); inversion H; subst; discriminate.
Qed.

Lemma inject_action_failure action result evs :
  _inject_action action = Ok (result, evs) ->
  String.eqb result "" = false -> evs = [].
Proof.
  unfold _inject_action. intros H Hres.
  apply bind_Ok in H as [missing [_ H]].
  destruct missing; [now inversion H |].
  apply bind_Ok in H as [nm [_ H]].
  destruct (booleanize _); inversion H; subst; discriminate.
Qed.

Lemma inject_click_element_failure tree action result evs :
  _inject_click_element E tree action = Ok (result, evs) ->
  String.eqb result "" = false -> evs = [].
Proof.
  unfold _inject_click_element. intros H Hres.
  apply bind_Ok in H as [identifier [_ H]].
  destruct (String.eqb identifier ""); [now inversion H |].
  destruct (_find_control_by_identifier E tree identifier) as [target|];
    [| now inversion H].
  destruct (negb (is_visible_in_tree target)); [now inversion H |].
  apply bind_Ok in H as [button_name [_ H]].
  destruct (button_of (VString button_name)); [| now inversion H].
  apply bind_Ok in H as [double_click [_ H]].
  inversion H; subst; discriminate.
Qed.

Lemma from_result_failure processed kind r msg evs :
  from_result processed kind r = Ok (Break msg, evs) ->
  exists result, r = Ok (result, evs) /\ String.eqb result "" = false.
Proof.
  unfold from_result. intros H. destruct r as [[result evs']|]; [| discriminate].
  simpl in H. destruct (String.eqb result "") eqn:Hres; inversion H; subst.
  now exists result.
Qed.

Lemma input_action_failure tree action processed msg evs :
  input_action E tree action processed = Ok (Break msg, evs) -> evs = [].
Proof.
  unfold input_action. intros H.
  destruct action as [| | | | |items|d]; try (now inversion H).
  destruct (dict_get d "type" (VString "")) as [| | | |type| |];
    try (now inversion H).
  destruct (String.eqb type "key").
  { apply from_result_failure in H as (r & H & Hr).
    eapply inject_key_failure; eassumption. }
  destruct (String.eqb type "mouse_button").
  { apply from_result_failure in H as (r & H & Hr).
    eapply inject_mouse_button_failure; eassumption. }
  destruct (String.eqb type "mouse_motion"); [discriminate |].
  destruct (String.eqb type "action").
  { apply from_result_failure in H as (r & H & Hr).
    eapply inject_action_failure; eassumption. }
  destruct (String.eqb type "click_element").
  { apply from_result_failure in H as (r & H & Hr).
    eapply inject_click_element_failure; eassumption. }
  destruct (String.eqb type "wait"); now inversion H.
Qed.

(** X1. A stretch of a batch that ends in an error has injected exactly the
    events of the actions before the failing one: the failing action has
    injected nothing, and what the earlier actions injected stays in the
    input queue. *)
Theorem failed_batch_keeps_earlier_events (tree : Node) (actions : list Variant)
    (n : nat) (msg : string) (n' : nat) (evs : list InputEvent) :
  input_loop E tree actions n = Ok (LoopLeft msg n', evs) ->
  msg <> "" ->
  exists before failing after,
    actions = before ++ failing :: after
    /\ n' = n + length before
    /\ input_action E tree failing n' = Ok (Break msg, [])
    /\ input_loop E tree before n = Ok (LoopLeft "" n', evs).
Proof.
  revert n evs. induction actions as [|a rest IH]; intros n evs H Hmsg; simpl in H.
  - inversion H; subst. contradiction.
  - apply bind_Ok in H as [[adv evs1] [Ha H]].
    destruct adv as [|error_msg|secs].
    + apply bind_Ok in H as [[exit evs2] [Hrest H]]. inversion H; subst.
      destruct (IH _ _ Hrest Hmsg) as (before & failing & after & -> & -> & Hf & Hb).
      exists (a :: before), failing, after.
      replace (n + length (a :: before)) with (S n + length before)
        by (simpl; lia).
      repeat split; try assumption.
      simpl. rewrite Ha. simpl. rewrite Hb. reflexivity.
    + inversion H; subst.
      pose proof (input_action_failure _ _ _ _ _ Ha) as ->.
      exists [], a, rest. rewrite Nat.add_0_r. now repeat split.
    + discriminate.
Qed.

(** **** Finding a control *)

(** What the search by name finds is a Control of that name, in the tree of
    one of the nodes of the queue. *)
Lemma bfs_by_name_sound fuel identifier queue found :
  bfs_by_name fuel identifier queue = Some found ->
  is_Control found = true /\ name found = identifier
  /\ exists q, In q queue /\ In found (nodes_of q).
Proof.
  revert queue. induction fuel as [|fuel IH]; intros queue H; [discriminate |].
  destruct queue as [|current rest]; [discriminate |]. cbn [bfs_by_name] in H.
  destruct (is_Control current && String.eqb (name current) identifier) eqn:Hhit.
  - injection H as <-. apply andb_true_iff in Hhit as [Hc Hn].
    apply String.eqb_eq in Hn. repeat split; try assumption.
    exists current. split; [now left | apply nodes_of_self].
  - destruct (IH _ H) as (Hc & Hn & q & Hq & Hin). repeat split; try assumption.
    apply in_app_or in Hq as [Hq | Hq].
    + exists q. split; [now right | assumption].
    + exists current. split; [now left |].
      eapply nodes_of_child; eassumption.
Qed.

Lemma control_or_null_sound found n :
  control_or_null found = Some n -> found = Some n /\ is_Control n = true.
Proof.
  destruct found as [m|]; simpl; [| discriminate].
  destruct (is_Control m) eqn:Hm; [| discriminate].
  intros H. injection H as <-. now split.
Qed.

Lemma find_control_sound tree identifier found :
  _find_control_by_identifier E tree identifier = Some found ->
  is_Control found = true
  /\ (get_node_or_null E tree identifier = Some found
      \/ (In found (nodes_of tree) /\ name found = identifier)).
Proof.
  unfold _find_control_by_identifier. intros H.
  destruct (if Str.begins_with identifier "/"
            then control_or_null (get_node_or_null E tree identifier)
            else None) as [ctrl|] eqn:Habs.
  { injection H as <-. destruct (Str.begins_with identifier "/"); [| discriminate].
    apply control_or_null_sound in Habs as [Hn Hc]. auto. }
  destruct (control_or_null (get_node_or_null E tree identifier)) as [ctrl|] eqn:Hrel.
  { injection H as <-. apply control_or_null_sound in Hrel as [Hn Hc]. auto. }
  apply bfs_by_name_sound in H as (Hc & Hn & q & [<- | []] & Hin). auto.
Qed.

(** X2. What [_find_control_by_identifier] returns is a Control: the node at
    that path, or a node of the live tree with that name.  And it returns a
    Control whenever some Control of the live tree has the identifier as its
    name (the search by name does not run out before the tree does). *)
Theorem find_control_sound_and_complete (tree : Node) (identifier : string) :
  (forall found,
      _find_control_by_identifier E tree identifier = Some found ->
      is_Control found = true
      /\ (get_node_or_null E tree identifier = Some found
          \/ (In found (nodes_of tree) /\ name found = identifier)))
  /\ ((exists n, In n (nodes_of tree) /\ is_Control n = true /\ name n = identifier) ->
      exists found, _find_control_by_identifier E tree identifier = Some found).
Proof.
  split; [intros found; apply find_control_sound |].
  intros (n & Hin & Hc & Hn). unfold _find_control_by_identifier.
  destruct (if Str.begins_with identifier "/"
            then control_or_null (get_node_or_null E tree identifier)
            else None) as [ctrl|]; [eauto |].
  destruct (control_or_null (get_node_or_null E tree identifier)) as [ctrl|];
    [eauto |].
  destruct (bfs_by_name_finds (forest_count [tree]) identifier [tree])
    as (found & Hfound & _); [lia | | eauto].
  exists tree, n. repeat split; try assumption. now left.
Qed.

(** **** A click that succeeds *)

Lemma as_String_inv v s : as_String v = Ok s -> v = VString s.
Proof. destruct v; simpl; intros H; try discriminate. now injection H as ->. Qed.

(** X3. A [click_element] action that succeeds has found a Control that is
    visible in the tree, and has injected two events: the press and then the
    release of the chosen button, both at the centre of the rectangle of that
    Control, the release never a double click. *)
Theorem click_element_clicks_visible_control (tree : Node) (action : Dictionary)
    (evs : list InputEvent) :
  _inject_click_element E tree action = Ok ("", evs) ->
  exists identifier target button double_click,
    dict_get action "element" (VString "") = VString identifier
    /\ identifier <> ""
    /\ _find_control_by_identifier E tree identifier = Some target
    /\ is_Control target = true
    /\ is_visible_in_tree target = true
    /\ button_of (dict_get action "button" (VString "left")) = Some button
    /\ evs = [InputEventMouseButton button (VBool true)
                (get_center (get_global_rect target)) (VBool double_click);
              InputEventMouseButton button (VBool false)
                (get_center (get_global_rect target)) (VBool false)].
Proof.
  unfold _inject_click_element. intros H.
  apply bind_Ok in H as [identifier [Hel H]]. apply as_String_inv in Hel.
  destruct (String.eqb identifier "") eqn:Hid; [discriminate |].
  destruct (_find_control_by_identifier E tree identifier) as [target|] eqn:Hfind;
    [| discriminate].
  destruct (is_visible_in_tree target) eqn:Hvis; [| discriminate].
  cbn [negb] in H.
  apply bind_Ok in H as [button_name [Hbn H]]. apply as_String_inv in Hbn.
  rewrite Hbn.
  destruct (button_of (VString button_name)) as [button|] eqn:Hb; [| discriminate].
  apply bind_Ok in H as [dc [_ H]].
  injection H as <-.
  exists identifier, target, button, dc.
  apply String.eqb_neq in Hid.
  destruct (find_control_sound _ _ _ Hfind) as [Hc _].
  now repeat split.
Qed.

(** **** What the UI walker reports *)

Lemma visited_children_sound path kids vis :
  Forall (fun child => forall pp p c,
              In (p, c) (visited_controls pp child vis) ->
              In c (nodes_of child) /\ is_Control c = true
              /\ (vis = true -> is_visible_in_tree c = true)) kids ->
  forall p c,
    In (p, c)
       ((fix each (l : list Node) : list (string * Node) :=
           match l with
           | [] => []
           | child :: l' => visited_controls path child vis ++ each l'
           end) kids) ->
    exists child, In child kids /\ In c (nodes_of child) /\ is_Control c = true
                  /\ (vis = true -> is_visible_in_tree c = true).
Proof.
  induction 1 as [|k kids Hk _ IH]; intros p c Hin; [contradiction |].
  apply in_app_or in Hin as [Hin | Hin].
  - exists k. split; [now left | eapply Hk; eassumption].
  - destruct (IH _ _ Hin) as (child & Hchild & Hrest).
    exists child. split; [now right | assumption].
Qed.

(** Every Control that the traversal comes to is a Control of the tree, and
    under [visible_only] it is visible in the tree. *)
Lemma visited_controls_sound node :
  forall vis pp p c,
    In (p, c) (visited_controls pp node vis) ->
    In c (nodes_of node) /\ is_Control c = true
    /\ (vis = true -> is_visible_in_tree c = true).
Proof.
  induction node as [nm cls v rect txt ph tip dis kids IH] using Node_forall_ind.
  intros vis pp p c Hin.
  assert (Hbelow : forall p c,
             In (p, c)
                ((fix each (l : list Node) : list (string * Node) :=
                    match l with
                    | [] => []
                    | child :: l' =>
                        visited_controls (pp +:+ "/" +:+ nm) child vis ++ each l'
                    end) kids) ->
             In c (nodes_of (mkNode nm cls v rect txt ph tip dis kids))
             /\ is_Control c = true /\ (vis = true -> is_visible_in_tree c = true)).
  { intros p' c' Hin'.
    destruct (visited_children_sound (pp +:+ "/" +:+ nm) kids vis) with (p := p') (c := c')
      as (child & Hchild & Hc & Hrest).
    - eapply List.Forall_impl; [| exact IH]. intros child Hch pp0 p0 c0. apply Hch.
    - exact Hin'.
    - split; [| exact Hrest].
      eapply (nodes_of_child (mkNode nm cls v rect txt ph tip dis kids) child);
        [exact Hchild | exact Hc]. }
  cbn [visited_controls] in Hin.
  destruct (is_Control (mkNode nm cls v rect txt ph tip dis kids)) eqn:Hctrl;
    [| now apply (Hbelow p c)].
  destruct (vis && negb (is_visible_in_tree (mkNode nm cls v rect txt ph tip dis kids)))
    eqn:Hhide; [contradiction |].
  destruct Hin as [Heq | Hin]; [| now apply (Hbelow p c)].
  injection Heq as <- <-. split; [apply nodes_of_self |]. split; [exact Hctrl |].
  intros ->. cbn [andb] in Hhide. now apply negb_false_iff in Hhide.
Qed.

Lemma element_of_fields path ctrl :
  dict_get (element_of path ctrl) "name" VNil = VString (name ctrl)
  /\ dict_get (element_of path ctrl) "type" VNil = VString (get_class ctrl)
  /\ dict_get (element_of path ctrl) "visible" VNil = VBool (is_visible_in_tree ctrl).
Proof. repeat split. Qed.

(** X4. Every element that [get_ui_elements] reports describes a Control of
    the live tree, by its name, its class and its visibility, and that
    Control passes the type filter when one is given; unless the command sets
    [visible_only] to [false], the Control is visible in the tree, so that no
    hidden control is ever reported by default. *)
Theorem ui_elements_are_controls_of_the_tree (peer : Peer) (payload : Dictionary)
    (L L' : Listener) :
  _handle_get_ui_elements peer payload L = Ok L' ->
  exists visible_only type_filter elements,
    dict_get payload "visible_only" (VBool true) = VBool visible_only
    /\ dict_get payload "type_filter" (VString "") = VString type_filter
    /\ L' = _send_response peer [("elements", VArray (map VDict elements))] L
    /\ Forall (fun element =>
                 exists ctrl,
                   In ctrl (nodes_of (root L))
                   /\ is_Control ctrl = true
                   /\ (visible_only = true -> is_visible_in_tree ctrl = true)
                   /\ (type_filter <> "" -> is_class ctrl type_filter = true)
                   /\ dict_get element "name" VNil = VString (name ctrl)
                   /\ dict_get element "type" VNil = VString (get_class ctrl)
                   /\ dict_get element "visible" VNil
                      = VBool (is_visible_in_tree ctrl))
              elements.
Proof.
  unfold _handle_get_ui_elements. intros H.
  apply bind_Ok in H as [visible_only [Hvis H]].
  apply bind_Ok in H as [type_filter [Htf H]].
  apply as_String_inv in Htf.
  assert (Hv : dict_get payload "visible_only" (VBool true) = VBool visible_only).
  { destruct (dict_get payload "visible_only" (VBool true)); simpl in Hvis;
      try discriminate. now injection Hvis as ->. }
  injection H as <-.
  exists visible_only, type_filter,
    (_collect_control_nodes "" (root L) [] visible_only type_filter).
  repeat split; try assumption.
  rewrite collect_spec. cbn [app].
  apply List.Forall_forall. intros element Hin.
  apply in_map_iff in Hin as ([p c] & <- & Hin).
  apply filter_In in Hin as [Hin Hmatch].
  apply visited_controls_sound in Hin as (Hnode & Hc & Hshown).
  exists c. unfold element_at. cbn [fst snd].
  destruct (element_of_fields p c) as (Hn & Ht & Hvs).
  repeat split; try assumption.
  intros Hne. unfold matches_filter in Hmatch. cbn [snd] in Hmatch.
  apply String.eqb_neq in Hne. rewrite Hne in Hmatch. exact Hmatch.
Qed.

(** **** One reply for every datagram *)

Lemma input_stretch_shape peer actions n L L' :
  input_stretch E peer actions n L = Ok L' ->
  answers peer L L' \/ suspends peer L L'.
Proof.
  intros H. apply input_stretch_spec in H
    as [(msg & n' & evs & _ & ->) | (remaining & n' & evs & _ & ->)].
  - left. eexists. split; reflexivity.
  - right. exists (InputFrame peer remaining n'). now repeat split.
Qed.

Lemma send_response_answers peer data L : answers peer L (_send_response peer data L).
Proof. eexists. split; reflexivity. Qed.

Lemma handle_screenshot_suspends peer L : suspends peer L (_handle_screenshot peer L).
Proof. exists (ScreenshotFrame peer). now repeat split. Qed.

Lemma dispatch_shape peer payload L L' :
  dispatch E peer payload L = Ok L' ->
  answers peer L L' \/ suspends peer L L'.
Proof.
  unfold dispatch. intros H.
  destruct (dict_get payload "command" (VString "")) as [| | | |c| |];
    try (injection H as <-; left; apply send_response_answers).
  destruct (String.eqb c "input").
  { destruct (dict_get payload "actions" (VArray [])) as [| | | | |actions|];
      try (injection H as <-; left; apply send_response_answers).
    destruct actions as [|a rest];
      [injection H as <-; left; apply send_response_answers |].
    destruct (_is_processing_input L);
      [injection H as <-; left; apply send_response_answers |].
    unfold _handle_input in H. apply input_stretch_shape in H.
    exact H. }
  destruct (String.eqb c "get_ui_elements").
  { unfold _handle_get_ui_elements in H.
    apply bind_Ok in H as [vis [_ H]]. apply bind_Ok in H as [tf [_ H]].
    injection H as <-. left. apply send_response_answers. }
  destruct (String.eqb c "run_script").
  { unfold _handle_run_script in H. apply bind_Ok in H as [source [_ H]].
    destruct (String.eqb (strip_edges E source) "");
      [injection H as <-; left; apply send_response_answers |].
    destruct (run_source E source (root L) (_is_processing_input L));
      injection H as <-; left; eexists; split; reflexivity. }
  destruct (String.eqb c "screenshot").
  { injection H as <-. right. apply handle_screenshot_suspends. }
  destruct (String.eqb c "ping"); injection H as <-; left;
    apply send_response_answers.
Qed.

Lemma process_shape peer data L L' :
  _process E peer data L = Ok L' ->
  answers peer L L' \/ suspends peer L L'.
Proof.
  unfold _process, _handle_json_command. intros H.
  destruct (Str.begins_with data "{").
  - destruct (json_parse E data) as [message|payload];
      [injection H as <-; left; apply send_response_answers |].
    destruct payload;
      try (injection H as <-; left; apply send_response_answers).
    eapply dispatch_shape; eassumption.
  - destruct (String.eqb data "screenshot");
      [injection H as <-; right; apply handle_screenshot_suspends |].
    destruct (String.eqb data "ping"); injection H as <-; left;
      eexists; split; reflexivity.
Qed.

Lemma resume_shape fr L L' :
  resume E fr L = Ok L' ->
  answers (frame_peer fr) L L' \/ suspends (frame_peer fr) L L'.
Proof.
  destruct fr as [peer remaining n|peer]; simpl; intros H.
  - unfold resume_input in H. eapply input_stretch_shape; eassumption.
  - injection H as <-. left. unfold resume_screenshot.
    destruct (save_screenshot E (root L)); apply send_response_answers.
Qed.

Lemma answers_peers peer L L' :
  answers peer L L' ->
  answered L' ++ pending L' ≡ₚ (answered L ++ pending L) ++ [peer].
Proof.
  intros (p & Hs & Ha). unfold answered, pending. rewrite Hs, Ha, map_app.
  cbn [map fst]. rewrite <- !app_assoc. apply Permutation_app_head.
  apply Permutation_app_comm.
Qed.

Lemma suspends_peers peer L L' :
  suspends peer L L' ->
  answered L' ++ pending L' ≡ₚ (answered L ++ pending L) ++ [peer].
Proof.
  intros (fr & Hp & Hs & Ha). unfold answered, pending. rewrite Hs, Ha, map_app.
  cbn [map]. rewrite Hp. now rewrite <- !app_assoc.
Qed.

(** X5. At every moment of a session, each datagram that the listener has
    taken is either answered, by exactly one packet sent to the peer it came
    from, or still has exactly one suspended call that will answer that peer:
    no command is dropped and none is answered twice, as long as no script
    error stops the listener. *)
Theorem every_datagram_answered_once_or_pending (tree : Node) (peers : list Peer)
    (L : Listener) :
  served E (ready tree) peers L ->
  answered L ++ pending L ≡ₚ peers.
Proof.
  induction 1 as [|peers peer data L L' _ IH H|peers i fr L L' _ IH Hi H
                 |peers tree' L _ IH].
  - reflexivity.
  - rewrite <- IH.
    apply process_shape in H as [H | H];
      [now apply answers_peers | now apply suspends_peers].
  - rewrite <- IH.
    assert (Hdel : pending L ≡ₚ frame_peer fr :: pending (set_awaiting (delete i (awaiting L)) L)).
    { unfold pending. cbn [awaiting set_awaiting].
      rewrite (delete_Permutation _ _ _ Hi) at 1. reflexivity. }
    assert (Hsame : answered (set_awaiting (delete i (awaiting L)) L) = answered L)
      by reflexivity.
    rewrite Hdel, <- Hsame.
    apply resume_shape in H as [H | H];
      [apply answers_peers in H | apply suspends_peers in H];
      rewrite H; rewrite <- !app_assoc; apply Permutation_app_head;
      symmetry; apply Permutation_cons_append.
  - exact IH.
Qed.

(** **** Each command keeps to its own part of the listener *)

Lemma input_stretch_frame peer actions n L L' :
  input_stretch E peer actions n L = Ok L' ->
  root L' = root L /\ exists evs, input_queue L' = input_queue L ++ evs.
Proof.
  intros H. apply input_stretch_spec in H
    as [(msg & n' & evs & _ & ->) | (remaining & n' & evs & _ & ->)];
    (split; [reflexivity | now exists evs]).
Qed.

(** X6. Of the commands, only [input] and [run_script] reach the input
    queue and the single-flight flag, and only [run_script] reaches the scene
    tree: an [input] command adds events behind those that are queued and
    leaves the tree as it is; every command other than these two leaves the
    queue, the flag and the tree as they are.  (What a script of
    [run_script] does is up to the script.) *)
Theorem commands_keep_to_their_part (peer : Peer) (payload : Dictionary)
    (L L' : Listener) :
  dispatch E peer payload L = Ok L' ->
  dict_get payload "command" (VString "") <> VString "run_script" ->
  (exists evs, input_queue L' = input_queue L ++ evs)
  /\ root L' = root L
  /\ (dict_get payload "command" (VString "") <> VString "input" ->
      input_queue L' = input_queue L
      /\ _is_processing_input L' = _is_processing_input L).
Proof.
  unfold dispatch. intros H Hscript. cbv zeta in H.
  assert (Hnil : forall X : Listener,
             input_queue X = input_queue L ->
             exists evs, input_queue X = input_queue L ++ evs).
  { intros X ->. exists []. now rewrite app_nil_r. }
  assert (Hsend : forall data,
             Ok (_send_response peer data L) = Ok L' ->
             (exists evs, input_queue L' = input_queue L ++ evs)
             /\ root L' = root L
             /\ input_queue L' = input_queue L
             /\ _is_processing_input L' = _is_processing_input L).
  { intros data Hd. injection Hd as <-. split; [now apply Hnil | now repeat split]. }
  destruct (dict_get payload "command" (VString "")) as [| | | |c| |];
    try (apply Hsend in H as (Hq & Hroot & Hsame & Hflag); now repeat split).
  destruct (String.eqb c "input") eqn:Hinput.
  { apply String.eqb_eq in Hinput. subst c.
    assert (Hframe : root L' = root L
                     /\ exists evs, input_queue L' = input_queue L ++ evs).
    { destruct (dict_get payload "actions" (VArray [])) as [| | | | |actions|];
        try (apply Hsend in H as (Hq & Hroot & Hsame & Hflag); now split).
      destruct actions as [|a rest];
        [apply Hsend in H as (Hq & Hroot & Hsame & Hflag); now split |].
      destruct (_is_processing_input L);
        [apply Hsend in H as (Hq & Hroot & Hsame & Hflag); now split |].
      unfold _handle_input in H. apply input_stretch_frame in H. exact H. }
    destruct Hframe as [Hroot Hq]. split; [exact Hq |].
    split; [exact Hroot | intros Hc; now contradiction Hc]. }
  destruct (String.eqb c "get_ui_elements") eqn:Hui.
  { unfold _handle_get_ui_elements in H.
    apply bind_Ok in H as [vis [_ H]]. apply bind_Ok in H as [tf [_ H]].
    apply Hsend in H as (Hq & Hroot & Hsame & Hflag). now repeat split. }
  destruct (String.eqb c "run_script") eqn:Hrun.
  { apply String.eqb_eq in Hrun. subst c. now contradiction Hscript. }
  destruct (String.eqb c "screenshot").
  { injection H as <-. split; [now apply Hnil | now repeat split]. }
  destruct (String.eqb c "ping");
    apply Hsend in H as (Hq & Hroot & Hsame & Hflag); now repeat split.
Qed.

End More.

Lemma X1_witness :
  exists before failing after,
    failing_batch = before ++ failing :: after
    /\ 1 = 0 + length before
    /\ input_action demo_engine demo_root failing 1
       = Ok (Break "Action 1 (mouse_button): unknown button: 'thumb' (use 'left', 'right', or 'middle')", [])
    /\ input_loop demo_engine demo_root before 0
       = Ok (LoopLeft "" 1,
             [InputEventKey 65 (VBool true) false (VBool false) (VBool false)
                (VBool false)]).
Proof.
  apply (failed_batch_keeps_earlier_events demo_engine demo_root failing_batch 0).
  - vm_compute. reflexivity.
  - discriminate.
Defined.

Lemma X2_witness :
  exists found, _find_control_by_identifier demo_engine demo_root "Score" = Some found.
Proof.
  apply (find_control_sound_and_complete demo_engine demo_root "Score").
  exists demo_score. repeat split. vm_compute. tauto.
Defined.

Lemma X3_witness :
  exists identifier target button double_click,
    dict_get click_start "element" (VString "") = VString identifier
    /\ identifier <> ""
    /\ _find_control_by_identifier demo_engine demo_root identifier = Some target
    /\ is_Control target = true
    /\ is_visible_in_tree target = true
    /\ button_of (dict_get click_start "button" (VString "left")) = Some button
    /\ [InputEventMouseButton MOUSE_BUTTON_LEFT (VBool true)
          (get_center demo_rect) (VBool false);
        InputEventMouseButton MOUSE_BUTTON_LEFT (VBool false)
          (get_center demo_rect) (VBool false)]
       = [InputEventMouseButton button (VBool true)
            (get_center (get_global_rect target)) (VBool double_click);
          InputEventMouseButton button (VBool false)
            (get_center (get_global_rect target)) (VBool false)].
Proof.
  apply (click_element_clicks_visible_control demo_engine demo_root click_start).
  vm_compute. reflexivity.
Defined.

Lemma X4_witness :
  exists visible_only type_filter elements,
    dict_get [("type_filter", VString "Button")] "visible_only" (VBool true)
    = VBool visible_only
    /\ dict_get [("type_filter", VString "Button")] "type_filter" (VString "")
       = VString type_filter
    /\ _send_response 7
         [("elements", VArray [VDict (element_of "/root/Menu/Start" demo_start)])]
         (ready demo_root)
       = _send_response 7 [("elements", VArray (map VDict elements))] (ready demo_root)
    /\ Forall (fun element =>
                 exists ctrl,
                   In ctrl (nodes_of (root (ready demo_root)))
                   /\ is_Control ctrl = true
                   /\ (visible_only = true -> is_visible_in_tree ctrl = true)
                   /\ (type_filter <> "" -> is_class ctrl type_filter = true)
                   /\ dict_get element "name" VNil = VString (name ctrl)
                   /\ dict_get element "type" VNil = VString (get_class ctrl)
                   /\ dict_get element "visible" VNil
                      = VBool (is_visible_in_tree ctrl))
              elements.
Proof.
  apply (ui_elements_are_controls_of_the_tree 7 [("type_filter", VString "Button")]
           (ready demo_root)).
  vm_compute. reflexivity.
Defined.

Lemma busy_served : served demo_engine (ready demo_root) [1] busy.
Proof.
  apply (served_datagram demo_engine (ready demo_root) [] 1 wait_then_A_text
           (ready demo_root) busy); [apply served_start | reflexivity].
Defined.

Lemma X5_witness : answered busy ++ pending busy ≡ₚ [1].
Proof.
  apply (every_datagram_answered_once_or_pending demo_engine demo_root [1] busy).
  exact busy_served.
Defined.

Lemma X6_witness :
  (exists evs, input_queue after_key_A = input_queue (ready demo_root) ++ evs)
  /\ root after_key_A = root (ready demo_root)
  /\ (dict_get (input_command [key_A]) "command" (VString "") <> VString "input" ->
      input_queue after_key_A = input_queue (ready demo_root)
      /\ _is_processing_input after_key_A = _is_processing_input (ready demo_root)).
Proof.
  apply (commands_keep_to_their_part demo_engine 1 (input_command [key_A])
           (ready demo_root) after_key_A).
  - vm_compute. reflexivity.
  - discriminate.
Defined.

End BridgeMore.

(** * More properties of the session manager *)

Module RunnerMore.
Import Runner RunnerProps RunnerDemo.

(** **** Run, then stop *)

Lemma stopProject_running (s : State) (proc : GodotProcess) (path : string) :
  activeProcess s = Some proc -> activeProjectPath s = Some path -> path <> "" ->
  stopProject s
  = (set_active None None
       (cleanupBridgeAutoload path (set_active None (Some path) (kill proc s))),
     Some (output proc, errors proc)).
Proof.
  intros Hproc Hpath Hne. unfold stopProject. rewrite Hproc.
  cbn [activeProjectPath set_active kill]. rewrite Hpath.
  apply String.eqb_neq in Hne. now rewrite Hne.
Qed.

(** X7. A project in an ordinary root (a directory with an absolute name in normal
    form, in which [.mcp] is no regular file and [.gitignore] and
    [mcp_bridge.gd] are no directories) is run from an idle runner and then
    stopped.  While it runs, its project file holds the registration of the listener exactly
    once.  After the stop no registration is left in the project file, the
    listener script and its uid file are gone, the root is no longer noted as
    injected, the process has been killed and no process is active; and
    every file that is not one of those the injection writes is as it was
    before the run. *)
Theorem run_then_stop_removes_listener (s : State) (A : string)
    (scene : option string) (contentA : Text) :
  ordinary_root A (disk s) = true ->
  is_Some (godotPath s) -> activeProcess s = None ->
  A ∉ injectedProjects s ->
  files (disk s) !! join A "project.godot" = Some contentA ->
  includes bridge_entry contentA = false -> includes legacy_entry contentA = false ->
  let s1 := fst (runProject A scene s) in
  let s2 := fst (stopProject s1) in
  (exists running, files (disk s1) !! join A "project.godot" = Some running
                   /\ count_matches bridge_entry running = 1)
  /\ (exists stopped, files (disk s2) !! join A "project.godot" = Some stopped
                      /\ count_matches bridge_entry stopped = 0)
  /\ files (disk s2) !! join A "mcp_bridge.gd" = None
  /\ files (disk s2) !! join A "mcp_bridge.gd.uid" = None
  /\ (A ∉ injectedProjects s2)
  /\ activeProcess s2 = None /\ activeProjectPath s2 = None
  /\ (exists proc, activeProcess s1 = Some proc
                   /\ killed s2 = killed s1 ++ [pid proc]
                   /\ snd (stopProject s1) = Some (output proc, errors proc))
  /\ (forall q, ~ touched_by_injection A q -> q <> bridge_uid_file A ->
                files (disk s2) !! q = files (disk s) !! q).
Proof.
  intros Hord [g Hg] Hidle HinA HpfA HeA HlA.
  destruct (ordinary_root_spec _ _ Hord) as (HA & HgitA).
  destruct (runProject_idle A scene s g Hg Hidle)
    as (Hdisk1 & Hinj1 & _ & Hactive1 & proc & Hproc1).
  destruct (injectBridgeAutoload_fresh A s contentA HinA HpfA HeA HlA HgitA)
    as (dA & HsA & HfileA & HframeA & _).
  cbv zeta. set (s1 := fst (runProject A scene s)) in *.
  rewrite HsA in Hdisk1, Hinj1. cbn in Hdisk1, Hinj1.
  rewrite (stopProject_running s1 proc A Hproc1 Hactive1 HA). cbn [fst snd].
  assert (HonceA : includes bridge_entry (with_entry bridge_entry contentA) = true).
  { rewrite includes_count, with_entry_once; [reflexivity |].
    now apply includes_false_count. }
  destruct (removeAutoloadEntry_bridge A dA _ HfileA HonceA)
    as (HcleanA & HscriptA & _ & HframeC).
  unfold cleanupBridgeAutoload.
  cbn [disk injectedProjects activeProcess activeProjectPath killed set_active
         set_injected set_disk kill].
  rewrite Hdisk1, Hinj1.
  fold (project_file A) (bridge_script_file A).
  change (join A "mcp_bridge.gd.uid") with (bridge_uid_file A).
  repeat split.
  - exists (with_entry bridge_entry contentA). split; [exact HfileA |].
    apply with_entry_once. now apply includes_false_count.
  - exists (without_entry bridge_entry (with_entry bridge_entry contentA)).
    split; [exact HcleanA |].
    apply without_entry_with_entry. now apply includes_false_count.
  - exact HscriptA.
  - rewrite removeAutoloadEntry_files. apply lookup_delete_eq.
  - intros Hin. apply elem_of_difference in Hin as [_ Hin]. apply Hin.
    now apply elem_of_singleton.
  - exists proc. now repeat split.
  - intros q Hq Huid. unfold touched_by_injection in Hq.
    rewrite HframeC by tauto. now apply HframeA.
Qed.

Lemma demo_file_of_a :
  files (disk demo_state) !! join "/games/a" "project.godot" = Some demo_project_a.
Proof. vm_compute. reflexivity. Qed.

Lemma X7_witness :
  (exists running,
      files (disk demo_running) !! join "/games/a" "project.godot" = Some running
      /\ count_matches bridge_entry running = 1)
  /\ (exists stopped,
        files (disk demo_stopped) !! join "/games/a" "project.godot" = Some stopped
        /\ count_matches bridge_entry stopped = 0)
  /\ files (disk demo_stopped) !! join "/games/a" "mcp_bridge.gd" = None
  /\ files (disk demo_stopped) !! join "/games/a" "mcp_bridge.gd.uid" = None
  /\ ("/games/a" ∉ injectedProjects demo_stopped)
  /\ activeProcess demo_stopped = None /\ activeProjectPath demo_stopped = None
  /\ (exists proc, activeProcess demo_running = Some proc
                   /\ killed demo_stopped = killed demo_running ++ [pid proc]
                   /\ snd (stopProject demo_running) = Some (output proc, errors proc))
  /\ (forall q, ~ touched_by_injection "/games/a" q -> q <> bridge_uid_file "/games/a" ->
                files (disk demo_stopped) !! q = files (disk demo_state) !! q).
Proof.
  apply (run_then_stop_removes_listener demo_state "/games/a" None demo_project_a).
  - vm_compute. reflexivity.
  - eexists. reflexivity.
  - reflexivity.
  - apply not_elem_of_empty.
  - exact demo_file_of_a.
  - vm_compute. reflexivity.
  - vm_compute. reflexivity.
Defined.

(** **** Running the same project again *)

Lemma runProject_again (root : string) (scene : option string) (s : State)
    (g : string) (proc : GodotProcess) :
  godotPath s = Some g -> activeProcess s = Some proc ->
  activeProjectPath s = Some root -> root ∈ injectedProjects s ->
  let s' := fst (runProject root scene s) in
  disk s' = disk s /\ injectedProjects s' = injectedProjects s
  /\ killed s' = killed s ++ [pid proc]
  /\ length (spawned s') = S (length (spawned s))
  /\ activeProjectPath s' = Some root.
Proof.
  intros Hg Hproc Hpath Hin. unfold runProject. rewrite Hg, Hproc.
  cbn [activeProjectPath kill]. rewrite Hpath.
  rewrite (bool_decide_eq_false_2 (root <> root)) by (intros H; now apply H).
  rewrite andb_false_r. unfold injectBridgeAutoload.
  cbn [injectedProjects kill]. rewrite bool_decide_eq_true_2 by exact Hin.
  cbn. rewrite length_app. cbn. repeat split. lia.
Qed.

(** X8. A project in an ordinary root that is run a second time, without a
    stop in between, is not registered a second time: the first process is killed, a second one
    is started, and the disk is as the first run left it, the project file
    holding the registration of the listener exactly once. *)
Theorem rerun_registers_once (s : State) (A : string) (scene1 scene2 : option string)
    (contentA : Text) :
  ordinary_root A (disk s) = true ->
  is_Some (godotPath s) -> activeProcess s = None ->
  A ∉ injectedProjects s ->
  files (disk s) !! join A "project.godot" = Some contentA ->
  includes bridge_entry contentA = false -> includes legacy_entry contentA = false ->
  let s1 := fst (runProject A scene1 s) in
  let s2 := fst (runProject A scene2 s1) in
  disk s2 = disk s1
  /\ injectedProjects s2 = injectedProjects s1
  /\ (exists file, files (disk s2) !! join A "project.godot" = Some file
                   /\ count_matches bridge_entry file = 1)
  /\ (exists proc, activeProcess s1 = Some proc
                   /\ killed s2 = killed s1 ++ [pid proc])
  /\ length (spawned s2) = S (length (spawned s1)).
Proof.
  intros Hord [g Hg] Hidle HinA HpfA HeA HlA.
  destruct (ordinary_root_spec _ _ Hord) as (_ & HgitA).
  destruct (runProject_idle A scene1 s g Hg Hidle)
    as (Hdisk1 & Hinj1 & Hgodot1 & Hactive1 & proc & Hproc1).
  destruct (injectBridgeAutoload_fresh A s contentA HinA HpfA HeA HlA HgitA)
    as (dA & HsA & HfileA & _ & _).
  cbv zeta. set (s1 := fst (runProject A scene1 s)) in *.
  rewrite HsA in Hdisk1, Hinj1. cbn in Hdisk1, Hinj1.
  rewrite injectBridgeAutoload_godotPath in Hgodot1.
  assert (Hg1 : godotPath s1 = Some g) by congruence.
  assert (Hin1 : A ∈ injectedProjects s1).
  { rewrite Hinj1. apply elem_of_union_l. now apply elem_of_singleton. }
  destruct (runProject_again A scene2 s1 g proc Hg1 Hproc1 Hactive1 Hin1)
    as (Hdisk2 & Hinj2 & Hkilled & Hspawned & _).
  repeat split; try assumption.
  - exists (with_entry bridge_entry contentA). split.
    + rewrite Hdisk2, Hdisk1. exact HfileA.
    + apply with_entry_once. now apply includes_false_count.
  - exists proc. now split.
Qed.

Lemma X8_witness :
  disk demo_rerun = disk demo_running
  /\ injectedProjects demo_rerun = injectedProjects demo_running
  /\ (exists file, files (disk demo_rerun) !! join "/games/a" "project.godot" = Some file
                   /\ count_matches bridge_entry file = 1)
  /\ (exists proc, activeProcess demo_running = Some proc
                   /\ killed demo_rerun = killed demo_running ++ [pid proc])
  /\ length (spawned demo_rerun) = S (length (spawned demo_running)).
Proof.
  apply (rerun_registers_once demo_state "/games/a" None (Some "main.tscn")
           demo_project_a).
  - vm_compute. reflexivity.
  - eexists. reflexivity.
  - reflexivity.
  - apply not_elem_of_empty.
  - exact demo_file_of_a.
  - vm_compute. reflexivity.
  - vm_compute. reflexivity.
Defined.

(** **** The project file, registered and cleaned again *)

Lemma trimEnd_spaces (w : Text) : forallb is_space w = true -> trimEnd w = [].
Proof.
  induction w as [|c w IH]; [reflexivity |]. cbn [forallb trimEnd]. intros H.
  apply andb_true_iff in H as [Hc Hw]. now rewrite (IH Hw), Hc.
Qed.

Lemma trimEnd_app_spaces (s w : Text) :
  forallb is_space w = true -> trimEnd (s ++ w) = trimEnd s.
Proof.
  intros Hw. induction s as [|c s IH]; cbn [app].
  - now apply trimEnd_spaces.
  - cbn [trimEnd]. now rewrite IH.
Qed.

Lemma trimEnd_idem (s : Text) : trimEnd (trimEnd s) = trimEnd s.
Proof.
  induction s as [|c s IH]; [reflexivity |]. cbn [trimEnd].
  destruct (trimEnd s) as [|k kept] eqn:Ht.
  - destruct (is_space c) eqn:Hc; [reflexivity |]. cbn [trimEnd]. now rewrite Hc.
  - cbn [trimEnd]. cbn [trimEnd] in IH. now rewrite IH.
Qed.

(** Without the text [[autoload]] there is no header line to replace. *)
Lemma replace_header_line_none (line_start : bool) (replacement s : Text) :
  includes autoload_header s = false ->
  replace_header_line line_start replacement s = None.
Proof.
  revert line_start. induction s as [|c s IH]; intros line_start H.
  - cbn [replace_header_line]. now destruct line_start.
  - cbn [includes] in H. apply orb_false_iff in H as [Hhere Hrest].
    cbn [replace_header_line]. unfold header_line_here. rewrite Hhere.
    rewrite (IH _ Hrest). now destruct line_start.
Qed.

Lemma remove_empty_autoload_pass (w z : Text) :
  count_matches autoload_header w = 0 ->
  remove_empty_autoload 0 (w ++ LF :: z) = w ++ LF :: remove_empty_autoload 0 z.
Proof.
  assert (Hlf : ~ In LF autoload_header).
  { apply (not_In_forallb is_space); reflexivity. }
  induction w as [|c w IH]; intros H.
  - reflexivity.
  - pose proof (starts_with_sep autoload_header LF (c :: w) z Hlf) as Hs.
    cbn [app] in *. rewrite remove_empty_autoload_cons, Hs.
    rewrite (count_matches_here _ _ H).
    rewrite IH; [reflexivity |]. now apply count_matches_tail in H.
Qed.

(** X9. A project file of ASCII characters that holds no [[autoload]] text
    and no registration of the listener: after the registration is put in
    and taken out again, the file is the original one with its trailing
    white space replaced by one line feed; so a file that ends with one line
    feed after its last visible character comes back unchanged. *)
Theorem register_then_clean_restores_text (content : Text) :
  ascii_text content = true ->
  includes autoload_header content = false ->
  includes bridge_entry content = false ->
  without_entry bridge_entry (with_entry bridge_entry content)
  = trimEnd content ++ [LF].
Proof.
  intros Hascii Hheader Hentry. unfold with_entry.
  rewrite (replace_header_line_none _ _ _ Hheader).
  destruct (trimEnd_prefix content) as (w & Hw & Hspaces).
  apply includes_false_count in Hheader, Hentry.
  rewrite Hw in Hheader, Hentry.
  apply count_matches_zero_app in Hheader as [Hheader _]; [| discriminate].
  apply count_matches_zero_app in Hentry as [Hentry _];
    [| exact bridge_entry_nonempty].
  set (t := trimEnd content) in *. unfold without_entry.
  replace (t ++ [LF; LF] ++ autoload_header ++ [LF] ++ bridge_entry ++ [LF])
    with ((t ++ LF :: LF :: autoload_header) ++ LF :: bridge_entry ++ [LF])
    by now rewrite <- !app_assoc.
  rewrite remove_entry_line;
    [ | exact bridge_entry_no_LF
      | rewrite (count_matches_sep _ _ _ _ bridge_entry_no_LF), Hentry; reflexivity
      | reflexivity ].
  rewrite <- app_assoc. cbn [app].
  rewrite (remove_empty_autoload_pass t _ Hheader).
  replace (remove_empty_autoload 0 (LF :: autoload_header ++ [LF])) with [LF]
    by reflexivity.
  rewrite trimEnd_app_spaces by reflexivity.
  subst t. now rewrite trimEnd_idem.
Qed.

Lemma X9_witness :
  without_entry bridge_entry (with_entry bridge_entry demo_project_b)
  = trimEnd demo_project_b ++ [LF].
Proof.
  apply (register_then_clean_restores_text demo_project_b); vm_compute; reflexivity.
Defined.

(** **** What an injection leaves on the disk *)

Lemma with_entry_includes (content : Text) :
  includes bridge_entry content = false ->
  includes bridge_entry (with_entry bridge_entry content) = true.
Proof.
  intros H. rewrite includes_count, with_entry_once; [reflexivity |].
  now apply includes_false_count.
Qed.


(** X10. An injection into an ordinary root (a directory with an absolute name in
    normal form, in which [.mcp] is no regular file and [.gitignore] and
    [mcp_bridge.gd] are no directories) that is not yet noted as injected
    always leaves the directory [.mcp]
    with its [.gdignore], a [.gitignore] that holds [.mcp/], and the listener
    script in the root, whatever happens next.  Where the root has a project
    file, the call returns, the root is noted as injected and the project
    file holds the registration.  Where it has none, the call throws after
    these files were written: they stay, the root is not noted as injected,
    and no project file is made. *)
Theorem injection_prepares_the_root (root : string) (s : State) :
  root ∉ injectedProjects s ->
  ordinary_root root (disk s) = true ->
  let s' := fst (injectBridgeAutoload root s) in
  existsSync (join root ".mcp") (disk s') = true
  /\ existsSync (join (join root ".mcp") ".gdignore") (disk s') = true
  /\ (exists ignored, files (disk s') !! join root ".gitignore" = Some ignored
                      /\ includes mcpGitignoreEntry ignored = true)
  /\ files (disk s') !! join root "mcp_bridge.gd" = Some (bridgeScript s)
  /\ match files (disk s) !! join root "project.godot" with
     | Some _ =>
         snd (injectBridgeAutoload root s) = Returns tt
         /\ root ∈ injectedProjects s'
         /\ exists file, files (disk s') !! join root "project.godot" = Some file
                         /\ includes bridge_entry file = true
     | None =>
         (exists message, snd (injectBridgeAutoload root s) = Throws message)
         /\ injectedProjects s' = injectedProjects s
         /\ files (disk s') !! join root "project.godot" = None
     end.
Proof.
  intros Hin Hord. destruct (ordinary_root_spec _ _ Hord) as (_ & Hgit).
  cbv zeta.
  fold (mcp_dir root) (gdignore_file root) (gitignore_file root)
    (bridge_script_file root) (project_file root).
  rewrite injectBridgeAutoload_parts.
  rewrite bool_decide_eq_false_2 by exact Hin. cbv zeta.
  pose proof (ensure_mcp_dir_prepared root (disk s)) as Hprep1.
  set (d1 := ensure_mcp_dir root (disk s)) in *.
  destruct (ensure_gitignore root d1) as [d2|message] eqn:Hd2.
  2:{ exfalso. apply ensure_gitignore_throws in Hd2 as [Hex Hnone].
      unfold existsSync in Hex. rewrite Hnone in Hex.
      rewrite bool_decide_eq_false_2 in Hex by (intros [? ?]; discriminate).
      cbn [orb] in Hex. apply bool_decide_eq_true in Hex.
      apply ensure_mcp_dir_dirs in Hex as [Hex | Hex]; [contradiction |].
      revert Hex. paths_differ. }
  destruct (ensure_gitignore_returns root d1 d2 Hd2) as [Hign2 Hprep2].
  specialize (Hprep2 Hprep1).
  pose proof (fun q => ensure_gitignore_frame root d1 d2 q Hd2) as Hframe2.
  pose proof (place_script_prepared root (bridgeScript s) d2 Hprep2) as Hprep3.
  pose proof (place_script_ignoring root (bridgeScript s) d2 Hign2) as Hign3.
  assert (Hscript3 : files (place_script root (bridgeScript s) d2)
                       !! bridge_script_file root = Some (bridgeScript s)).
  { rewrite place_script_files. apply lookup_insert_eq. }
  pose proof (place_script_project root (bridgeScript s) d2) as Hpf3.
  assert (Hpf2 : files d2 !! project_file root = files (disk s) !! project_file root).
  { rewrite (proj2 (Hframe2 _)) by paths_differ.
    subst d1. now rewrite ensure_mcp_dir_files by paths_differ. }
  rewrite Hpf2 in Hpf3.
  set (d3 := place_script root (bridgeScript s) d2) in *.
  destruct Hprep3 as [Hmcp3 Hgd3]. destruct Hign3 as (ignored & Hignored & Hinc).
  destruct (files (disk s) !! project_file root) as [original|] eqn:Horig.
  - assert (Hsome : exists content, files d3 !! project_file root = Some content).
    { rewrite Hpf3. destruct (includes _ original); eauto. }
    destruct Hsome as [content Hcontent]. rewrite Hcontent.
    destruct (includes bridge_entry content) eqn:Hentry; cbn [fst snd disk set_disk
      set_injected injectedProjects].
    + repeat split; try assumption.
      * now exists ignored.
      * apply elem_of_union_l. now apply elem_of_singleton.
      * now exists content.
    + repeat split.
      * now apply existsSync_write_keeps.
      * now apply existsSync_write_keeps.
      * exists ignored. split; [| exact Hinc]. cbn [files writeFileSync].
        rewrite lookup_insert_ne by paths_differ. exact Hignored.
      * cbn [files writeFileSync]. rewrite lookup_insert_ne by paths_differ.
        exact Hscript3.
      * apply elem_of_union_l. now apply elem_of_singleton.
      * exists (with_entry bridge_entry content).
        split; [cbn [files writeFileSync]; apply lookup_insert_eq |].
        now apply with_entry_includes.
  - rewrite Hpf3. cbn [fst snd disk set_disk injectedProjects].
    repeat split; try assumption.
    + now exists ignored.
    + eexists. reflexivity.
Qed.

Lemma X10_witness :
  existsSync (join "/games/a" ".mcp")
    (disk (fst (injectBridgeAutoload "/games/a" demo_state))) = true
  /\ existsSync (join (join "/games/a" ".mcp") ".gdignore")
       (disk (fst (injectBridgeAutoload "/games/a" demo_state))) = true
  /\ (exists ignored,
        files (disk (fst (injectBridgeAutoload "/games/a" demo_state)))
          !! join "/games/a" ".gitignore" = Some ignored
        /\ includes mcpGitignoreEntry ignored = true)
  /\ files (disk (fst (injectBridgeAutoload "/games/a" demo_state)))
       !! join "/games/a" "mcp_bridge.gd" = Some (bridgeScript demo_state)
  /\ match files (disk demo_state) !! join "/games/a" "project.godot" with
     | Some _ =>
         snd (injectBridgeAutoload "/games/a" demo_state) = Returns tt
         /\ "/games/a" ∈ injectedProjects (fst (injectBridgeAutoload "/games/a" demo_state))
         /\ exists file,
             files (disk (fst (injectBridgeAutoload "/games/a" demo_state)))
               !! join "/games/a" "project.godot" = Some file
             /\ includes bridge_entry file = true
     | None =>
         (exists message, snd (injectBridgeAutoload "/games/a" demo_state) = Throws message)
         /\ injectedProjects (fst (injectBridgeAutoload "/games/a" demo_state))
            = injectedProjects demo_state
         /\ files (disk (fst (injectBridgeAutoload "/games/a" demo_state)))
              !! join "/games/a" "project.godot" = None
     end.
Proof.
  apply (injection_prepares_the_root "/games/a" demo_state).
  - apply not_elem_of_empty.
  - vm_compute. reflexivity.
Defined.

End RunnerMore.

(** * Properties of the output filters *)

Module OutputProps.
Import Runner RunnerProps Output.

(** **** Indices and white space *)

Lemma indexOf_firstn (c : ascii) (s : Text) (i j : nat) :
  indexOf c s = Some i -> j <= i -> indexOf c (firstn j s) = None.
Proof.
  revert i j. induction s as [|x s IH]; intros i j H Hj; [discriminate |].
  destruct j as [|j]; [reflexivity |]. cbn [firstn indexOf] in *.
  destruct (Ascii.eqb x c); [injection H as <-; lia |].
  destruct (indexOf c s) as [i'|] eqn:Hi; [| discriminate].
  injection H as <-. rewrite (IH i' j eq_refl); [reflexivity | lia].
Qed.

Lemma indexOf_none_firstn (c : ascii) (s : Text) (j : nat) :
  indexOf c s = None -> indexOf c (firstn j s) = None.
Proof.
  revert j. induction s as [|x s IH]; intros j H; [now destruct j |].
  destruct j as [|j]; [reflexivity |]. cbn [firstn indexOf] in *.
  destruct (Ascii.eqb x c); [discriminate |].
  destruct (indexOf c s); [discriminate |]. now rewrite IH.
Qed.

Lemma indexOf_app_none (c : ascii) (x y : Text) :
  indexOf c x = None -> indexOf c y = None -> indexOf c (x ++ y) = None.
Proof.
  intros Hx Hy. induction x as [|a x IH]; [exact Hy |]. cbn [app indexOf] in *.
  destruct (Ascii.eqb a c); [discriminate |].
  destruct (indexOf c x); [discriminate |]. now rewrite IH.
Qed.

Lemma indexOf_spaces (c : ascii) (w : Text) :
  is_space c = false -> forallb is_space w = true -> indexOf c w = None.
Proof.
  intros Hc. induction w as [|a w IH]; [reflexivity |]. cbn [forallb indexOf].
  intros H. apply andb_true_iff in H as [Ha Hw].
  destruct (Ascii.eqb_spec a c) as [-> | _]; [congruence |]. now rewrite IH.
Qed.

Lemma trimStart_prefix (s : Text) :
  exists w, s = w ++ trimStart s /\ forallb is_space w = true.
Proof.
  induction s as [|c s (w & Hs & Hw)]; [now exists [] |]. cbn [trimStart].
  destruct (is_space c) eqn:Hc.
  - exists (c :: w). split; [cbn [app]; now f_equal | cbn; now rewrite Hc].
  - now exists [].
Qed.

(** What [trim] leaves is a part of the text, between white space. *)
Lemma trim_part (s : Text) :
  exists before after,
    s = before ++ trim s ++ after
    /\ forallb is_space before = true /\ forallb is_space after = true.
Proof.
  destruct (trimEnd_prefix s) as (after & Hs & Hafter).
  destruct (trimStart_prefix (trimEnd s)) as (before & Ht & Hbefore).
  exists before, after. unfold trim. repeat split; try assumption.
  rewrite app_assoc, <- Ht. exact Hs.
Qed.

Section Json.

Variable parses : Text -> bool.

(** X12. [extractJson] returns the output as it is, or a part of it that
    [JSON.parse] accepts; before that part the output holds no brace and no
    bracket, so the part begins where the first of them stands, or in the
    white space around it. *)
Theorem extractJson_output_or_json (output : Text) :
  extractJson parses output = output
  \/ (parses (extractJson parses output) = true
      /\ exists before after,
          output = before ++ extractJson parses output ++ after
          /\ indexOf "{" before = None /\ indexOf "[" before = None).
Proof.
  unfold extractJson.
  set (found := match indexOf "{" output, indexOf "[" output with
                | None, None => None
                | None, Some k => Some k
                | Some b, None => Some b
                | Some b, Some k => Some (Nat.min b k)
                end).
  assert (Hfound : forall jsonStart, found = Some jsonStart ->
             indexOf "{" (firstn jsonStart output) = None
             /\ indexOf "[" (firstn jsonStart output) = None).
  { intros jsonStart. subst found.
    destruct (indexOf "{" output) as [b|] eqn:Hb, (indexOf "[" output) as [k|] eqn:Hk;
      intros H; inversion H; subst; split;
      first [ eapply indexOf_firstn; [eassumption | lia]
            | now apply indexOf_none_firstn ]. }
  destruct found as [jsonStart|]; [| now left].
  destruct (Hfound jsonStart eq_refl) as [Hbrace Hbracket]. cbv zeta.
  set (jsonPart := skipn jsonStart output).
  assert (Hout : output = firstn jsonStart output ++ jsonPart).
  { subst jsonPart. now rewrite List.firstn_skipn. }
  destruct (parses (trim jsonPart)) eqn:Htrim.
  - right. split; [exact Htrim |].
    destruct (trim_part jsonPart) as (before & after & Hpart & Hbefore & Hafter).
    exists (firstn jsonStart output ++ before), after. repeat split.
    + rewrite <- app_assoc, <- Hpart. exact Hout.
    + apply indexOf_app_none; [exact Hbrace | now apply indexOf_spaces].
    + apply indexOf_app_none; [exact Hbracket | now apply indexOf_spaces].
  - destruct (max_index (lastIndexOf "}" jsonPart) (lastIndexOf "]" jsonPart))
      as [[|before_last]|]; try (now left).
    destruct (parses (firstn (S (S before_last)) jsonPart)) eqn:Hex; [| now left].
    right. split; [exact Hex |].
    exists (firstn jsonStart output), (skipn (S (S before_last)) jsonPart).
    repeat split; try assumption.
    now rewrite List.firstn_skipn.
Qed.

End Json.

(** **** [isGodot44OrLater] *)

Lemma parseInt_uint (d : Decimal.uint) (acc : nat) :
  fold_left (fun acc c => 10 * acc + (Ascii.nat_of_ascii c - 48))
    (txt (NilEmpty.string_of_uint d)) acc
  = Nat.of_uint_acc d acc.
Proof.
  revert acc. induction d; intros acc;
    cbn [NilEmpty.string_of_uint txt list_ascii_of_string fold_left Nat.of_uint_acc];
    try reflexivity; rewrite IHd, Nat.tail_mul_spec; f_equal;
    match goal with
    | |- context [Ascii.nat_of_ascii ?c - 48] =>
        let v := eval vm_compute in (Ascii.nat_of_ascii c - 48) in
        change (Ascii.nat_of_ascii c - 48) with v
    end; lia.
Qed.

Lemma parseInt_decimal (n : nat) : parseInt (decimal n) = n.
Proof.
  unfold parseInt, decimal, Str.of_nat. rewrite parseInt_uint.
  apply DecimalNat.Unsigned.of_to.
Qed.

Lemma leading_digits_uint (d : Decimal.uint) (rest : Text) :
  match rest with c :: _ => is_digit c = false | [] => True end ->
  leading_digits (txt (NilEmpty.string_of_uint d) ++ rest)
  = (txt (NilEmpty.string_of_uint d), rest).
Proof.
  intros Hrest.
  induction d; cbn [NilEmpty.string_of_uint txt list_ascii_of_string app];
    try (cbn [leading_digits]; change (is_digit _) with true; cbv iota;
         fold (txt (NilEmpty.string_of_uint d)); now rewrite IHd).
  destruct rest as [|c rest]; [reflexivity |]. cbn [leading_digits]. now rewrite Hrest.
Qed.

Lemma leading_digits_decimal (n : nat) (rest : Text) :
  match rest with c :: _ => is_digit c = false | [] => True end ->
  leading_digits (decimal n ++ rest) = (decimal n, rest).
Proof. unfold decimal, Str.of_nat. apply leading_digits_uint. Qed.

Lemma decimal_nonempty (n : nat) : exists c ds, decimal n = c :: ds.
Proof.
  unfold decimal, Str.of_nat.
  destruct (Nat.to_uint n) as [|d|d|d|d|d|d|d|d|d|d] eqn:Hn;
    try (cbn; eauto; fail).
  exfalso. pose proof (DecimalNat.Unsigned.of_to n) as H. rewrite Hn in H.
  cbn in H. subst n. discriminate Hn.
Qed.

(** X13. On a version text that begins with two decimal numbers separated
    by a dot, [isGodot44OrLater] answers whether the first is above 4, or is
    4 with the second at least 4, whatever follows the second number; on a
    text that does not begin with a digit (a leading [v], the empty text) it
    answers no. *)
Theorem isGodot44OrLater_reads_major_and_minor (major minor : nat) (rest : Text) :
  (match rest with c :: _ => is_digit c = false | [] => True end ->
   isGodot44OrLater (decimal major ++ "."%char :: decimal minor ++ rest)
   = (4 <? major) || ((major =? 4) && (4 <=? minor)))
  /\ (forall c s, is_digit c = false -> isGodot44OrLater (c :: s) = false)
  /\ isGodot44OrLater [] = false.
Proof.
  split; [| split; [| reflexivity]].
  - intros Hrest. unfold isGodot44OrLater, version_match.
    rewrite leading_digits_decimal by reflexivity.
    destruct (decimal_nonempty major) as (c & ds & Hmajor). rewrite Hmajor.
    cbn [Ascii.eqb Bool.eqb]. cbv iota.
    rewrite leading_digits_decimal by exact Hrest.
    destruct (decimal_nonempty minor) as (c' & ds' & Hminor). rewrite Hminor.
    rewrite <- Hmajor, <- Hminor, !parseInt_decimal. reflexivity.
  - intros c s Hc. unfold isGodot44OrLater, version_match. cbn [leading_digits].
    now rewrite Hc.
Qed.

Lemma X13_witness :
  isGodot44OrLater (decimal 4 ++ "."%char :: decimal 3 ++ txt ".stable.official")
  = (4 <? 4) || ((4 =? 4) && (4 <=? 3)).
Proof.
  destruct (isGodot44OrLater_reads_major_and_minor 4 3 (txt ".stable.official"))
    as [Hreads _].
  apply Hreads. reflexivity.
Defined.

End OutputProps.

(** * Properties of [manage_uids] *)

Module UidToolsProps.
Import Runner Tools ToolsProps Output UidTools.

(** X14. [manage_uids] hands an operation to the headless engine only when
    the engine has told its version and that version is 4.4 or later, the
    project path has passed [validatePath] and holds a project file; and for
    [get] only when the file path has passed [validatePath] too and the file
    is there.  What it answers by itself is always an error. *)
Theorem manage_uids_needs_godot_4_4 (args : OperationParams)
    (version : Completion string) (d : Disk) :
  (forall r, handleManageUids args version d = Some (Responds r) -> is_error r = true)
  /\ (forall op params projectPath after,
        handleManageUids args version d = Some (Executes op params projectPath after) ->
        (exists v, version = Returns v /\ isGodot44OrLater (txt v) = true)
        /\ get (normalizeParameters args) "projectPath" = Some (JString projectPath)
        /\ validatePath projectPath = true
        /\ existsSync (join projectPath "project.godot") d = true
        /\ ((op = "get_uid"
             /\ exists filePath,
                 get (normalizeParameters args) "filePath" = Some (JString filePath)
                 /\ validatePath filePath = true
                 /\ existsSync (join projectPath filePath) d = true
                 /\ params = [("filePath", JString filePath)])
            \/ (op = "resave_resources"
                /\ params = [("projectPath", JString projectPath)]))).
Proof.
  unfold handleManageUids, caught. cbv zeta. set (a := normalizeParameters args).
  destruct (falsy (get a "operation"));
    [split; [intros r H; now injection H as <- | discriminate] |].
  destruct (falsy (get a "projectPath"));
    [split; [intros r H; now injection H as <- | discriminate] |].
  destruct (validatePath_of (get a "projectPath")) as [[|] | message] eqn:Hvalid;
    cbn; [| split; [intros r H; now injection H as <- | discriminate]
          | split; discriminate].
  destruct (as_path (get a "projectPath")) as [pp | message] eqn:Hpp; cbn;
    [| split; discriminate].
  apply as_path_inv in Hpp. rewrite Hpp in Hvalid |- *.
  apply validatePath_of_string in Hvalid.
  destruct (existsSync (join pp "project.godot") d) eqn:Hproject; cbn;
    [| split; [intros r H; now injection H as <- | discriminate]].
  destruct version as [v | message]; cbn;
    [| destruct (text_of (get a "operation")); cbn;
       split; try discriminate; intros r H; now injection H as <-].
  destruct (isGodot44OrLater (txt v)) eqn:Hversion; cbn;
    [| split; [intros r H; now injection H as <- | discriminate]].
  destruct (strictly (get a "operation") "get").
  { destruct (falsy (get a "filePath")); cbn;
      [split; [intros r H; now injection H as <- | discriminate] |].
    destruct (validatePath_of (get a "filePath")) as [[|] | message] eqn:Hvf; cbn;
      [| split; [intros r H; now injection H as <- | discriminate]
       | destruct (text_of (get a "operation")); cbn;
         split; try discriminate; intros r H; now injection H as <-].
    destruct (as_path (get a "filePath")) as [filePath | message] eqn:Hfile; cbn;
      [| destruct (text_of (get a "operation")); cbn;
         split; try discriminate; intros r H; now injection H as <-].
    apply as_path_inv in Hfile. rewrite Hfile in Hvf |- *.
    apply validatePath_of_string in Hvf.
    destruct (existsSync (join pp filePath) d) eqn:Hexists; cbn;
      [| split; [intros r H; now injection H as <- | discriminate]].
    split; [discriminate |].
    intros op params projectPath after H. injection H as <- <- <- _.
    repeat split; eauto. left. split; [reflexivity |]. now exists filePath. }
  destruct (strictly (get a "operation") "update").
  { split; [discriminate |]. cbn.
    intros op params projectPath after H. injection H as <- <- <- _.
    repeat split; eauto. }
  destruct (text_of (get a "operation")); cbn;
    [split; [intros r H; now injection H as <- | discriminate] |].
  destruct (text_of (get a "operation")); cbn;
    split; try discriminate; intros r H; now injection H as <-.
Qed.

Lemma X14_witness :
  (exists v, Returns "4.4.1.stable" = Returns v /\ isGodot44OrLater (txt v) = true)
  /\ get (normalizeParameters demo_uid_args) "projectPath" = Some (JString "/games/a")
  /\ validatePath "/games/a" = true
  /\ existsSync (join "/games/a" "project.godot") demo_disk = true
  /\ (("get_uid" = "get_uid"
       /\ exists filePath,
           get (normalizeParameters demo_uid_args) "filePath" = Some (JString filePath)
           /\ validatePath filePath = true
           /\ existsSync (join "/games/a" filePath) demo_disk = true
           /\ [("filePath", JString "project.godot")] = [("filePath", JString filePath)])
      \/ ("get_uid" = "resave_resources"
          /\ [("filePath", JString "project.godot")]
             = [("projectPath", JString "/games/a")])).
Proof.
  destruct (manage_uids_needs_godot_4_4 demo_uid_args (Returns "4.4.1.stable") demo_disk)
    as [_ Hexec].
  apply (Hexec "get_uid" [("filePath", JString "project.godot")] "/games/a"
           (report_get_uid "get" "project.godot")).
  vm_compute. reflexivity.
Defined.

End UidToolsProps.

(** * Properties of [_serialize_value] *)

Module SerializeProps.
Import Bridge Serialize.

Lemma dict_set_new (d : Dictionary) (key : string) (value : Variant) :
  ~ In key (map fst d) -> dict_set d key value = d ++ [(key, value)].
Proof.
  induction d as [|[k v] d IH]; intros Hnew; [reflexivity |].
  cbn [dict_set app]. destruct (String.eqb_spec k key) as [-> | _].
  - exfalso. apply Hnew. now left.
  - rewrite IH; [reflexivity |]. intros Hin. apply Hnew. now right.
Qed.

Section Serializer.

Variable str : GdValue -> string.

(** The entries of a dictionary with String keys that are all new go to the
    end of the result, one after the other. *)
Lemma serialize_entries (entries : list (string * Variant)) (result : Dictionary) :
  Forall (fun entry => _serialize_value str (of_json (snd entry)) = snd entry) entries ->
  List.NoDup (map fst result ++ map fst entries) ->
  fold_left
    (fun result entry =>
       dict_set result (str_of str (fst entry)) (_serialize_value str (snd entry)))
    (map (fun entry => (GString (fst entry), of_json (snd entry))) entries) result
  = result ++ entries.
Proof.
  revert result. induction entries as [|[k v] entries IH]; intros result Hvalues Hkeys.
  - cbn. now rewrite app_nil_r.
  - inversion Hvalues as [|? ? Hv Hrest]; subst. cbn [snd] in Hv.
    cbn [map fold_left fst snd str_of]. rewrite Hv.
    assert (Hnew : ~ In k (map fst result)).
    { intros Hin. cbn [map fst] in Hkeys. apply List.NoDup_remove_2 in Hkeys. apply Hkeys.
      apply in_or_app. now left. }
    rewrite (dict_set_new _ _ _ Hnew).
    rewrite IH; [now rewrite <- app_assoc | exact Hrest |].
    rewrite map_app. cbn [map fst]. now rewrite <- app_assoc.
Qed.

(** X16. A result that is already made of JSON values (null, booleans,
    numbers, strings, arrays, and dictionaries with String keys, no key
    twice) goes through [_serialize_value] unchanged. *)
Theorem serialize_keeps_json_values (v : Variant) :
  keys_distinct v -> _serialize_value str (of_json v) = v.
Proof.
  induction v as [| b | z | q | s | items IH | entries IH] using Variant_forall_ind;
    intros Hv; try reflexivity.
  - inversion Hv as [| | | | |? Hitems|]; subst. clear Hv.
    cbn [of_json _serialize_value]. f_equal. rewrite map_map.
    induction items as [|x items IHl]; [reflexivity |].
    inversion IH; inversion Hitems; subst. cbn [map]. f_equal; auto.
  - inversion Hv as [| | | | | |? Hkeys Hvalues]; subst. clear Hv.
    cbn [of_json _serialize_value]. f_equal.
    rewrite serialize_entries; [reflexivity | | exact Hkeys].
    clear Hkeys. induction entries as [|e entries IHl]; [constructor |].
    inversion IH; inversion Hvalues; subst. constructor; auto.
Qed.

End Serializer.

Lemma X16_witness :
  _serialize_value (fun _ => "<value>") (of_json demo_result) = demo_result.
Proof.
  apply (serialize_keeps_json_values (fun _ => "<value>") demo_result).
  constructor.
  - cbn. repeat constructor; cbn; intuition discriminate.
  - repeat constructor.
Defined.

End SerializeProps.

(** * Properties of [get_debug_output] *)

Module DebugToolProps.
Import Bridge Runner Tools DebugTool.

Lemma truncate_whole (z : Z) : truncate (inject_Z z) = z.
Proof.
  unfold truncate. destruct (Qle_bool 0 (inject_Z z));
    [apply Qfloor_Z | apply Qceiling_Z].
Qed.

Lemma slice_last {A : Type} (l : list A) (n : nat) :
  1 <= n -> slice l (- inject_Z (Z.of_nat n))%Q = last_items n l.
Proof.
  intros Hn. unfold slice, last_items.
  replace (- inject_Z (Z.of_nat n))%Q with (inject_Z (- Z.of_nat n)) by reflexivity.
  rewrite truncate_whole.
  destruct (Z.ltb_spec (- Z.of_nat n) 0) as [_ | H]; [| lia].
  now rewrite Z.opp_involutive, Nat2Z.id.
Qed.

Lemma slice_zero {A : Type} (l : list A) : slice l (- 0)%Q = l.
Proof. reflexivity. Qed.

Section Handler.

Variable JSON_stringify : Variant -> string.

(** X17. While a process is active, [get_debug_output] with a whole number
    [n] of at least 1 as its limit answers with the last [n] lines of the
    output and the last [n] lines of the errors (all of them when there are
    fewer), and without a limit with the last 200; with the limit 0 it
    answers with all the lines, not with none. *)
Theorem debug_output_limit (proc : GodotProcess) (n : nat) :
  let answer (out err : list string) :=
    Content (JSON_stringify
               (VDict ([("output", strings out); ("errors", strings err);
                        ("running", VBool (negb (hasExited proc)))]
                       ++ (if hasExited proc
                           then [("exitCode", match exitCode proc with
                                              | Some code => VInt code
                                              | None => VNil
                                              end)]
                           else [])))) in
  (1 <= n ->
   handleGetDebugOutput JSON_stringify (Some proc) (Some (inject_Z (Z.of_nat n)))
   = answer (last_items n (output proc)) (last_items n (errors proc)))
  /\ handleGetDebugOutput JSON_stringify (Some proc) None
     = answer (last_items 200 (output proc)) (last_items 200 (errors proc))
  /\ handleGetDebugOutput JSON_stringify (Some proc) (Some 0%Q)
     = answer (output proc) (errors proc).
Proof.
  cbv zeta. unfold handleGetDebugOutput. repeat split.
  intros Hn. now rewrite !slice_last by exact Hn.
Qed.

End Handler.

Lemma X17_witness :
  handleGetDebugOutput (fun _ => "") (Some demo_chatty) (Some (inject_Z (Z.of_nat 3)))
  = Content ((fun _ => "")
               (VDict ([("output", strings (last_items 3 (output demo_chatty)));
                        ("errors", strings (last_items 3 (errors demo_chatty)));
                        ("running", VBool (negb (hasExited demo_chatty)))]
                       ++ (if hasExited demo_chatty
                           then [("exitCode", match exitCode demo_chatty with
                                              | Some code => VInt code
                                              | None => VNil
                                              end)]
                           else [])))).
Proof.
  destruct (debug_output_limit (fun _ => "") demo_chatty 3) as [Hlast _].
  apply Hlast. lia.
Defined.

End DebugToolProps.

(** * Properties of the headless operations *)

Module OperationsProps.
Import Bridge BridgeProps Operations.

Section Scene.

Variable script_path_of : Node -> string.

Lemma tree_entries_build (node : Node) (path : string) (depth max_depth : Z) :
  tree_entries (VDict (build_tree_recursive script_path_of node path depth max_depth))
  = S ((fix total (l : list Variant) : nat :=
          match l with
          | [] => 0
          | child :: l' => tree_entries child + total l'
          end)
         (if (max_depth <? 0)%Z || (depth <? max_depth)%Z
          then (fix each (l : list Node) : list Variant :=
                  match l with
                  | [] => []
                  | child :: l' =>
                      VDict (build_tree_recursive script_path_of child
                               (if negb (String.eqb path "")
                                then path +:+ "/" +:+ name node else name node)
                               (depth + 1) max_depth)
                      :: each l'
                  end) (get_children node)
          else [])).
Proof. destruct node. reflexivity. Qed.

(** X18. The tree that [build_tree_recursive] makes has one entry for every
    node of the scene when [max_depth] is negative, and otherwise one entry
    for every node that is at most [max_depth - depth] levels below the node
    it starts from: with [max_depth] 0 the root alone. *)
Theorem tree_reaches_max_depth (node : Node) (path : string) (depth max_depth : Z) :
  tree_entries (VDict (build_tree_recursive script_path_of node path depth max_depth))
  = if (max_depth <? 0)%Z then node_count node
    else nodes_within (Z.to_nat (max_depth - depth)) node.
Proof.
  revert path depth.
  induction node as [nm cls vis rect txt ph tip dis kids IH] using Node_forall_ind.
  intros path depth. rewrite tree_entries_build. cbn [get_children name].
  set (node_path := if negb (String.eqb path "") then path +:+ "/" +:+ nm else nm).
  destruct (Z.ltb_spec max_depth 0) as [Hall | Hlimit]; cbn [orb].
  - cbn [node_count]. f_equal.
    induction kids as [|k kids IHk]; [reflexivity |].
    inversion IH as [|? ? Hk Hkids]; subst.
    rewrite (Hk node_path (depth + 1)%Z).
    destruct (Z.ltb_spec max_depth 0) as [_ | ?]; [| lia].
    f_equal. now apply IHk.
  - destruct (Z.ltb_spec depth max_depth) as [Hdeeper | Hstop].
    + replace (Z.to_nat (max_depth - depth))
        with (S (Z.to_nat (max_depth - (depth + 1)))) by lia.
      cbn [nodes_within]. f_equal.
      induction kids as [|k kids IHk]; [reflexivity |].
      inversion IH as [|? ? Hk Hkids]; subst.
      rewrite (Hk node_path (depth + 1)%Z).
      destruct (Z.ltb_spec max_depth 0) as [? | _]; [lia |].
      f_equal. now apply IHk.
    + replace (Z.to_nat (max_depth - depth)) with 0 by lia. reflexivity.
Qed.

End Scene.

End OperationsProps.
(** * Properties of the names of the parameters *)

Module KeysProps.
Import Runner Keys.

(** **** Objects as lists of fields *)

Lemma get_set (obj : OperationParams) (key key' : string) (value : JsValue) :
  get (set obj key value) key'
  = if String.eqb key key' then Some value else get obj key'.
Proof.
  induction obj as [|[k v] obj IH]; cbn [set get].
  - reflexivity.
  - destruct (String.eqb_spec k key) as [Heq | Hk]; cbn [get].
    + subst k. destruct (String.eqb key key'); reflexivity.
    + destruct (goes_before key k); cbn [get]; [reflexivity |].
      rewrite IH. destruct (String.eqb_spec k key') as [Heq | _]; [| reflexivity].
      subst k. destruct (String.eqb_spec key key') as [Heq | _];
        [now subst | reflexivity].
Qed.

(** A key that is new to the object and goes before none of its keys
    becomes its last field. *)
Lemma set_last (obj : OperationParams) (key : string) (value : JsValue) :
  forallb (fun earlier => negb (String.eqb earlier key) && negb (goes_before key earlier))
    (map fst obj) = true ->
  set obj key value = obj ++ [(key, value)].
Proof.
  induction obj as [|[k v] obj IH]; cbn [map fst forallb set app]; [reflexivity |].
  intros H. apply andb_true_iff in H as [Hk Hrest].
  apply andb_true_iff in Hk as [Hne Hbefore].
  apply negb_true_iff in Hne, Hbefore. rewrite Hne, Hbefore. now rewrite IH.
Qed.

Lemma key_order_snoc (keys : list string) (key : string) (rest : list string) :
  key_order (keys ++ key :: rest) = true ->
  forallb (fun earlier => negb (String.eqb earlier key) && negb (goes_before key earlier))
    keys = true.
Proof.
  induction keys as [|k keys IH]; cbn [app key_order forallb]; [reflexivity |].
  intros H. apply andb_true_iff in H as [Hk Hrest].
  rewrite forallb_app in Hk. apply andb_true_iff in Hk as [_ Hk].
  cbn [forallb] in Hk. apply andb_true_iff in Hk as [Hk _].
  rewrite Hk. now apply IH.
Qed.

Section Renaming.

Variable rename : string -> string.
Variable convert : JsValue -> JsValue.
Variable put : OperationParams -> string -> JsValue -> OperationParams.

(** The loop of the two conversions, over fields whose new keys are in the
    order of the keys: the fields come out one after the other. *)
Lemma renamed_in_order (params result : OperationParams) :
  (forall obj field, In field params ->
     put obj (rename (fst field)) (convert (snd field))
     = set obj (rename (fst field)) (convert (snd field))) ->
  key_order (map fst result ++ map rename (map fst params)) = true ->
  fold_left (fun result field => put result (rename (fst field)) (convert (snd field)))
    params result
  = result ++ map (fun field => (rename (fst field), convert (snd field))) params.
Proof.
  revert result. induction params as [|field params IH]; intros result Hput Horder.
  - cbn. now rewrite app_nil_r.
  - cbn [fold_left map]. cbn [map] in Horder.
    rewrite Hput by now left.
    rewrite set_last by exact (key_order_snoc _ _ _ Horder).
    rewrite IH.
    + now rewrite <- app_assoc.
    + intros obj f Hin. apply Hput. now right.
    + rewrite map_app, <- app_assoc. exact Horder.
Qed.

End Renaming.

(** **** The two tables *)

Ltac table_rows H :=
  repeat match type of H with
         | context [String.eqb ?a ?b] =>
             let Heq := fresh "Hrow" in
             destruct (String.eqb_spec a b) as [Heq | Heq];
             [try (subst; injection H as <-) |]
         end.

Lemma camel_is_reversed (key camel : string) :
  mapping parameterMappings key = Some camel ->
  mapping reverseParameterMappings camel = Some key
  /\ array_index key = None /\ array_index camel = None.
Proof.
  intros H. cbn [mapping parameterMappings] in H. table_rows H;
    try (repeat split; reflexivity); discriminate.
Qed.

Lemma reversed_has_capital (key snake : string) :
  mapping reverseParameterMappings key = Some snake -> lower_case key = false.
Proof.
  intros H. cbn [mapping reverseParameterMappings parameterMappings map] in H.
  table_rows H; try reflexivity; discriminate.
Qed.

Lemma mapping_In (table : list (string * string)) (key name : string) :
  mapping table key = Some name -> In (key, name) table.
Proof.
  induction table as [|[k v] table IH]; cbn [mapping In]; [discriminate |].
  destruct (String.eqb_spec k key) as [-> | _]; [intros [= ->]; now left | auto].
Qed.

(** The text of a member of [Object.prototype] is no name of the table. *)
Lemma prototype_text (key text : string) :
  Object_prototype key = Some text ->
  exists rest, text = String "[" rest \/ text = String "f" (String "u" rest).
Proof.
  unfold Object_prototype. intros H.
  destruct (String.eqb key "__proto__"); [injection H as <-; eauto |].
  destruct (String.eqb key "constructor"); [injection H as <-; eauto |].
  destruct (existsb _ _); [injection H as <-; cbn; eauto | discriminate].
Qed.

(** The fields that get the name [camel] are those given as [snake] or as
    [camel]. *)
Lemma normalizedKey_row (snake camel given : string) :
  In (snake, camel) parameterMappings ->
  String.eqb (normalizedKey given) camel
  = String.eqb given snake || String.eqb given camel.
Proof.
  intros Hrow.
  destruct (String.eqb_spec given snake) as [-> | Hsnake].
  { cbn [parameterMappings In] in Hrow.
    repeat (destruct Hrow as [[= <- <-] | Hrow]; [reflexivity |]). destruct Hrow. }
  destruct (String.eqb_spec given camel) as [-> | Hcamel].
  { cbn [parameterMappings In] in Hrow.
    repeat (destruct Hrow as [[= <- <-] | Hrow]; [reflexivity |]). destruct Hrow. }
  cbn [orb]. apply String.eqb_neq. intros Heq. unfold normalizedKey in Heq.
  destruct (Str.includes "_" given); [| contradiction].
  unfold table_lookup in Heq.
  destruct (mapping parameterMappings given) as [name |] eqn:Hm.
  - subst name. apply mapping_In in Hm. cbn [parameterMappings In] in Hrow, Hm.
    repeat (destruct Hrow as [[= <- <-] | Hrow]; [intuition congruence |]).
    destruct Hrow.
  - destruct (Object_prototype given) as [text |] eqn:Hp; [| contradiction].
    apply prototype_text in Hp as [rest Hp]. subst text.
    cbn [parameterMappings In] in Hrow.
    repeat (destruct Hrow as [[= <- <-] | Hrow]; [destruct Hp; discriminate |]).
    destruct Hrow.
Qed.

(** **** The later spelling *)

Lemma get_normalized (params result : OperationParams) (key : string) :
  get (fold_left
         (fun result field =>
            set result (normalizedKey (fst field)) (normalize_value (snd field)))
         params result) key
  = fold_left
      (fun found field =>
         if String.eqb (normalizedKey (fst field)) key
         then Some (normalize_value (snd field)) else found)
      params (get result key).
Proof.
  revert result. induction params as [|field params IH]; intros result; [reflexivity |].
  cbn [fold_left]. now rewrite IH, get_set.
Qed.

Lemma last_value_normalized (wanted : string -> bool) (key : string)
    (params : OperationParams) (found : option JsValue) :
  (forall given, String.eqb (normalizedKey given) key = wanted given) ->
  fold_left
    (fun found field =>
       if String.eqb (normalizedKey (fst field)) key
       then Some (normalize_value (snd field)) else found)
    params (option_map normalize_value found)
  = option_map normalize_value
      (fold_left (fun found field => if wanted (fst field) then Some (snd field) else found)
         params found).
Proof.
  intros Hwanted. revert found.
  induction params as [|field params IH]; intros found; [reflexivity |].
  cbn [fold_left]. rewrite <- IH, Hwanted. now destruct (wanted (fst field)).
Qed.

(** X19. An argument that the table of names knows can be given in snake
    case or in camel case, and the later spelling wins: in the normalized
    arguments the field of the camel case name has the value, normalized in
    its turn, of the last argument that was given under one of the two
    names; it is missing when there is none. *)
Theorem normalizeParameters_later_spelling_wins (params : OperationParams)
    (snake camel : string) :
  In (snake, camel) parameterMappings ->
  get (normalizeParameters params) camel
  = option_map normalize_value
      (last_value (fun given => String.eqb given snake || String.eqb given camel) params).
Proof.
  intros Hrow. unfold normalizeParameters, last_value. rewrite get_normalized.
  apply (last_value_normalized
           (fun given => String.eqb given snake || String.eqb given camel)
           camel params None).
  intros given. now apply normalizedKey_row.
Qed.

Lemma X19_witness :
  get (normalizeParameters demo_two_spellings) "scenePath"
  = option_map normalize_value
      (last_value (fun given => String.eqb given "scene_path" || String.eqb given "scenePath")
         demo_two_spellings).
Proof.
  apply (normalizeParameters_later_spelling_wins demo_two_spellings
           "scene_path" "scenePath").
  cbn. tauto.
Defined.

(** **** There and back *)

Lemma underscored_lower (key : string) :
  lower_case key = true -> underscored key = key.
Proof.
  unfold lower_case. induction key as [|c key IH]; [reflexivity |].
  cbn [list_ascii_of_string forallb underscored]. intros H.
  apply andb_true_iff in H as [Hc Hrest]. apply negb_true_iff in Hc.
  now rewrite Hc, IH.
Qed.

Lemma snake_key_spec (key : string) :
  snake_key key = true -> lower_case key = true /\ Object_prototype key = None.
Proof.
  unfold snake_key. intros H. apply andb_true_iff in H as [Hl Hp].
  now destruct (Object_prototype key).
Qed.

Lemma snakeKey_normalizedKey (key : string) :
  snake_key key = true ->
  snakeKey (normalizedKey key) = key
  /\ array_index (normalizedKey key) = array_index key.
Proof.
  intros Hkey. apply snake_key_spec in Hkey as [Hlower Hown].
  assert (Hsame : snakeKey key = key).
  { unfold snakeKey, table_lookup.
    destruct (mapping reverseParameterMappings key) as [snake|] eqn:Hr.
    - apply reversed_has_capital in Hr. congruence.
    - rewrite Hown. now apply underscored_lower. }
  unfold normalizedKey, table_lookup.
  destruct (Str.includes "_" key); [| now split].
  destruct (mapping parameterMappings key) as [camel|] eqn:Hm.
  - apply camel_is_reversed in Hm as (Hm & Hkey & Hcamel).
    unfold snakeKey, table_lookup. rewrite Hm. split; congruence.
  - rewrite Hown. now split.
Qed.

Lemma key_order_renamed (rename : string -> string) (keys : list string) :
  Forall (fun key => array_index (rename key) = array_index key) keys ->
  (forall key key', In key keys -> In key' keys -> rename key = rename key' -> key = key') ->
  key_order keys = true -> key_order (map rename keys) = true.
Proof.
  induction keys as [|key keys IH]; intros Hindex Hinj Horder; [reflexivity |].
  cbn [key_order map] in *. apply andb_true_iff in Horder as [Hkey Hrest].
  inversion Hindex as [|? ? Hk Hks]; subst.
  apply andb_true_iff. split.
  - rewrite forallb_forall in Hkey. apply forallb_forall. intros later' Hin.
    apply in_map_iff in Hin as (later & <- & Hin).
    specialize (Hkey later Hin). apply andb_true_iff in Hkey as [Hne Hbefore].
    apply andb_true_iff. split.
    + apply negb_true_iff, String.eqb_neq. intros Heq.
      apply Hinj in Heq; [| now left | now right].
      apply negb_true_iff, String.eqb_neq in Hne. contradiction.
    + rewrite List.Forall_forall in Hks. unfold goes_before in *.
      now rewrite Hk, (Hks later Hin).
  - apply IH; [exact Hks | | exact Hrest].
    intros k k' Hin Hin'. apply Hinj; now right.
Qed.

Lemma not_proto (key : string) : snake_key key = true -> String.eqb key "__proto__" = false.
Proof.
  intros Hkey. apply snake_key_spec in Hkey as [_ Hown].
  apply String.eqb_neq. now intros ->.
Qed.

(** The two conversions, one after the other, on the fields of an object. *)
Lemma round_trip_fields (fields : OperationParams) :
  key_order (map fst fields) = true ->
  Forall (fun field => snake_key (fst field) = true
                       /\ convert_value (normalize_value (snd field)) = snd field)
    fields ->
  fold_left
    (fun result field => assign result (snakeKey (fst field)) (convert_value (snd field)))
    (fold_left
       (fun result field =>
          set result (normalizedKey (fst field)) (normalize_value (snd field)))
       fields [])
    []
  = fields.
Proof.
  intros Horder Hfields.
  assert (Hkeys : Forall (fun key => snakeKey (normalizedKey key) = key
                                     /\ array_index (normalizedKey key) = array_index key
                                     /\ String.eqb key "__proto__" = false)
                    (map fst fields)).
  { apply List.Forall_forall. intros key Hin. apply in_map_iff in Hin as (field & <- & Hin).
    rewrite List.Forall_forall in Hfields. destruct (Hfields field Hin) as [Hkey _].
    destruct (snakeKey_normalizedKey _ Hkey). auto using not_proto. }
  assert (Hback : map snakeKey (map normalizedKey (map fst fields)) = map fst fields).
  { clear Horder Hfields. induction (map fst fields) as [|key keys IH]; [reflexivity |].
    inversion Hkeys as [|? ? (Hk & _) Hks]; subst. cbn [map]. now rewrite Hk, IH. }
  assert (Hforth : key_order (map normalizedKey (map fst fields)) = true).
  { apply key_order_renamed; [| | exact Horder].
    - eapply List.Forall_impl; [| exact Hkeys]. now intros key (_ & Hindex & _).
    - rewrite List.Forall_forall in Hkeys. intros key key' Hin Hin' Heq.
      destruct (Hkeys key Hin) as (<- & _). destruct (Hkeys key' Hin') as (<- & _).
      now rewrite Heq. }
  rewrite (renamed_in_order normalizedKey normalize_value set fields []);
    [| reflexivity | exact Hforth].
  cbn [app].
  rewrite (renamed_in_order snakeKey convert_value assign _ []).
  - cbn [app]. rewrite map_map. clear Horder Hkeys Hback Hforth.
    induction fields as [|[key value] fields IH]; [reflexivity |].
    inversion Hfields as [|? ? [Hkey Hvalue] Hrest]; subst. cbn [map fst snd] in *.
    destruct (snakeKey_normalizedKey _ Hkey) as [-> _]. now rewrite Hvalue, IH.
  - intros obj field Hin. apply in_map_iff in Hin as (given & <- & Hin).
    cbn [fst snd]. unfold assign.
    rewrite List.Forall_forall in Hkeys.
    destruct (Hkeys (fst given)) as (-> & _ & ->); [now apply in_map | reflexivity].
  - cbn [map app].
    replace (map fst (map (fun field : string * JsValue =>
                             (normalizedKey (fst field), normalize_value (snd field)))
                        fields))
      with (map normalizedKey (map fst fields))
      by (rewrite !List.map_map; reflexivity).
    now rewrite Hback.
Qed.

Lemma JsValue_nested_ind (P : JsValue -> Prop) :
  P JNull -> (forall b, P (JBool b)) -> (forall shown, P (JNumber shown)) ->
  (forall s, P (JString s)) -> (forall items, P (JArray items)) ->
  (forall fields, Forall (fun field => P (snd field)) fields -> P (JObject fields)) ->
  forall value, P value.
Proof.
  intros Hnull Hbool Hnumber Hstring Harray Hobject.
  fix IH 1.
  intros [| b | shown | s | items | fields];
    [exact Hnull | apply Hbool | apply Hnumber | apply Hstring | apply Harray |].
  apply Hobject. revert fields.
  fix IHfields 1. intros [|[key value] fields]; constructor; [apply IH | apply IHfields].
Qed.

Lemma snake_fields (fields : OperationParams) :
  snake_value (JObject fields) = true ->
  key_order (map fst fields) = true
  /\ Forall (fun field => snake_key (fst field) = true /\ snake_value (snd field) = true)
       fields.
Proof.
  cbn [snake_value]. intros H. apply andb_true_iff in H as [Horder Hfields].
  split; [exact Horder |]. apply List.Forall_forall. intros field Hin.
  rewrite forallb_forall in Hfields. now apply andb_true_iff, Hfields.
Qed.

Lemma round_trip_value (value : JsValue) :
  snake_value value = true -> convert_value (normalize_value value) = value.
Proof.
  induction value as [| b | shown | s | items | fields IH] using JsValue_nested_ind;
    try reflexivity.
  intros Hsnake. apply snake_fields in Hsnake as [Horder Hfields].
  cbn [normalize_value convert_value]. f_equal. apply round_trip_fields; [exact Horder |].
  rewrite List.Forall_forall in *. intros field Hin.
  destruct (Hfields field Hin) as [Hkey Hvalue]. split; [exact Hkey |].
  now apply IH.
Qed.

(** X20. Arguments as [JSON.parse] gives them, whose keys, in every object
    outside the arrays, are in snake case and are no names of members of
    [Object.prototype], come back as they were given when they are
    normalized and then converted to snake case: the two conversions undo
    each other on them, keys, values, nested objects and order. *)
Theorem snake_case_survives_both_conversions (params : OperationParams) :
  snake_value (JObject params) = true ->
  convertCamelToSnakeCase (normalizeParameters params) = params.
Proof.
  intros Hsnake. apply snake_fields in Hsnake as [Horder Hfields].
  unfold convertCamelToSnakeCase, normalizeParameters.
  apply round_trip_fields; [exact Horder |].
  eapply List.Forall_impl; [| exact Hfields].
  intros field [Hkey Hvalue]. split; [exact Hkey | now apply round_trip_value].
Qed.

Lemma X20_witness :
  convertCamelToSnakeCase (normalizeParameters demo_snake_args) = demo_snake_args.
Proof.
  apply (snake_case_survives_both_conversions demo_snake_args). vm_compute. reflexivity.
Defined.

End KeysProps.

(** * The query of [get_ui_elements], from the tool to the listener *)

Module UiToolProps.
Import Bridge BridgeProps Runner Tools Serialize UiTool.

Section Query.

Variable E : Engine.
Variable JSON_parse : string -> option Variant.
Variable JSON_stringify : Variant -> string.
Variable to_text : Variant -> string.
Variable null_property_message : string.

(** X21. What the tool [get_ui_elements] sends is a command that the
    listener understands, provided the filter, when it is given and truthy,
    is a string: the listener answers it with the elements that
    [_collect_control_nodes] collects from the root of the live tree, for all
    controls when the argument [visibleOnly] is the value [false] and for the
    visible ones in every other case, and with the filter as the type filter
    (none when the filter is not given or falsy). *)
Theorem ui_query_is_understood (activeProcess : option GodotProcess)
    (visibleOnly filter : option Variant) (command : string) (params : Dictionary)
    (timeoutMs : Q) (after : Settlement -> Response) (peer : Peer) (L : Listener) :
  handleGetUiElements JSON_parse JSON_stringify to_text null_property_message
    activeProcess visibleOnly filter
  = Sends command params timeoutMs after ->
  (forall value, filter = Some value -> js_truthy value = true ->
                 exists s, value = VString s) ->
  let visible_only :=
    match visibleOnly with Some (VBool false) => false | _ => true end in
  let type_filter := match filter with Some (VString s) => s | _ => "" end in
  dispatch E peer (sendCommand_payload command params) L
  = Ok (_send_response peer
          [("elements",
            VArray (map VDict (_collect_control_nodes "" (root L) [] visible_only
                                 type_filter)))] L).
Proof.
  unfold handleGetUiElements. intros H Hfilter. cbv zeta.
  destruct activeProcess as [proc|]; [| discriminate].
  destruct (hasExited proc); [discriminate |].
  injection H as <- <- _ _.
  set (visible_only := match visibleOnly with Some (VBool false) => false | _ => true end).
  destruct filter as [value|]; [| reflexivity].
  destruct (js_truthy value) eqn:Htruthy.
  - destruct (Hfilter value eq_refl Htruthy) as [s ->]. reflexivity.
  - destruct value as [| | | |s| |]; try reflexivity.
    cbn [js_truthy] in Htruthy. apply negb_false_iff, String.eqb_eq in Htruthy.
    now subst s.
Qed.

End Query.

Lemma X21_witness :
  dispatch demo_engine 3
    (sendCommand_payload "get_ui_elements"
       [("visible_only", VBool true); ("type_filter", VString "Label")])
    (ready demo_root)
  = Ok (_send_response 3
          [("elements",
            VArray (map VDict (_collect_control_nodes "" (root (ready demo_root)) []
                                 true "Label")))] (ready demo_root)).
Proof.
  apply (ui_query_is_understood demo_engine (fun _ => None) (fun _ => "") (fun _ => "")
           "" (Some demo_process) None (Some (VString "Label")) "get_ui_elements"
           [("visible_only", VBool true); ("type_filter", VString "Label")] 10000%Q
           (ui_answer (fun _ => None) (fun _ => "") (fun _ => "") "") 3
           (ready demo_root)).
  - reflexivity.
  - intros value Hvalue _. injection Hvalue as <-. now exists "Label".
Defined.

End UiToolProps.
